(** * ACTAPP: the JSON document store, the AI gateway's response handler
      and the error envelopes, embedded from the JavaScript sources

    - [server/services/storage.js]: [read], [write], [insert], [update],
      [remove], [paginate], the per-file lock;
    - [server/services/ai.js]: the model table, the checks of [chat]
      and its [res.on('end')] handler, the parsing of the replies;
    - [server/middleware/errorHandler.js], the authentication middleware
      and [server/server.js]: the bodies they send;
    - the routes: every body they pass to [res.json].

    JavaScript values are modelled at the level of JSON: numbers are the
    integers (type [Z]), strings are sequences of characters, each a code
    unit of the text (the type [ascii] holds those below 256), objects
    are association lists in insertion order; [undefined] is the [None]
    of [option json].  What
    the engine and Node provide ([JSON.stringify], [JSON.parse],
    [Array.prototype.sort], the [>] operator, the data directory) is the
    interface [JsRuntime]; [Reference] implements it so that every
    definition can be run on concrete inputs. *)

From Stdlib Require Import ZArith Lia Sorted Ascii String.
From stdpp Require Import base option list gmap strings pretty sorting.

Set Warnings "-register-all".

Open Scope string_scope.
Open Scope list_scope.
Open Scope Z_scope.

(** ** JSON values *)

Inductive json : Type :=
| JNull
| JBool (b : bool)
| JNum (n : Z)
| JStr (s : string)
| JArr (items : list json)
| JObj (fields : list (string * json)).

(** A JavaScript value that came out of JSON, or [undefined]. *)
Abbreviation value := (option json).
Abbreviation undefined := (@None json).

(** Errors carry the constructor's name and the message, as [Error]
    objects do. *)
Record error : Type := mkError { error_name : string; error_message : string }.

Definition TypeError (msg : string) : error := mkError "TypeError" msg.
Definition SyntaxError (msg : string) : error := mkError "SyntaxError" msg.
Definition SystemError (code : string) : error := mkError "Error" code.
Definition new_Error (msg : string) : error := mkError "Error" msg.

(** ** The engine and the platform *)

Class JsRuntime : Type := {
  (** [DATA_DIR = path.join(__dirname, '..', '..', 'data')], resolved once
      when the module is loaded. *)
  DATA_DIR : string;
  (** [JSON.stringify(data, null, 2)]. *)
  JSON_stringify : json → string;
  (** [JSON.parse(text)]; [None] stands for the [SyntaxError] it throws. *)
  JSON_parse : string → option json;
  (** [array.sort(comparefn)], as a function of the array's contents. *)
  Array_sort : (json → json → Z) → list json → list json;
  (** [x > y] on two values. *)
  js_gt : value → value → bool
}.

(** What the development assumes of an engine, beyond the types. *)
Record lawful (R : JsRuntime) : Prop := {
  (** On two numbers [>] is the order of the numbers. *)
  js_gt_num : ∀ a b : Z, js_gt (Some (JNum a)) (Some (JNum b)) = bool_decide (b < a)%Z;
  (** On two strings [>] compares code unit by code unit: the first
      difference decides, and a proper prefix is the smaller string. *)
  js_gt_str : ∀ a b : string, js_gt (Some (JStr a)) (Some (JStr b)) = String.ltb b a;
  (** [sort] permutes the array. *)
  Array_sort_perm : ∀ cmp l, Array_sort cmp l ≡ₚ l;
  (** When "comparefn puts [x] before [y]" is a total and transitive
      relation on the elements, the result is ordered by it.  (The merge
      and insertion sorts of the engines do this; ECMAScript itself only
      promises it for comparators that return 0 on equal arguments.) *)
  Array_sort_sorted : ∀ cmp l,
    (∀ x y, x ∈ l → y ∈ l → (cmp x y < 0)%Z ∨ (cmp y x < 0)%Z) →
    (∀ x y z, x ∈ l → y ∈ l → z ∈ l →
       (cmp x y < 0)%Z → (cmp y z < 0)%Z → (cmp x z < 0)%Z) →
    StronglySorted (λ x y, (cmp x y < 0)%Z) (Array_sort cmp l)
}.

(** ** The process state

    [files] is the file system, a map from paths to contents; [fileLocks]
    is the module's [const fileLocks = new Map()]; [clock] is what
    [Date.now()] returns; [console] collects the [console.error] lines.
    [disk_trace] records every state the file system went through, newest
    first: a crash can stop the process at any of them.  [faults] says
    which file-system calls fail. *)

Inductive write_outcome : Type :=
| write_completes
| write_fails_before_creating
| write_fails_after (written : nat).

Record io_faults : Type := mkFaults {
  readFileSync_fails : bool;
  writeFileSync_outcome : write_outcome;
  renameSync_fails : bool;
  unlinkSync_fails : bool
}.

Definition no_faults : io_faults := mkFaults false write_completes false false.

Record world : Type := mkWorld {
  files : gmap string string;
  fileLocks : gmap string bool;
  clock : N;
  console : list string;
  disk_trace : list (gmap string string);
  faults : io_faults
}.

Definition set_files (d : gmap string string) (w : world) : world :=
  mkWorld d (fileLocks w) (clock w) (console w) (d :: disk_trace w) (faults w).

Definition set_fileLocks (k : gmap string bool) (w : world) : world :=
  mkWorld (files w) k (clock w) (console w) (disk_trace w) (faults w).

Definition log_line (s : string) (w : world) : world :=
  mkWorld (files w) (fileLocks w) (clock w) (s :: console w) (disk_trace w) (faults w).

Definition initial_world (d : gmap string string) (now : N) (f : io_faults) : world :=
  mkWorld d ∅ now [] [] f.

(** ** Computations

    A call either returns, throws, or -- for an [async] function awaited
    with nobody else running -- never resumes ([Pending]). *)

Inductive completion (A : Type) : Type :=
| Return (a : A)
| Throw (e : error)
| Pending.
Arguments Return {A} a.
Arguments Throw {A} e.
Arguments Pending {A}.

Definition M (A : Type) : Type := world → completion A * world.

Definition ret {A} (a : A) : M A := λ w, (Return a, w).
Definition throw {A} (e : error) : M A := λ w, (Throw e, w).
Definition bind {A B} (m : M A) (k : A → M B) : M B :=
  λ w, match m w with
       | (Return a, w') => k a w'
       | (Throw e, w') => (Throw e, w')
       | (Pending, w') => (Pending, w')
       end.

Declare Scope js_scope.
Delimit Scope js_scope with js.
Notation "x <- m ;; k" := (bind m (λ x, k))
  (at level 100, m at next level, right associativity) : js_scope.
Notation "m ;;; k" := (bind m (λ _, k))
  (at level 100, right associativity) : js_scope.
Open Scope js_scope.

(** [try { body } catch (error) { handler }]. *)
Definition try_catch {A} (body : M A) (handler : error → M A) : M A :=
  λ w, match body w with
       | (Throw e, w') => handler e w'
       | other => other
       end.

(** [try { body } finally { cleanup }]: the cleanup runs after a return and
    after a throw; if it throws itself, that error replaces the outcome. *)
Definition try_finally {A} (body : M A) (cleanup : M unit) : M A :=
  λ w, match body w with
       | (Pending, w') => (Pending, w')
       | (r, w') =>
           match cleanup w' with
           | (Return _, w'') => (r, w'')
           | (Throw e, w'') => (Throw e, w'')
           | (Pending, w'') => (Pending, w'')
           end
       end.

Definition console_error (line : string) : M unit :=
  λ w, (Return tt, log_line line w).

Definition Date_now : M N := λ w, (Return (clock w), w).

(** ** [fs] *)

Definition fs_existsSync (p : string) : M bool :=
  λ w, (Return (bool_decide (is_Some (files w !! p))), w).

Definition fs_readFileSync (p : string) : M string :=
  λ w, if readFileSync_fails (faults w) then (Throw (SystemError "EIO"), w)
       else match files w !! p with
            | Some s => (Return s, w)
            | None => (Throw (SystemError "ENOENT"), w)
            end.

(** The states a file goes through while [n] bytes of [s] are written to
    it one after the other, oldest first: created empty, then each longer
    prefix. *)
Definition writing_states (d : gmap string string) (p s : string) (n : nat)
  : list (gmap string string) :=
  (λ k, <[p := String.substring 0 k s]> d) <$> seq 0 (S n).

Definition record_states (ds : list (gmap string string)) (w : world) : world :=
  foldl (λ w' d, set_files d w') w ds.

Definition fs_writeFileSync (p s : string) : M unit :=
  λ w, match writeFileSync_outcome (faults w) with
       | write_completes =>
           (Return tt, record_states (writing_states (files w) p s (String.length s)) w)
       | write_fails_before_creating => (Throw (SystemError "EACCES"), w)
       | write_fails_after n =>
           (Throw (SystemError "ENOSPC"),
            record_states (writing_states (files w) p s (n `min` String.length s)) w)
       end.

Definition fs_renameSync (src dst : string) : M unit :=
  λ w, if renameSync_fails (faults w) then (Throw (SystemError "EPERM"), w)
       else match files w !! src with
            | Some s => (Return tt, set_files (<[dst := s]> (delete src (files w))) w)
            | None => (Throw (SystemError "ENOENT"), w)
            end.

Definition fs_unlinkSync (p : string) : M unit :=
  λ w, if unlinkSync_fails (faults w) then (Throw (SystemError "EPERM"), w)
       else match files w !! p with
            | Some _ => (Return tt, set_files (delete p (files w)) w)
            | None => (Throw (SystemError "ENOENT"), w)
            end.

(** ** Arrays, objects and property access *)

Definition lift {A} (c : completion A) : M A := λ w, (c, w).

(** [data.method] on a value that is not an array has no such method. *)
Definition as_array (method : string) (data : json) : completion (list json) :=
  match data with
  | JArr l => Return l
  | JNull => Throw (TypeError ("Cannot read properties of null (reading '" +:+ method +:+ "')"))
  | _ => Throw (TypeError ("data." +:+ method +:+ " is not a function"))
  end.

(** [data.push(item)]; the array is returned with the item added. *)
Definition Array_push (data item : json) : completion json :=
  match as_array "push" data with
  | Return l => Return (JArr (l ++ [item]))
  | Throw e => Throw e
  | Pending => Pending
  end.

Definition Array_filter (data : json) (predicate : json → bool) : completion (list json) :=
  match as_array "filter" data with
  | Return l => Return (List.filter predicate l)
  | other => other
  end.

Fixpoint findIndex_from (predicate : json → bool) (l : list json) (i : Z) : Z :=
  match l with
  | [] => -1
  | x :: l' => if predicate x then i else findIndex_from predicate l' (i + 1)
  end.

(** [data.findIndex(predicate)]: the index of the first match, or -1. *)
Definition Array_findIndex (data : json) (predicate : json → bool) : completion Z :=
  match as_array "findIndex" data with
  | Return l => Return (findIndex_from predicate l 0)
  | Throw e => Throw e
  | Pending => Pending
  end.

(** [data.find(predicate)]: the first match, or [undefined]. *)
Definition Array_find (data : json) (predicate : json → bool) : completion value :=
  match as_array "find" data with
  | Return l => Return (List.find predicate l)
  | Throw e => Throw e
  | Pending => Pending
  end.

(** [data.slice(start, end)], with JavaScript's reading of negative and
    too large indices. *)
Definition relative_index (len k : Z) : Z :=
  if k <? 0 then Z.max (len + k) 0 else Z.min k len.

Definition Array_slice (l : list json) (start end_ : Z) : list json :=
  let len := Z.of_nat (length l) in
  let k := relative_index len start in
  let final := relative_index len end_ in
  take (Z.to_nat (Z.max (final - k) 0)) (drop (Z.to_nat k) l).

(** [data[index]], [data[index] = v] and [data.splice(index, 1)] at an
    index that [findIndex] returned. *)
Definition Array_get (data : json) (index : Z) : value :=
  match data with
  | JArr l => l !! Z.to_nat index
  | _ => undefined
  end.

Definition Array_set (data : json) (index : Z) (v : json) : json :=
  match data with
  | JArr l => JArr (<[Z.to_nat index := v]> l)
  | other => other
  end.

Definition Array_splice1 (data : json) (index : Z) : json :=
  match data with
  | JArr l => JArr (delete (Z.to_nat index) l)
  | other => other
  end.

Definition is_null (v : json) : bool :=
  match v with
  | JNull => true
  | _ => false
  end.

Fixpoint assoc (k : string) (o : list (string * json)) : value :=
  match o with
  | [] => undefined
  | (k', v) :: o' => if decide (k = k') then Some v else assoc k o'
  end.

(** [o[k] = v] on an object: an existing key keeps its place. *)
Fixpoint obj_set (o : list (string * json)) (k : string) (v : json)
  : list (string * json) :=
  match o with
  | [] => [(k, v)]
  | (k', v') :: o' => if decide (k = k') then (k, v) :: o' else (k', v') :: obj_set o' k v
  end.

Definition chars (s : string) : list json :=
  (λ c, JStr (String c EmptyString)) <$> String.list_ascii_of_string s.

(** The own enumerable properties copied by a spread [...v]. *)
Definition own_properties (v : value) : list (string * json) :=
  match v with
  | Some (JObj o) => o
  | Some (JArr l) => imap (λ i x, (pretty i, x)) l
  | Some (JStr s) => imap (λ i x, (pretty i, x)) (chars s)
  | _ => []
  end.

Definition spread_into (o : list (string * json)) (v : value) : list (string * json) :=
  foldl (λ acc kv, obj_set acc kv.1 kv.2) o (own_properties v).

(** [{ ...a, ...b }]. *)
Definition spread2 (a b : value) : json := JObj (spread_into (spread_into [] a) b).

Definition indexed (l : list json) (k : string) : value :=
  match list_find (λ i, pretty i = k) (seq 0 (length l)) with
  | Some (_, i) => l !! i
  | None => undefined
  end.

(** [v[k]] for a string key [k]. *)
Definition get (v : value) (k : string) : completion value :=
  match v with
  | None => Throw (TypeError ("Cannot read properties of undefined (reading '" +:+ k +:+ "')"))
  | Some JNull => Throw (TypeError ("Cannot read properties of null (reading '" +:+ k +:+ "')"))
  | Some (JObj o) => Return (assoc k o)
  | Some (JArr l) =>
      if decide (k = "length") then Return (Some (JNum (Z.of_nat (length l))))
      else Return (indexed l k)
  | Some (JStr s) =>
      if decide (k = "length") then Return (Some (JNum (Z.of_nat (String.length s))))
      else Return (indexed (chars s) k)
  | Some _ => Return undefined
  end.

(** ToBoolean. *)
Definition truthy (v : value) : bool :=
  match v with
  | None | Some JNull | Some (JBool false) | Some (JNum 0) | Some (JStr EmptyString) => false
  | _ => true
  end.

(** ** [storage.js] *)

Definition path_join (dir name : string) : string := dir +:+ "/" +:+ name.

Inductive number : Type :=
| Finite (z : Z)
| Infinity
| NaN.

(** [Math.ceil(a / b)] for a length [a] and an integer [b]: the division
    by zero gives [Infinity] or, for [0 / 0], [NaN]. *)
Definition ceil_div (a b : Z) : number :=
  if b =? 0 then (if a =? 0 then NaN else Infinity)
  else Finite (- ((- a) `div` b)).

Record sort_options : Type := mkSort { field : string; order : string }.

Record page_result : Type := mkPage {
  items : list json;
  page : Z;
  limit : Z;
  total : Z;
  totalPages : number
}.

(** [fileLocks.get(filename)] as a condition. *)
Definition truthy_lock (entry : option bool) : bool :=
  match entry with
  | Some true => true
  | _ => false
  end.

(** The lines [read] and [write] put on the console. *)
Definition reading_error (filename : string) : string :=
  "Error reading " +:+ filename +:+ ":".

Definition writing_error (filename : string) : string :=
  "Error writing " +:+ filename +:+ ":".

Section Storage.
Context `{JsRuntime}.

Definition JSON_parse_or_throw (text : string) : M json :=
  match JSON_parse text with
  | Some v => ret v
  | None => throw (SyntaxError "Unexpected token in JSON")
  end.

(** [acquireLock]: the loop polls the map every 10 ms; a caller running
    alone against a taken lock is never woken with it free. *)
Definition acquireLock (filename : string) : M unit :=
  λ w, if truthy_lock (fileLocks w !! filename) then (Pending, w)
       else (Return tt, set_fileLocks (<[filename := true]> (fileLocks w)) w).

Definition releaseLock (filename : string) : M unit :=
  λ w, (Return tt, set_fileLocks (delete filename (fileLocks w)) w).

Definition read (filename : string) (defaultValue : json) : M json :=
  let filepath := path_join DATA_DIR filename in
  try_catch
    (present <- fs_existsSync filepath ;;
     if negb present then ret defaultValue
     else
       data <- fs_readFileSync filepath ;;
       JSON_parse_or_throw data)
    (λ error,
       console_error (reading_error filename) ;;;
       ret defaultValue).

Definition temp_path (filepath : string) (now : N) : string :=
  filepath +:+ ".tmp." +:+ pretty now.

(** The [catch] block of [write]. *)
Definition write_catch (filename tempPath : string) (error_ : error) : M unit :=
  console_error (writing_error filename) ;;;
  present <- fs_existsSync tempPath ;;
  (if present then fs_unlinkSync tempPath else ret tt) ;;;
  throw error_.

(** The part of [write] that runs once the lock is held: the
    [try]/[catch]/[finally] statement. *)
Definition write_locked (filename filepath tempPath : string) (data : json) : M unit :=
  try_finally
    (try_catch
       (fs_writeFileSync tempPath (JSON_stringify data) ;;;
        fs_renameSync tempPath filepath)
       (write_catch filename tempPath))
    (releaseLock filename).

Definition write (filename : string) (data : json) : M unit :=
  let filepath := path_join DATA_DIR filename in
  now <- Date_now ;;
  let tempPath := temp_path filepath now in
  acquireLock filename ;;;
  write_locked filename filepath tempPath data.

Definition findOne (filename : string) (predicate : json → bool) : M value :=
  data <- read filename (JArr []) ;;
  lift (Array_find data predicate).

Definition findMany (filename : string) (predicate : json → bool) : M (list json) :=
  data <- read filename (JArr []) ;;
  lift (Array_filter data predicate).

Definition insert (filename : string) (item : json) : M json :=
  data <- read filename (JArr []) ;;
  data <- lift (Array_push data item) ;;
  write filename data ;;;
  ret item.

(** [update] answers [null] when nothing matches. *)
Definition update (filename : string) (predicate : json → bool) (updates : value)
  : M value :=
  data <- read filename (JArr []) ;;
  index <- lift (Array_findIndex data predicate) ;;
  if index =? -1 then ret (Some JNull)
  else
    let data := Array_set data index (spread2 (Array_get data index) updates) in
    write filename data ;;;
    ret (Array_get data index).

Definition remove (filename : string) (predicate : json → bool) : M bool :=
  data <- read filename (JArr []) ;;
  index <- lift (Array_findIndex data predicate) ;;
  if index =? -1 then ret false
  else
    let data := Array_splice1 data index in
    write filename data ;;;
    ret true.

(** The comparator handed to [sort]. *)
Definition field_of (a : json) (s : sort_options) : value :=
  match get (Some a) (field s) with
  | Return v => v
  | _ => undefined
  end.

Definition compare (s : sort_options) (a b : json) : Z :=
  if decide (order s = "desc")
  then (if js_gt (field_of b s) (field_of a s) then 1 else -1)
  else (if js_gt (field_of a s) (field_of b s) then 1 else -1).

(** [data.sort(...)]: with two or more elements the comparator reads a
    property of each of them, which throws on [null]. *)
Definition sort_by (s : sort_options) (l : list json) : completion (list json) :=
  if (2 <=? length l)%nat && existsb is_null l
  then Throw (TypeError ("Cannot read properties of null (reading '" +:+ field s +:+ "')"))
  else Return (Array_sort (compare s) l).

(** [if (sort) { data.sort(...) }]. *)
Definition sort_if (sort : option sort_options) (data : list json)
  : completion (list json) :=
  match sort with
  | Some s => sort_by s data
  | None => Return data
  end.

Definition paginate (filename : string) (predicate : json → bool)
    (page limit : Z) (sort : option sort_options) : M page_result :=
  data <- read filename (JArr []) ;;
  data <- lift (Array_filter data predicate) ;;
  data <- lift (sort_if sort data) ;;
  let total := Z.of_nat (length data) in
  let totalPages := ceil_div total limit in
  let start := (page - 1) * limit in
  let items := Array_slice data start (start + limit) in
  ret (mkPage items page limit total totalPages).

End Storage.

(** ** Concurrent calls of [insert]

    Node runs one handler at a time and switches only at an [await].  A
    call of [insert] is therefore a sequence of atomic pieces, and a task
    records at which [await] the call is suspended:
    - [Called]: [insert(filename, item)] has not run yet;
    - [AwaitingRead]: [read] has run to its [return]; the call is
      suspended at [await read(...)] with the value read;
    - [AwaitingTimer]: inside [acquireLock], the lock was taken and the
      call waits for its 10 ms timer;
    - [AwaitingLock]: [acquireLock] has set the lock and returned; the
      call is suspended at [await acquireLock(filename)] in [write];
    - [AwaitingWrite]: [write] has run its [try]/[catch]/[finally]; the
      call is suspended at [await write(...)];
    - [Settled]: the promise of [insert] is fulfilled or rejected. *)

Inductive task : Type :=
| Called (filename : string) (item : json)
| AwaitingRead (filename : string) (item data : json)
| AwaitingTimer (filename filepath tempPath : string) (item data : json)
| AwaitingLock (filename filepath tempPath : string) (item data : json)
| AwaitingWrite (item : json) (outcome : completion unit)
| Settled (outcome : completion json).

Record system : Type := mkSystem {
  sys_world : world;
  sys_tasks : list task
}.

Section Scheduler.
Context `{JsRuntime}.

(** The loop of [acquireLock], entered or re-entered after a timer. *)
Definition poll_lock (filename filepath tempPath : string) (item data : json)
    (w : world) : task * world :=
  match acquireLock filename w with
  | (Return _, w') => (AwaitingLock filename filepath tempPath item data, w')
  | (Throw e, w') => (Settled (Throw e), w')
  | (Pending, w') => (AwaitingTimer filename filepath tempPath item data, w')
  end.

(** One task runs from its [await] to the next one. *)
Definition step_task (t : task) (w : world) : task * world :=
  match t with
  | Called filename item =>
      match read filename (JArr []) w with
      | (Return data, w') => (AwaitingRead filename item data, w')
      | (Throw e, w') => (Settled (Throw e), w')
      | (Pending, w') => (t, w')
      end
  | AwaitingRead filename item data =>
      match Array_push data item with
      | Return data' =>
          let filepath := path_join DATA_DIR filename in
          let tempPath := temp_path filepath (clock w) in
          poll_lock filename filepath tempPath item data' w
      | Throw e => (Settled (Throw e), w)
      | Pending => (t, w)
      end
  | AwaitingTimer filename filepath tempPath item data =>
      poll_lock filename filepath tempPath item data w
  | AwaitingLock filename filepath tempPath item data =>
      match write_locked filename filepath tempPath data w with
      | (outcome, w') => (AwaitingWrite item outcome, w')
      end
  | AwaitingWrite item outcome =>
      match outcome with
      | Return _ => (Settled (Return item), w)
      | Throw e => (Settled (Throw e), w)
      | Pending => (t, w)
      end
  | Settled _ => (t, w)
  end.

(** The event loop resumes task [i]. *)
Definition step (i : nat) (s : system) : system :=
  match sys_tasks s !! i with
  | Some t =>
      let '(t', w') := step_task t (sys_world s) in
      mkSystem w' (<[i := t']> (sys_tasks s))
  | None => s
  end.

Definition run (schedule : list nat) (s : system) : system :=
  foldl (λ s i, step i s) s schedule.

(** [items.map(item => insert(filename, item))] on a given world. *)
Definition concurrent_inserts (w : world) (filename : string) (items : list json)
  : system :=
  mkSystem w (Called filename <$> items).

Definition is_settled (t : task) : bool :=
  match t with
  | Settled _ => true
  | _ => false
  end.

Definition all_settled (s : system) : bool := forallb is_settled (sys_tasks s).

(** What a reader finds in the collection once everything has settled. *)
Definition stored (s : system) (filename : string) : completion json :=
  (read filename (JArr []) (sys_world s)).1.

End Scheduler.

(** ** [ai.js]: the handler of the response's [end] event in [chat] *)

(** The promise [chat] returns: fulfilled, rejected, or never settled.
    It is settled by the [end] handler of the response and by the [error]
    and [timeout] handlers of the request, and by nothing else: when none
    of these events is emitted (a response that is closed before its
    end), the promise stays pending. *)
Inductive settlement : Type :=
| Resolved (v : value)
| Rejected (e : error)
| Unsettled.

Definition and_then {A B} (c : completion A) (k : A → completion B) : completion B :=
  match c with
  | Return a => k a
  | Throw e => Throw e
  | Pending => Pending
  end.

Notation "x <~ c ;; k" := (and_then c (λ x, k))
  (at level 100, c at next level, right associativity) : js_scope.

(** Number::toString on an integer.  A number is a double: [to_double]
    is the double nearest to a positive integer (ties to the even
    significand), [shortest] the decimal with the fewest significant
    digits that reads back as that double (the nearest one when there are
    two), which is printed digit by digit below 10^21 and with an exponent
    from there on; above the largest double the number is [Infinity]. *)
Definition to_double (x : Z) : Z :=
  let shift := Z.log2 x - 52 in
  if shift <=? 0 then x
  else
    let q := Z.shiftr x shift in
    let r := x - Z.shiftl q shift in
    let half := Z.shiftl 1 (shift - 1) in
    let q' := if (half <? r) || ((r =? half) && Z.odd q) then q + 1 else q in
    Z.shiftl q' shift.

(** The decimals [s * p] next to [d], for [p] a power of ten. *)
Definition rounded_to (d p : Z) : option Z :=
  let lower := (d / p) * p in
  let upper := lower + p in
  match bool_decide (to_double lower = d), bool_decide (to_double upper = d) with
  | true, true =>
      if d - lower <? upper - d then Some lower
      else if upper - d <? d - lower then Some upper
      else if Z.even (d / p) then Some lower else Some upper
  | true, false => Some lower
  | false, true => Some upper
  | false, false => None
  end.

Fixpoint shortest_from (d : Z) (zeros : nat) : Z :=
  match zeros with
  | O => d
  | S zeros' =>
      match rounded_to d (10 ^ Z.of_nat zeros) with
      | Some v => v
      | None => shortest_from d zeros'
      end
  end.

Definition shortest (d : Z) : Z := shortest_from d (String.length (pretty d) - 1).

Fixpoint strip_zeros (reversed : list ascii) : list ascii :=
  match reversed with
  | c :: rest => if decide (c = "0"%char) then strip_zeros rest else reversed
  | [] => []
  end.

Definition exponent_form (v : Z) : string :=
  let digits := String.list_ascii_of_string (pretty v) in
  let exponent := "e+" +:+ pretty (length digits - 1)%nat in
  match rev (strip_zeros (rev digits)) with
  | [] => "0"
  | [c] => String c exponent
  | c :: fraction => String c ("." +:+ String.string_of_list_ascii fraction +:+ exponent)
  end.

Definition Number_toString (n : Z) : string :=
  if n =? 0 then "0"
  else
    let d := to_double (Z.abs n) in
    let sign := if n <? 0 then "-" else EmptyString in
    if 2 ^ 1024 <=? d then sign +:+ "Infinity"
    else
      let v := shortest d in
      sign +:+ (if v <? 10 ^ 21 then pretty v else exponent_form v).

(** ToString(v), as a property key [o[v]], a template literal and
    [new Error(v)] apply it.  An array joins its elements with commas, an
    empty text standing for [null]; an object answers with the
    [toString] it inherits, unless a property of its own named
    [toString] hides it: that one is no function, [valueOf] returns the
    object itself, and the conversion throws. *)
Fixpoint to_String (v : json) : completion string :=
  match v with
  | JNull => Return "null"
  | JBool true => Return "true"
  | JBool false => Return "false"
  | JNum n => Return (Number_toString n)
  | JStr s => Return s
  | JArr l =>
      (fix elements (l : list json) : completion string :=
         match l with
         | [] => Return EmptyString
         | [x] => if is_null x then Return EmptyString else to_String x
         | x :: l' =>
             first <~ (if is_null x then Return EmptyString else to_String x) ;;
             others <~ elements l' ;;
             Return (first +:+ "," +:+ others)
         end) l
  | JObj o =>
      match assoc "toString" o with
      | Some _ => Throw (TypeError "Cannot convert object to primitive value")
      | None => Return "[object Object]"
      end
  end.

(** [a?.k]. *)
Definition get_optional (a : value) (k : string) : completion value :=
  match a with
  | None | Some JNull => Return undefined
  | _ => get a k
  end.

Section Chat.
Context `{JsRuntime}.

(** The handler is synchronous: its [try] block returns or throws, and the
    [catch] turns what it throws into a rejection. *)
Definition on_end (statusCode : Z) (data : string) : settlement :=
  let body : completion settlement :=
    response <~ match JSON_parse data with
                | Some v => Return (Some v)
                | None => Throw (SyntaxError "Unexpected token in JSON")
                end ;;
    if negb (statusCode =? 200) then
      error_ <~ get response "error" ;;
      message <~ get_optional error_ "message" ;;
      text <~ match message with
              | Some m => if truthy message then to_String m
                          else Return ("API error: " +:+ pretty statusCode)
              | None => Return ("API error: " +:+ pretty statusCode)
              end ;;
      Return (Rejected (new_Error text))
    else
      choices <~ get response "choices" ;;
      first <~ (if truthy choices then get choices "0" else Return choices) ;;
      message <~ (if truthy first then get first "message" else Return first) ;;
      if truthy message then
        content <~ get message "content" ;;
        Return (Resolved content)
      else Return (Rejected (new_Error "Invalid API response format")) in
  match body with
  | Return s => s
  | Throw e => Rejected (new_Error ("Failed to parse API response: " +:+ error_message e))
  | Pending => Rejected (new_Error "Failed to parse API response: ")
  end.

End Chat.

(** ** The response bodies of the middleware *)

Record response : Type := mkResponse { status : json; body : json }.

Inductive middleware_result : Type :=
| Respond (r : response)
| Next.

(** [Object.values(v)] for a truthy [v]. *)
Definition Object_values (v : json) : list json :=
  snd <$> own_properties (Some v).

(** [a || b]. *)
Definition or_else (a : value) (b : json) : json :=
  match a with
  | Some x => if truthy a then x else b
  | None => b
  end.

(** A property that holds [undefined] is left out by [res.json]. *)
Definition json_or_null (v : value) : json := default JNull v.

Fixpoint map_completion {A B} (f : A → completion B) (l : list A) : completion (list B) :=
  match l with
  | [] => Return []
  | x :: l' => y <~ f x ;; ys <~ map_completion f l' ;; Return (y :: ys)
  end.

Definition has_key (k : string) (v : json) : bool :=
  match v with
  | JObj o => bool_decide (is_Some (assoc k o))
  | _ => false
  end.

(** [v === 'text'] and [v === n]. *)
Definition same_string (v : value) (text : string) : bool :=
  match v with
  | Some (JStr s) => bool_decide (s = text)
  | _ => false
  end.

Definition same_number (v : value) (n : Z) : bool :=
  match v with
  | Some (JNum m) => bool_decide (m = n)
  | _ => false
  end.

(** [errorHandler(err, req, res, next)]; [NODE_ENV] is
    [process.env.NODE_ENV]. *)
Definition errorHandler (NODE_ENV : value) (err : json) : M response :=
  console_error "Error:" ;;;
  lift (
    statusCode0 <~ get (Some err) "statusCode" ;;
    message0 <~ get (Some err) "message" ;;
    errors0 <~ get (Some err) "errors" ;;
    name <~ get (Some err) "name" ;;
    let statusCode := or_else statusCode0 (JNum 500) in
    let message := or_else message0 (JStr "Internal server error") in
    let errors := or_else errors0 (JArr []) in
    validation <~
      (if same_string name "ValidationError" then
         messages <~ map_completion (λ e, m <~ get (Some e) "message" ;; Return (json_or_null m))
                       (Object_values (or_else errors0 (JObj []))) ;;
         Return (JNum 400, JStr "Validation error", JArr messages)
       else Return (statusCode, message, errors)) ;;
    let '(statusCode, message, errors) := validation in
    status_ <~ get (Some err) "status" ;;
    let '(statusCode, message, errors) :=
      if same_string name "SyntaxError"
         && same_number status_ 400
         && has_key "body" err
      then (JNum 400, JStr "Invalid JSON", JArr [JStr "Request body contains invalid JSON"])
      else (statusCode, message, errors) in
    let '(message, errors) :=
      if same_string NODE_ENV "production"
         && same_number (Some statusCode) 500
      then (JStr "Internal server error", JArr [])
      else (message, errors) in
    Return (mkResponse statusCode
              (JObj [("success", JBool false); ("message", message); ("errors", errors)]))).

(** [authMiddleware(req, res, next)]; [session] is [req.session]. *)
Definition authMiddleware (session : value) : completion middleware_result :=
  userId <~ (if truthy session then get session "userId" else Return undefined) ;;
  if negb (truthy session) || negb (truthy userId) then
    Return (Respond (mkResponse (JNum 401)
      (JObj [("success", JBool false);
             ("message", JStr "Authentication required");
             ("errors", JArr [JStr "Please log in to access this resource"])])))
  else Return Next.

(** The JSON branch of the 404 handler of [server.js]. *)
Definition notFound : response :=
  mkResponse (JNum 404)
    (JObj [("success", JBool false); ("message", JStr "Not found"); ("errors", JArr [])]).

(** [GET /api/health] of [server.js]; [timestamp] is
    [new Date().toISOString()]. *)
Definition health (timestamp : string) : response :=
  mkResponse (JNum 200)
    (JObj [("success", JBool true);
           ("data", JObj [("status", JStr "healthy"); ("timestamp", JStr timestamp)]);
           ("message", JStr "Server is running");
           ("errors", JArr [])]).

(** The envelope of the interface description: all four fields, of the
    stated types. *)
Definition is_string (v : json) : bool :=
  match v with
  | JStr _ => true
  | _ => false
  end.

Definition is_envelope (b : json) : bool :=
  match b with
  | JObj o =>
      match assoc "success" o, assoc "data" o, assoc "message" o, assoc "errors" o with
      | Some (JBool _), Some (JObj _), Some (JStr _), Some (JArr l) => forallb is_string l
      | _, _, _, _ => false
      end
  | _ => false
  end.

(** ** A reference runtime

    An executable [JsRuntime]: a printer and a parser for JSON over the
    integers (two-space indentation, the escapes of quote, backslash and
    the usual control characters), a stable insertion sort, and [>] on
    primitive values. *)

Module Reference.

Definition quote_char : ascii := Ascii.ascii_of_nat 34.
Definition backslash : ascii := Ascii.ascii_of_nat 92.
Definition newline : ascii := Ascii.ascii_of_nat 10.
Definition tab : ascii := Ascii.ascii_of_nat 9.
Definition carriage_return : ascii := Ascii.ascii_of_nat 13.

Definition str1 (c : ascii) : string := String c EmptyString.

Fixpoint escape (s : string) : string :=
  match s with
  | EmptyString => EmptyString
  | String c s' =>
      (if decide (c = quote_char) then String backslash (str1 quote_char)
       else if decide (c = backslash) then String backslash (str1 backslash)
       else if decide (c = newline) then String backslash "n"
       else if decide (c = tab) then String backslash "t"
       else if decide (c = carriage_return) then String backslash "r"
       else str1 c) +:+ escape s'
  end.

Definition quoted (s : string) : string :=
  str1 quote_char +:+ escape s +:+ str1 quote_char.

Fixpoint join (sep : string) (l : list string) : string :=
  match l with
  | [] => EmptyString
  | [x] => x
  | x :: l' => x +:+ sep +:+ join sep l'
  end.

Fixpoint stringify_at (indent : string) (v : json) : string :=
  let inner := indent +:+ "  " in
  let sep := "," +:+ str1 newline +:+ inner in
  match v with
  | JNull => "null"
  | JBool true => "true"
  | JBool false => "false"
  | JNum n => pretty n
  | JStr s => quoted s
  | JArr [] => "[]"
  | JArr l =>
      "[" +:+ str1 newline +:+ inner
      +:+ join sep (List.map (stringify_at inner) l)
      +:+ str1 newline +:+ indent +:+ "]"
  | JObj [] => "{}"
  | JObj o =>
      "{" +:+ str1 newline +:+ inner
      +:+ join sep (List.map (λ kv, let '(k, x) := kv in
                                    quoted k +:+ ": " +:+ stringify_at inner x) o)
      +:+ str1 newline +:+ indent +:+ "}"
  end.

Definition stringify (v : json) : string := stringify_at EmptyString v.

(** *** The parser *)

Definition is_ws (c : ascii) : bool :=
  bool_decide (c = " "%char) || bool_decide (c = newline)
  || bool_decide (c = tab) || bool_decide (c = carriage_return).

Fixpoint skip_ws (cs : list ascii) : list ascii :=
  match cs with
  | c :: cs' => if is_ws c then skip_ws cs' else cs
  | [] => []
  end.

Fixpoint expect (word cs : list ascii) : option (list ascii) :=
  match word, cs with
  | [], _ => Some cs
  | a :: word', c :: cs' => if decide (a = c) then expect word' cs' else None
  | _ :: _, [] => None
  end.

Fixpoint digits (acc : Z) (cs : list ascii) : Z * list ascii :=
  match cs with
  | c :: cs' =>
      match Ascii.is_nat c with
      | Some d => digits (10 * acc + Z.of_nat d) cs'
      | None => (acc, cs)
      end
  | [] => (acc, [])
  end.

Definition starts_digit (cs : list ascii) : bool :=
  match cs with
  | c :: _ => bool_decide (is_Some (Ascii.is_nat c))
  | [] => false
  end.

(** A fraction or an exponent is outside the integers: no parse. *)
Definition integer_ends (cs : list ascii) : bool :=
  match cs with
  | c :: _ => negb (bool_decide (c = "."%char) || bool_decide (c = "e"%char)
                    || bool_decide (c = "E"%char))
  | [] => true
  end.

Definition parse_number (cs : list ascii) : option (Z * list ascii) :=
  let '(negative, cs1) :=
    match cs with
    | c :: cs' => if decide (c = "-"%char) then (true, cs') else (false, cs)
    | [] => (false, [])
    end in
  if starts_digit cs1 then
    let '(n, rest) := digits 0 cs1 in
    if integer_ends rest then Some (if negative then - n else n, rest) else None
  else None.

(** The characters after the opening quote, up to the closing one. *)
Fixpoint parse_chars (cs : list ascii) : option (string * list ascii) :=
  match cs with
  | [] => None
  | c :: cs' =>
      if decide (c = quote_char) then Some (EmptyString, cs')
      else if decide (c = backslash) then
        match cs' with
        | e :: cs'' =>
            let plain (x : ascii) :=
              match parse_chars cs'' with
              | Some (s, rest) => Some (String x s, rest)
              | None => None
              end in
            if decide (e = quote_char) then plain quote_char
            else if decide (e = backslash) then plain backslash
            else if decide (e = "/"%char) then plain "/"%char
            else if decide (e = "n"%char) then plain newline
            else if decide (e = "t"%char) then plain tab
            else if decide (e = "r"%char) then plain carriage_return
            else None
        | [] => None
        end
      else
        match parse_chars cs' with
        | Some (s, rest) => Some (String c s, rest)
        | None => None
        end
  end.

Fixpoint parse_value (fuel : nat) (cs : list ascii) : option (json * list ascii) :=
  match fuel with
  | O => None
  | S fuel' =>
      let elements :=
        fix elements (n : nat) (cs : list ascii) : option (list json * list ascii) :=
          match n with
          | O => None
          | S n' =>
              match parse_value fuel' (skip_ws cs) with
              | Some (v, rest) =>
                  match skip_ws rest with
                  | c :: rest' =>
                      if decide (c = ","%char) then
                        match elements n' rest' with
                        | Some (vs, rest'') => Some (v :: vs, rest'')
                        | None => None
                        end
                      else if decide (c = "]"%char) then Some ([v], rest')
                      else None
                  | [] => None
                  end
              | None => None
              end
          end in
      let members :=
        fix members (n : nat) (cs : list ascii)
          : option (list (string * json) * list ascii) :=
          match n with
          | O => None
          | S n' =>
              match skip_ws cs with
              | q :: cs1 =>
                  if decide (q = quote_char) then
                    match parse_chars cs1 with
                    | Some (k, cs2) =>
                        match skip_ws cs2 with
                        | colon :: cs3 =>
                            if decide (colon = ":"%char) then
                              match parse_value fuel' (skip_ws cs3) with
                              | Some (v, rest) =>
                                  match skip_ws rest with
                                  | c :: rest' =>
                                      if decide (c = ","%char) then
                                        match members n' rest' with
                                        | Some (kvs, rest'') => Some ((k, v) :: kvs, rest'')
                                        | None => None
                                        end
                                      else if decide (c = "}"%char) then Some ([(k, v)], rest')
                                      else None
                                  | [] => None
                                  end
                              | None => None
                              end
                            else None
                        | [] => None
                        end
                    | None => None
                    end
                  else None
              | [] => None
              end
          end in
      match cs with
      | [] => None
      | c :: cs' =>
          if decide (c = "n"%char) then
            rest ← expect (String.list_ascii_of_string "ull") cs'; Some (JNull, rest)
          else if decide (c = "t"%char) then
            rest ← expect (String.list_ascii_of_string "rue") cs'; Some (JBool true, rest)
          else if decide (c = "f"%char) then
            rest ← expect (String.list_ascii_of_string "alse") cs'; Some (JBool false, rest)
          else if decide (c = quote_char) then
            '(s, rest) ← parse_chars cs'; Some (JStr s, rest)
          else if decide (c = "["%char) then
            match skip_ws cs' with
            | c' :: rest =>
                if decide (c' = "]"%char) then Some (JArr [], rest)
                else '(vs, rest') ← elements (length cs') cs'; Some (JArr vs, rest')
            | [] => None
            end
          else if decide (c = "{"%char) then
            match skip_ws cs' with
            | c' :: rest =>
                if decide (c' = "}"%char) then Some (JObj [], rest)
                else '(kvs, rest') ← members (length cs') cs'; Some (JObj kvs, rest')
            | [] => None
            end
          else
            '(n, rest) ← parse_number cs; Some (JNum n, rest)
      end
  end.

Definition parse (text : string) : option json :=
  let cs := String.list_ascii_of_string text in
  match parse_value (S (length cs)) (skip_ws cs) with
  | Some (v, rest) =>
      match skip_ws rest with
      | [] => Some v
      | _ => None
      end
  | None => None
  end.

(** *** Sorting and comparing *)

Fixpoint insert_sorted (cmp : json → json → Z) (x : json) (l : list json) : list json :=
  match l with
  | [] => [x]
  | y :: l' => if cmp x y <? 0 then x :: y :: l' else y :: insert_sorted cmp x l'
  end.

Definition sort (cmp : json → json → Z) (l : list json) : list json :=
  foldr (insert_sorted cmp) [] l.

(** ToNumber on primitives; [None] is [NaN].  A string counts as a number
    when it is empty or an integer literal; objects and arrays are taken
    as [NaN]. *)
Definition to_number (v : value) : option Z :=
  match v with
  | None => None
  | Some JNull => Some 0
  | Some (JBool b) => Some (if b then 1 else 0)
  | Some (JNum n) => Some n
  | Some (JStr s) =>
      match skip_ws (String.list_ascii_of_string s) with
      | [] => Some 0
      | cs => match parse_number cs with
              | Some (n, rest) => if bool_decide (skip_ws rest = []) then Some n else None
              | None => None
              end
      end
  | Some _ => None
  end.

Definition gt (x y : value) : bool :=
  match x, y with
  | Some (JStr s), Some (JStr t) => String.ltb t s
  | _, _ =>
      match to_number x, to_number y with
      | Some a, Some b => bool_decide (b < a)
      | _, _ => false
      end
  end.

#[global] Instance runtime : JsRuntime := {|
  DATA_DIR := "/srv/actapp/data";
  JSON_stringify := stringify;
  JSON_parse := parse;
  Array_sort := sort;
  js_gt := gt
|}.

End Reference.

(** ** Vocabulary of the statements *)

(** The world a successful [write] leaves. *)
Definition written `{JsRuntime} (filename filepath tempPath : string) (data : json)
    (w : world) : world :=
  let text := JSON_stringify data in
  let d := <[filepath := text]> (delete tempPath (<[tempPath := text]> (files w))) in
  mkWorld d (delete filename (fileLocks w)) (clock w) (console w)
    (d :: rev (writing_states (files w) tempPath text (String.length text)) ++ disk_trace w)
    (faults w).

(** The data round-trips through the engine's JSON: what [JSON.parse]
    reads back from [JSON.stringify(data, null, 2)] is [data]. *)
Definition round_trips `{JsRuntime} (data : json) : Prop :=
  JSON_parse (JSON_stringify data) = Some data.

(** No write to [filename] is in flight. *)
Definition unlocked (filename : string) (w : world) : Prop :=
  truthy_lock (fileLocks w !! filename) = false.

(** The records of [l] whose index lies in the half-open range
    [[lo, hi)], in order; [i] is the index of the head of [l]. *)
Fixpoint range_from (l : list json) (i lo hi : Z) : list json :=
  match l with
  | [] => []
  | x :: l' =>
      if decide (lo ≤ i < hi) then x :: range_from l' (i + 1) lo hi
      else range_from l' (i + 1) lo hi
  end.

Definition half_open_range (l : list json) (lo hi : Z) : list json :=
  range_from l 0 lo hi.

(** The record holds a number in the field it is sorted by; [key] is
    that number. *)
Definition has_number `{JsRuntime} (s : sort_options) (x : json) : Prop :=
  ∃ n, field_of x s = Some (JNum n).

Definition key `{JsRuntime} (s : sort_options) (x : json) : Z :=
  match field_of x s with
  | Some (JNum n) => n
  | _ => 0
  end.

(** The record holds a string in the field it is sorted by; [text_key]
    is that string. *)
Definition has_string `{JsRuntime} (s : sort_options) (x : json) : Prop :=
  ∃ t, field_of x s = Some (JStr t).

Definition text_key `{JsRuntime} (s : sort_options) (x : json) : string :=
  match field_of x s with
  | Some (JStr t) => t
  | _ => EmptyString
  end.

(** [>] orders the values the records of [l] hold in the sort field: of
    two of them at most one is greater than the other, and "not greater
    than" is transitive.  Numbers are ordered so, and strings; values with
    which [>] is false both ways although it holds between their
    neighbours ([undefined], a text next to numbers) are not. *)
Definition gt_orders `{JsRuntime} (s : sort_options) (l : list json) : Prop :=
  (∀ x y, x ∈ l → y ∈ l →
     js_gt (field_of x s) (field_of y s) = true →
     js_gt (field_of y s) (field_of x s) = false)
  ∧ (∀ x y z, x ∈ l → y ∈ l → z ∈ l →
       js_gt (field_of x s) (field_of y s) = false →
       js_gt (field_of y s) (field_of z s) = false →
       js_gt (field_of x s) (field_of z s) = false).

(** [x] may stand before [y] in the requested direction: for ['desc']
    the field of [y] is not greater than that of [x], otherwise the field
    of [x] is not greater than that of [y]. *)
Definition in_order `{JsRuntime} (s : sort_options) (x y : json) : Prop :=
  if decide (order s = "desc")
  then js_gt (field_of y s) (field_of x s) = false
  else js_gt (field_of x s) (field_of y s) = false.

(** The body of an error response: three fields. *)
Definition error_body (message errors : json) : json :=
  JObj [("success", JBool false); ("message", message); ("errors", errors)].

(** The process [reader] looking at the disk in state [d]. *)
Definition at_disk (d : gmap string string) (reader : world) : world :=
  mkWorld d (fileLocks reader) (clock reader) (console reader)
    (disk_trace reader) (faults reader).

(** Counting the tasks in a given state: those that hold the lock
    (between the return of [acquireLock] and the [finally] of [write]),
    and those whose write is done. *)
Definition holds_lock (t : task) : bool :=
  match t with
  | AwaitingLock _ _ _ _ _ => true
  | _ => false
  end.

Definition has_written (t : task) : bool :=
  match t with
  | AwaitingWrite _ _ | Settled _ => true
  | _ => false
  end.

Fixpoint count (P : task → bool) (l : list task) : nat :=
  match l with
  | [] => 0
  | t :: l' => (if P t then 1 else 0) + count P l'
  end.

(** The pieces a task still has to run. *)
Definition remaining (t : task) : nat :=
  match t with
  | Called _ _ => 4
  | AwaitingRead _ _ _ => 3
  | AwaitingTimer _ _ _ _ _ => 3
  | AwaitingLock _ _ _ _ _ => 2
  | AwaitingWrite _ _ => 1
  | Settled _ => 0
  end.

Fixpoint total_remaining (l : list task) : nat :=
  match l with
  | [] => 0
  | t :: l' => remaining t + total_remaining l'
  end.

(** The order in which Node (11 and later) resumes [n] calls of [insert]
    started together: every call runs up to [await read], then every call runs up
    to [await acquireLock] (the first one takes the lock, the others start
    their timer); the first call writes and settles; then the timers fire
    one after the other, and each call takes the lock, writes and
    settles before the next timer. *)
Definition node_schedule (n : nat) : list nat :=
  seq 0 n ++ seq 0 n ++ [0; 0]%nat ++ (seq 1 (n - 1) ≫= λ i, [i; i; i]).

(** What holds of [n] concurrent calls [insert(filename, items[i])] at
    every moment.  [k] is the number of calls whose write is done; a list
    is [bounded] by [k] when it has at most [k] records, all among the
    inserted ones. *)
Definition bounded (items : list json) (k : nat) (l : list json) : Prop :=
  (length l ≤ k)%nat ∧ ∀ x, x ∈ l → x ∈ items.

Definition task_ok `{JsRuntime} (filename : string) (items : list json) (k : nat)
    (item : json) (t : task) : Prop :=
  match t with
  | Called f it => f = filename ∧ it = item
  | AwaitingRead f it data =>
      f = filename ∧ it = item ∧ ∃ l, data = JArr l ∧ bounded items k l
  | AwaitingTimer f fp tp it data | AwaitingLock f fp tp it data =>
      f = filename ∧ fp = path_join DATA_DIR filename ∧ it = item
      ∧ ∃ l, data = JArr (l ++ [item]) ∧ bounded items k l
  | AwaitingWrite it outcome => it = item ∧ outcome = Return tt
  | Settled outcome => outcome = Return item
  end.

Record invariant `{JsRuntime} (filename : string) (items : list json) (s : system)
  : Prop := mkInvariant {
  inv_faults : faults (sys_world s) = no_faults;
  inv_length : length (sys_tasks s) = length items;
  (** mutual exclusion: the lock is taken exactly when one call holds it,
      and never by two *)
  inv_lock :
    count holds_lock (sys_tasks s)
    = if truthy_lock (fileLocks (sys_world s) !! filename) then 1%nat else 0%nat;
  (** the file holds what the last writer wrote *)
  inv_file :
    match files (sys_world s) !! path_join DATA_DIR filename with
    | None => count has_written (sys_tasks s) = 0%nat
    | Some text =>
        ∃ l, text = JSON_stringify (JArr l)
             ∧ bounded items (count has_written (sys_tasks s)) l
             ∧ (1 ≤ length l)%nat
    end;
  inv_tasks :
    ∀ i t, sys_tasks s !! i = Some t →
      ∃ item, items !! i = Some item
              ∧ task_ok filename items (count has_written (sys_tasks s)) item t
}.

(** From [w] to [w1] only the file [p] changed, in every state the disk
    went through; locks, faults and clock are the same. *)
Definition touches_only (p : string) (w w1 : world) : Prop :=
  (∃ states, disk_trace w1 = states ++ disk_trace w
             ∧ Forall (λ d, ∀ q, q ≠ p → d !! q = files w !! q) states)
  ∧ (∀ q, q ≠ p → files w1 !! q = files w !! q)
  ∧ fileLocks w1 = fileLocks w
  ∧ faults w1 = faults w
  ∧ clock w1 = clock w.

(** Sample data, on the reference runtime. *)
Module Sample.

Definition lesson (id : string) (score : Z) : json :=
  JObj [("id", JStr id); ("score", JNum score)].

Definition has_id (id : string) (r : json) : bool :=
  match get (Some r) "id" with
  | Return v => same_string v id
  | _ => false
  end.

(** A process whose data directory holds [l] in [filename]. *)
Definition world_with (filename : string) (l : list json) : world :=
  initial_world
    {[ path_join (DATA_DIR (JsRuntime := Reference.runtime)) filename
       := Reference.stringify (JArr l) ]}
    1700000000000%N no_faults.

Definition three : list json := [lesson "a" 3; lesson "b" 1; lesson "c" 2].

(** [n] records, numbered from 0. *)
Definition lessons (n : nat) : list json :=
  (λ i : nat, lesson (pretty i) (Z.of_nat i)) <$> seq 0 n.

Definition everything (r : json) : bool := true.

Definition by_score (direction : string) : sort_options := mkSort "score" direction.

(** Bodies the text-generation endpoint can answer with status 200: a
    completion whose message has no [content], one whose [content] is
    [null], one with a text, and the JSON text [null]. *)
Definition completion_of (message : json) : json :=
  JObj [("choices", JArr [JObj [("index", JNum 0); ("message", message)]])].

Definition without_content : string :=
  Reference.stringify (completion_of (JObj [("role", JStr "assistant")])).

Definition null_content : string :=
  Reference.stringify
    (completion_of (JObj [("role", JStr "assistant"); ("content", JNull)])).

Definition with_content (text : string) : string :=
  Reference.stringify
    (completion_of (JObj [("role", JStr "assistant"); ("content", JStr text)])).

Definition null_body : string := Reference.stringify JNull.

(** A process with an empty data directory, and [n] calls of [insert]
    started together on it, with distinct ids. *)
Definition empty_world : world := initial_world ∅ 1700000000000%N no_faults.

Definition inserts (n : nat) : system :=
  concurrent_inserts empty_world "lessons.json" (lessons n).

End Sample.

(** ** [ai.js]: the model table, the checks of [chat] and the parsing of
    the replies *)

(** [AI_MODELS]: key, id and name of every model. *)
Definition AI_MODELS : list (string * (string * string)) := [
  ("deepseek-v3", ("deepseek/deepseek-v3.2:thinking", "DeepSeek V3.2 (Recommended)"));
  ("glm-4-7", ("zai-org/glm-4.7:thinking", "GLM 4.7 Thinking"));
  ("llama-3-1-405b", ("Meta-Llama-3-1-405B-Instruct-FP8", "Llama 3.1 Large"));
  ("llama-4-maverick", ("llama-4-maverick", "Llama 4 Maverick"));
  ("llama-3-3-70b", ("llama-3.3-70b", "Llama 3.3 (70B)"));
  ("minimax-m2", ("minimax/minimax-m2.1", "MiniMax M2.1"));
  ("mistral-large", ("mistralai/mistral-large-3-675b-instruct-2512", "Mistral Large 3"));
  ("mistral-small", ("mistral-small-31", "Mistral Small 3.1 (24B)"));
  ("glm-4-5-air", ("glm-4.5-air", "GLM 4.5 Air"));
  ("gpt-oss-120b", ("gpt-oss-120b", "GPT OSS 120B"));
  ("gpt-oss-20b", ("gpt-oss-20b", "GPT OSS 20B"));
  ("mimo-v2", ("mimo-v2-flash-thinking", "Xiaomi MIMO V2 Flash Thinking"));
  ("kimi-k2", ("moonshotai/kimi-k2-thinking", "Kimi K2 Thinking"))
].

(** [getModels()]: [Object.entries(AI_MODELS).map(...)]. *)
Definition getModels : list json :=
  (λ entry : string * (string * string),
     JObj [("key", JStr entry.1); ("id", JStr entry.2.1); ("name", JStr entry.2.2)])
  <$> AI_MODELS.

(** The properties an object literal such as [AI_MODELS] inherits from
    [Object.prototype]; each holds a function (or, for [__proto__], the
    prototype itself), which is truthy and has no [id]. *)
Definition Object_prototype_names : list string := [
  "constructor"; "__defineGetter__"; "__defineSetter__"; "hasOwnProperty";
  "__lookupGetter__"; "__lookupSetter__"; "isPrototypeOf"; "propertyIsEnumerable";
  "toString"; "valueOf"; "__proto__"; "toLocaleString"
].

(** What [AI_MODELS[key]] evaluates to. *)
Inductive model_lookup : Type :=
| own_model (id name : string)
| inherited_property
| no_model.

Fixpoint table_lookup (key : string) (table : list (string * (string * string)))
  : option (string * string) :=
  match table with
  | [] => None
  | (k, entry) :: table' => if decide (key = k) then Some entry else table_lookup key table'
  end.

Definition lookup_model (key : string) : model_lookup :=
  match table_lookup key AI_MODELS with
  | Some (id, name) => own_model id name
  | None =>
      if bool_decide (key ∈ Object_prototype_names) then inherited_property else no_model
  end.

(** ToString(v) for a value that may be [undefined]: the property key
    [AI_MODELS[v]] is read under, and the text of [v] in a template. *)
Definition display (v : value) : completion string :=
  match v with
  | Some x => to_String x
  | None => Return "undefined"
  end.

(** [options.temperature || 0.7]: the number 0.7 is kept as a token. *)
Inductive temperature : Type :=
| default_temperature
| given_temperature (t : json).

(** [process.env]: a variable is a string or is not set. *)
Record environment : Type := mkEnv {
  NANO_API_KEY : option string;
  NANO_API_URL : option string
}.

(** What [chat] hands to [https.request]: the address, the
    [Authorization] header and the fields of the JSON body. *)
Record chat_request : Type := mkRequest {
  request_url : string;
  request_authorization : string;
  request_model : value;
  request_messages : json;
  request_temperature : temperature;
  request_max_tokens : json
}.

Definition nonempty (s : option string) : bool :=
  match s with
  | Some (String _ _) => true
  | _ => false
  end.

(** [chat(modelKey, messages, options = {})] up to [new Promise]: a
    [Throw] rejects the promise before any request exists. *)
Definition chat_prepare (env : environment) (modelKey : value) (messages : json)
    (options : value) : completion chat_request :=
  let options := match options with None => Some (JObj []) | Some _ => options end in
  key <~ display modelKey ;;
  let model := lookup_model key in
  match model with
  | no_model => Throw (new_Error ("Invalid model key: " +:+ key))
  | _ =>
      let apiKey := NANO_API_KEY env in
      let apiUrl :=
        if nonempty (NANO_API_URL env) then default EmptyString (NANO_API_URL env)
        else "https://nano-gpt.com/api/v1/chat/completions" in
      if negb (nonempty apiKey)
      then Throw (new_Error "NANO_API_KEY environment variable is not set")
      else
        t <~ get options "temperature" ;;
        m <~ get options "max_tokens" ;;
        Return (mkRequest apiUrl ("Bearer " +:+ default EmptyString apiKey)
                  (match model with own_model id _ => Some (JStr id) | _ => undefined end)
                  messages
                  (match t with
                   | Some x => if truthy t then given_temperature x else default_temperature
                   | None => default_temperature
                   end)
                  (or_else m (JNum 4096)))
  end.

(** [text.match(/\[[\s\S]*\]/)] and [text.match(/\{[\s\S]*\}/)]: the
    match starts at the first opening character and, the star being
    greedy, ends at the last closing character after it. *)
Fixpoint from_first (c : ascii) (s : list ascii) : option (list ascii) :=
  match s with
  | [] => None
  | x :: s' => if decide (x = c) then Some s' else from_first c s'
  end.

Fixpoint up_to_last (c : ascii) (s : list ascii) : option (list ascii) :=
  match s with
  | [] => None
  | x :: s' =>
      match up_to_last c s' with
      | Some m => Some (x :: m)
      | None => if decide (x = c) then Some [x] else None
      end
  end.

Definition bracket_match (open close : ascii) (text : string) : option string :=
  match from_first open (String.list_ascii_of_string text) with
  | Some rest =>
      match up_to_last close rest with
      | Some m => Some (String.string_of_list_ascii (open :: m))
      | None => None
      end
  | None => None
  end.

Section Replies.
Context `{JsRuntime}.

(** The [try]/[catch] at the end of [generateQuiz] and of its siblings:
    [response] is what [chat] resolved with, [failure] the message of the
    helper. *)
Definition parse_reply (open close : ascii) (failure : string) (response : value)
  : completion json :=
  let attempt : completion json :=
    match response with
    | Some (JStr text) =>
        let source :=
          match bracket_match open close text with
          | Some jsonMatch => jsonMatch
          | None => text
          end in
        match JSON_parse source with
        | Some v => Return v
        | None => Throw (SyntaxError "Unexpected token in JSON")
        end
    | Some JNull => Throw (TypeError "Cannot read properties of null (reading 'match')")
    | None => Throw (TypeError "Cannot read properties of undefined (reading 'match')")
    | Some _ => Throw (TypeError "response.match is not a function")
    end in
  match attempt with
  | Return v => Return v
  | _ => Throw (new_Error failure)
  end.

(** A helper after [await chat(...)]: a rejection of [chat] passes
    through, a resolution is parsed, and as long as [chat] has not
    settled the helper waits. *)
Definition after_chat (open close : ascii) (failure : string) (reply : settlement)
  : completion json :=
  match reply with
  | Rejected e => Throw e
  | Resolved response => parse_reply open close failure response
  | Unsettled => Pending
  end.

Definition generateQuiz_reply : settlement → completion json :=
  after_chat "["%char "]"%char "Failed to parse quiz questions from AI response".

Definition generateTestSection_reply : settlement → completion json :=
  after_chat "{"%char "}"%char "Failed to parse test section from AI response".

Definition generateStudyPlan_reply : settlement → completion json :=
  after_chat "{"%char "}"%char "Failed to parse study plan from AI response".

Definition gradeEssay_reply : settlement → completion json :=
  after_chat "{"%char "}"%char "Failed to parse essay grading from AI response".

Definition generateFlashcards_reply : settlement → completion json :=
  after_chat "["%char "]"%char "Failed to parse flashcards from AI response".

Definition generateEssayPrompt_reply : settlement → completion json :=
  after_chat "{"%char "}"%char "Failed to parse essay prompt from AI response".

End Replies.

(** ** Vocabulary of the further statements *)

(** From [w] to [w'] the path [q] kept its content, in every state the
    disk went through, and the lock of the collection [other] was not
    touched. *)
Definition leaves_alone (q other : string) (w w' : world) : Prop :=
  files w' !! q = files w !! q
  ∧ (∃ states, disk_trace w' = states ++ disk_trace w
               ∧ Forall (λ d, d !! q = files w !! q) states)
  ∧ fileLocks w' !! other = fileLocks w !! other.

(** The records [paginate] answers for a page, and those of the pages 1
    to [n] one after the other. *)
Definition page_items `{JsRuntime} (filename : string) (predicate : json → bool)
    (limit : Z) (sort : option sort_options) (w : world) (page : Z) : list json :=
  match (paginate filename predicate page limit sort w).1 with
  | Return result => items result
  | _ => []
  end.

Definition first_pages `{JsRuntime} (filename : string) (predicate : json → bool)
    (limit : Z) (sort : option sort_options) (w : world) (n : nat) : list json :=
  concat (page_items filename predicate limit sort w <$> (Z.of_nat <$> seq 1 n)).

(** The world after [await insert(filename, item)] for each item in
    turn, every call awaited before the next one starts. *)
Definition inserted_in_turn `{JsRuntime} (filename : string) (items : list json)
    (w : world) : world :=
  foldl (λ w' item, (insert filename item w').2) w items.

(** ** The bodies the handlers send

    Every [res.json(...)] of the server is called on an object literal.
    [responses] lists the literals, file by file: the file and the line
    of the call, the status passed to [res.status] before it (200 when
    there is none), and the literal.  A literal is translated as it is written:
    a nested object literal, an array of strings, a string, a number or a
    boolean is the JSON value it denotes; any other expression [x] is the
    value [value_of e "x"] it has in the scope [e] of the handler at that
    point, and a template literal is the text [text_of e] gives it.  Two
    variables are replaced by the literal they are bound to: [result] in
    [data: result], which is what [storage.paginate] returned
    ([storage.js], lines 166 to 172), and [exportData] ([part_006], line
    326).  One call of the 182 is left out of the list, that of
    [errorHandler], whose [{ success: false, message, errors }] holds two
    variables: it is the function [errorHandler] above.  One body is added
    to it, the [message] option of the rate limiter in [server.js], which
    the limiter sends with its status 429. *)

Record scope : Type := mkScope {
  value_of : string → value;
  text_of : string → string
}.

(** An object literal as [res.json] sends it: [JSON.stringify] leaves out
    a property whose value is [undefined]. *)
Definition object (properties : list (string * value)) : json :=
  JObj (omap (λ property : string * value, pair property.1 <$> property.2) properties).

Record sent : Type := mkSent {
  sent_file : string;
  sent_line : nat;
  sent_status : Z;
  sent_body : scope → json
}.

Definition sent_in_server_js : list sent := [
  mkSent "server/server.js" 71 429 (λ e, object [
    ("success", Some (JBool false));
    ("message", Some (JStr "Too many requests, please try again later."));
    ("errors", Some (JArr []))]);
  mkSent "server/server.js" 112 200 (λ e, object [
    ("success", Some (JBool true));
    ("data", Some (object [
      ("status", Some (JStr "healthy"));
      ("timestamp", value_of e "new Date().toISOString()")]));
    ("message", Some (JStr "Server is running"));
    ("errors", Some (JArr []))]);
  mkSent "server/server.js" 201 404 (λ e, object [
    ("success", Some (JBool false));
    ("message", Some (JStr "Not found"));
    ("errors", Some (JArr []))])
].

Definition sent_in_storage_js : list sent := [
  mkSent "server/services/storage.js" 192 401 (λ e, object [
    ("success", Some (JBool false));
    ("message", Some (JStr "Authentication required"));
    ("errors", Some (JArr [JStr "Please log in to access this resource"]))])
].

Definition sent_in_errorHandler_js : list sent := [
  mkSent "server/middleware/errorHandler.js" 58 404 (λ e, object [
    ("success", Some (JBool false));
    ("message", Some (JStr "User not found"));
    ("errors", Some (JArr []))]);
  mkSent "server/middleware/errorHandler.js" 65 200 (λ e, object [
    ("success", Some (JBool true));
    ("data", Some (object [("settings", value_of e "user.settings || {}")]));
    ("message", Some (JStr "Settings retrieved"));
    ("errors", Some (JArr []))]);
  mkSent "server/middleware/errorHandler.js" 100 404 (λ e, object [
    ("success", Some (JBool false));
    ("message", Some (JStr "User not found"));
    ("errors", Some (JArr []))]);
  mkSent "server/middleware/errorHandler.js" 127 200 (λ e, object [
    ("success", Some (JBool true));
    ("data", Some (object [("settings", value_of e "settings")]));
    ("message", Some (JStr "Settings updated"));
    ("errors", Some (JArr []))]);
  mkSent "server/middleware/errorHandler.js" 160 200 (λ e, object [
    ("success", Some (JBool true));
    ("data", Some (object [("timezones", value_of e "timezones")]));
    ("message", Some (JStr "Timezones retrieved"));
    ("errors", Some (JArr []))]);
  mkSent "server/middleware/errorHandler.js" 180 404 (λ e, object [
    ("success", Some (JBool false));
    ("message", Some (JStr "User not found"));
    ("errors", Some (JArr []))]);
  mkSent "server/middleware/errorHandler.js" 190 400 (λ e, object [
    ("success", Some (JBool false));
    ("message", Some (JStr "Invalid password"));
    ("errors", Some (JArr [JStr "Password is incorrect"]))]);
  mkSent "server/middleware/errorHandler.js" 242 200 (λ e, object [
    ("success", Some (JBool true));
    ("data", Some (object []));
    ("message", Some (JStr "Account deleted successfully"));
    ("errors", Some (JArr []))])
].

Definition sent_in_chat_js : list sent := [
  mkSent "server/routes/chat.js" 35 200 (λ e, object [
    ("success", Some (JBool true));
    ("data", Some (object [("conversations", value_of e "sorted")]));
    ("message", Some (JStr "Conversations retrieved"));
    ("errors", Some (JArr []))]);
  mkSent "server/routes/chat.js" 57 404 (λ e, object [
    ("success", Some (JBool false));
    ("message", Some (JStr "Conversation not found"));
    ("errors", Some (JArr []))]);
  mkSent "server/routes/chat.js" 64 200 (λ e, object [
    ("success", Some (JBool true));
    ("data", Some (object [("conversation", value_of e "conversation")]));
    ("message", Some (JStr "Conversation retrieved"));
    ("errors", Some (JArr []))]);
  mkSent "server/routes/chat.js" 96 201 (λ e, object [
    ("success", Some (JBool true));
    ("data", Some (object [("conversation", value_of e "conversation")]));
    ("message", Some (JStr "Conversation created"));
    ("errors", Some (JArr []))]);
  mkSent "server/routes/chat.js" 116 400 (λ e, object [
    ("success", Some (JBool false));
    ("message", Some (JStr "Message content is required"));
    ("errors", Some (JArr []))]);
  mkSent "server/routes/chat.js" 128 404 (λ e, object [
    ("success", Some (JBool false));
    ("message", Some (JStr "Conversation not found"));
    ("errors", Some (JArr []))]);
  mkSent "server/routes/chat.js" 179 200 (λ e, object [
    ("success", Some (JBool true));
    ("data", Some (object [
      ("userMessage", value_of e "userMessage");
      ("aiMessage", value_of e "aiMessage");
      ("conversation", Some (object [
        ("id", value_of e "conversation.id");
        ("title", value_of e "conversation.title");
        ("messageCount", value_of e "conversation.messages.length")]))]));
    ("message", Some (JStr "Message sent"));
    ("errors", Some (JArr []))]);
  mkSent "server/routes/chat.js" 211 404 (λ e, object [
    ("success", Some (JBool false));
    ("message", Some (JStr "Conversation not found"));
    ("errors", Some (JArr []))]);
  mkSent "server/routes/chat.js" 219 400 (λ e, object [
    ("success", Some (JBool false));
    ("message", Some (JStr "No messages to regenerate"));
    ("errors", Some (JArr []))]);
  mkSent "server/routes/chat.js" 253 200 (λ e, object [
    ("success", Some (JBool true));
    ("data", Some (object [("aiMessage", value_of e "aiMessage")]));
    ("message", Some (JStr "Response regenerated"));
    ("errors", Some (JArr []))]);
  mkSent "server/routes/chat.js" 283 404 (λ e, object [
    ("success", Some (JBool false));
    ("message", Some (JStr "Conversation not found"));
    ("errors", Some (JArr []))]);
  mkSent "server/routes/chat.js" 290 200 (λ e, object [
    ("success", Some (JBool true));
    ("data", Some (object [("conversation", value_of e "conversation")]));
    ("message", Some (JStr "Conversation updated"));
    ("errors", Some (JArr []))]);
  mkSent "server/routes/chat.js" 312 404 (λ e, object [
    ("success", Some (JBool false));
    ("message", Some (JStr "Conversation not found"));
    ("errors", Some (JArr []))]);
  mkSent "server/routes/chat.js" 321 404 (λ e, object [
    ("success", Some (JBool false));
    ("message", Some (JStr "Message not found"));
    ("errors", Some (JArr []))]);
  mkSent "server/routes/chat.js" 333 200 (λ e, object [
    ("success", Some (JBool true));
    ("data", Some (object []));
    ("message", Some (JStr "Message deleted"));
    ("errors", Some (JArr []))]);
  mkSent "server/routes/chat.js" 355 404 (λ e, object [
    ("success", Some (JBool false));
    ("message", Some (JStr "Conversation not found"));
    ("errors", Some (JArr []))]);
  mkSent "server/routes/chat.js" 362 200 (λ e, object [
    ("success", Some (JBool true));
    ("data", Some (object []));
    ("message", Some (JStr "Conversation deleted"));
    ("errors", Some (JArr []))]);
  mkSent "server/routes/chat.js" 385 404 (λ e, object [
    ("success", Some (JBool false));
    ("message", Some (JStr "Conversation not found"));
    ("errors", Some (JArr []))]);
  mkSent "server/routes/chat.js" 392 200 (λ e, object [
    ("success", Some (JBool true));
    ("data", Some (object [("conversation", value_of e "conversation")]));
    ("message", Some (JStr "Conversation cleared"));
    ("errors", Some (JArr []))]);
  mkSent "server/routes/chat.js" 425 200 (λ e, object [
    ("success", Some (JBool true));
    ("data", Some (object [("prompts", value_of e "prompts")]));
    ("message", Some (JStr "Prompts retrieved"));
    ("errors", Some (JArr []))])
].

Definition sent_in_quizzes_js : list sent := [
  mkSent "server/routes/quizzes.js" 35 200 (λ e, object [
    ("success", Some (JBool true));
    ("data", Some (object [
      ("items", value_of e "items");
      ("page", value_of e "page");
      ("limit", value_of e "limit");
      ("total", value_of e "total");
      ("totalPages", value_of e "totalPages")]));
    ("message", Some (JStr "Quizzes retrieved"));
    ("errors", Some (JArr []))]);
  mkSent "server/routes/quizzes.js" 57 404 (λ e, object [
    ("success", Some (JBool false));
    ("message", Some (JStr "Quiz not found"));
    ("errors", Some (JArr []))]);
  mkSent "server/routes/quizzes.js" 64 200 (λ e, object [
    ("success", Some (JBool true));
    ("data", Some (object [("quiz", value_of e "quiz")]));
    ("message", Some (JStr "Quiz retrieved"));
    ("errors", Some (JArr []))]);
  mkSent "server/routes/quizzes.js" 85 400 (λ e, object [
    ("success", Some (JBool false));
    ("message", Some (JStr "Validation error"));
    ("errors", Some (JArr [JStr "Subject is required"]))]);
  mkSent "server/routes/quizzes.js" 134 201 (λ e, object [
    ("success", Some (JBool true));
    ("data", Some (object [("quiz", value_of e "quiz")]));
    ("message", Some (JStr "Quiz generated successfully"));
    ("errors", Some (JArr []))]);
  mkSent "server/routes/quizzes.js" 156 404 (λ e, object [
    ("success", Some (JBool false));
    ("message", Some (JStr "Quiz not found"));
    ("errors", Some (JArr []))]);
  mkSent "server/routes/quizzes.js" 164 400 (λ e, object [
    ("success", Some (JBool false));
    ("message", Some (JStr "Quiz already completed"));
    ("errors", Some (JArr [JStr "This quiz has already been completed"]))]);
  mkSent "server/routes/quizzes.js" 182 200 (λ e, object [
    ("success", Some (JBool true));
    ("data", Some (object [("quiz", value_of e "updatedQuiz")]));
    ("message", Some (JStr "Quiz started"));
    ("errors", Some (JArr []))]);
  mkSent "server/routes/quizzes.js" 206 404 (λ e, object [
    ("success", Some (JBool false));
    ("message", Some (JStr "Quiz not found"));
    ("errors", Some (JArr []))]);
  mkSent "server/routes/quizzes.js" 214 400 (λ e, object [
    ("success", Some (JBool false));
    ("message", Some (JStr "Quiz already completed"));
    ("errors", Some (JArr [JStr "Cannot update answers for a completed quiz"]))]);
  mkSent "server/routes/quizzes.js" 239 200 (λ e, object [
    ("success", Some (JBool true));
    ("data", Some (object [("quiz", value_of e "updatedQuiz")]));
    ("message", Some (JStr "Answers saved"));
    ("errors", Some (JArr []))]);
  mkSent "server/routes/quizzes.js" 263 404 (λ e, object [
    ("success", Some (JBool false));
    ("message", Some (JStr "Quiz not found"));
    ("errors", Some (JArr []))]);
  mkSent "server/routes/quizzes.js" 271 400 (λ e, object [
    ("success", Some (JBool false));
    ("message", Some (JStr "Quiz already completed"));
    ("errors", Some (JArr []))]);
  mkSent "server/routes/quizzes.js" 383 200 (λ e, object [
    ("success", Some (JBool true));
    ("data", Some (object [
      ("quiz", value_of e "updatedQuiz");
      ("score", value_of e "score")]));
    ("message", Some (JStr "Quiz submitted successfully"));
    ("errors", Some (JArr []))]);
  mkSent "server/routes/quizzes.js" 405 404 (λ e, object [
    ("success", Some (JBool false));
    ("message", Some (JStr "Quiz not found"));
    ("errors", Some (JArr []))]);
  mkSent "server/routes/quizzes.js" 413 400 (λ e, object [
    ("success", Some (JBool false));
    ("message", Some (JStr "Quiz not completed"));
    ("errors", Some (JArr [JStr "Complete the quiz to see results"]))]);
  mkSent "server/routes/quizzes.js" 420 200 (λ e, object [
    ("success", Some (JBool true));
    ("data", Some (object [
      ("quiz", value_of e "quiz");
      ("score", value_of e "quiz.score");
      ("questions", value_of e "quiz.questions")]));
    ("message", Some (JStr "Results retrieved"));
    ("errors", Some (JArr []))]);
  mkSent "server/routes/quizzes.js" 446 404 (λ e, object [
    ("success", Some (JBool false));
    ("message", Some (JStr "Quiz not found"));
    ("errors", Some (JArr []))]);
  mkSent "server/routes/quizzes.js" 475 201 (λ e, object [
    ("success", Some (JBool true));
    ("data", Some (object [("quiz", value_of e "newQuiz")]));
    ("message", Some (JStr "Quiz retry created"));
    ("errors", Some (JArr []))]);
  mkSent "server/routes/quizzes.js" 497 404 (λ e, object [
    ("success", Some (JBool false));
    ("message", Some (JStr "Quiz not found"));
    ("errors", Some (JArr []))]);
  mkSent "server/routes/quizzes.js" 504 200 (λ e, object [
    ("success", Some (JBool true));
    ("data", Some (object []));
    ("message", Some (JStr "Quiz deleted"));
    ("errors", Some (JArr []))])
].

Definition sent_in_part_000 : list sent := [
  mkSent "unnamed/part_000" 39 200 (λ e, object [
    ("success", Some (JBool true));
    ("data", Some (object [
      ("items", value_of e "items");
      ("page", value_of e "page");
      ("limit", value_of e "limit");
      ("total", value_of e "total");
      ("totalPages", value_of e "totalPages")]));
    ("message", Some (JStr "Tests retrieved"));
    ("errors", Some (JArr []))]);
  mkSent "unnamed/part_000" 55 200 (λ e, object [
    ("success", Some (JBool true));
    ("data", Some (object [("sections", value_of e "SECTION_CONFIG")]));
    ("message", Some (JStr "Sections retrieved"));
    ("errors", Some (JArr []))]);
  mkSent "unnamed/part_000" 74 404 (λ e, object [
    ("success", Some (JBool false));
    ("message", Some (JStr "Test not found"));
    ("errors", Some (JArr []))]);
  mkSent "unnamed/part_000" 81 200 (λ e, object [
    ("success", Some (JBool true));
    ("data", Some (object [("test", value_of e "test")]));
    ("message", Some (JStr "Test retrieved"));
    ("errors", Some (JArr []))]);
  mkSent "unnamed/part_000" 109 400 (λ e, object [
    ("success", Some (JBool false));
    ("message", Some (JStr "Validation error"));
    ("errors", Some (JArr [JStr "At least one section is required"]))]);
  mkSent "unnamed/part_000" 160 201 (λ e, object [
    ("success", Some (JBool true));
    ("data", Some (object [("test", value_of e "test")]));
    ("message", Some (JStr "Practice test generated successfully"));
    ("errors", Some (JArr []))]);
  mkSent "unnamed/part_000" 182 404 (λ e, object [
    ("success", Some (JBool false));
    ("message", Some (JStr "Test not found"));
    ("errors", Some (JArr []))]);
  mkSent "unnamed/part_000" 190 400 (λ e, object [
    ("success", Some (JBool false));
    ("message", Some (JStr "Test already completed"));
    ("errors", Some (JArr []))]);
  mkSent "unnamed/part_000" 215 200 (λ e, object [
    ("success", Some (JBool true));
    ("data", Some (object [("test", value_of e "test")]));
    ("message", Some (JStr "Test started"));
    ("errors", Some (JArr []))]);
  mkSent "unnamed/part_000" 240 404 (λ e, object [
    ("success", Some (JBool false));
    ("message", Some (JStr "Test not found"));
    ("errors", Some (JArr []))]);
  mkSent "unnamed/part_000" 248 400 (λ e, object [
    ("success", Some (JBool false));
    ("message", Some (JStr "Invalid section"));
    ("errors", Some (JArr []))]);
  mkSent "unnamed/part_000" 260 200 (λ e, object [
    ("success", Some (JBool true));
    ("data", Some (object [("section", value_of e "test.sections[section]")]));
    ("message", Some (JStr "Answers saved"));
    ("errors", Some (JArr []))]);
  mkSent "unnamed/part_000" 285 404 (λ e, object [
    ("success", Some (JBool false));
    ("message", Some (JStr "Test not found"));
    ("errors", Some (JArr []))]);
  mkSent "unnamed/part_000" 293 400 (λ e, object [
    ("success", Some (JBool false));
    ("message", Some (JStr "Invalid section"));
    ("errors", Some (JArr []))]);
  mkSent "unnamed/part_000" 344 200 (λ e, object [
    ("success", Some (JBool true));
    ("data", Some (object [
      ("test", value_of e "test");
      ("sectionScore", value_of e "test.sections[section].score");
      ("nextSection", value_of e "test.currentSection !== section ? test.currentSection : null")]));
    ("message", Some (JStr "Section completed"));
    ("errors", Some (JArr []))]);
  mkSent "unnamed/part_000" 370 404 (λ e, object [
    ("success", Some (JBool false));
    ("message", Some (JStr "Test not found"));
    ("errors", Some (JArr []))]);
  mkSent "unnamed/part_000" 448 200 (λ e, object [
    ("success", Some (JBool true));
    ("data", Some (object [
      ("test", value_of e "test");
      ("compositeScore", value_of e "compositeScore");
      ("sectionScores", value_of e "sectionScores");
      ("percentile", value_of e "percentile")]));
    ("message", Some (JStr "Test submitted successfully"));
    ("errors", Some (JArr []))]);
  mkSent "unnamed/part_000" 475 404 (λ e, object [
    ("success", Some (JBool false));
    ("message", Some (JStr "Test not found"));
    ("errors", Some (JArr []))]);
  mkSent "unnamed/part_000" 483 400 (λ e, object [
    ("success", Some (JBool false));
    ("message", Some (JStr "Test not completed"));
    ("errors", Some (JArr [JStr "Complete the test to see results"]))]);
  mkSent "unnamed/part_000" 490 200 (λ e, object [
    ("success", Some (JBool true));
    ("data", Some (object [
      ("test", value_of e "test");
      ("compositeScore", value_of e "test.compositeScore");
      ("sectionScores", value_of e "test.scores");
      ("percentile", value_of e "test.percentile")]));
    ("message", Some (JStr "Results retrieved"));
    ("errors", Some (JArr []))]);
  mkSent "unnamed/part_000" 517 404 (λ e, object [
    ("success", Some (JBool false));
    ("message", Some (JStr "Test not found"));
    ("errors", Some (JArr []))]);
  mkSent "unnamed/part_000" 524 200 (λ e, object [
    ("success", Some (JBool true));
    ("data", Some (object []));
    ("message", Some (JStr "Test deleted"));
    ("errors", Some (JArr []))])
].

Definition sent_in_part_001 : list sent := [
  mkSent "unnamed/part_001" 25 200 (λ e, object [
    ("success", Some (JBool true));
    ("data", Some (object [("plans", value_of e "plans")]));
    ("message", Some (JStr "Study plans retrieved"));
    ("errors", Some (JArr []))]);
  mkSent "unnamed/part_001" 47 404 (λ e, object [
    ("success", Some (JBool false));
    ("message", Some (JStr "Study plan not found"));
    ("errors", Some (JArr []))]);
  mkSent "unnamed/part_001" 54 200 (λ e, object [
    ("success", Some (JBool true));
    ("data", Some (object [("plan", value_of e "plan")]));
    ("message", Some (JStr "Study plan retrieved"));
    ("errors", Some (JArr []))]);
  mkSent "unnamed/part_001" 87 400 (λ e, object [
    ("success", Some (JBool false));
    ("message", Some (JStr "Validation error"));
    ("errors", Some (JArr [JStr "Target score and test date are required"]))]);
  mkSent "unnamed/part_001" 133 201 (λ e, object [
    ("success", Some (JBool true));
    ("data", Some (object [("plan", value_of e "plan")]));
    ("message", Some (JStr "Study plan generated successfully"));
    ("errors", Some (JArr []))]);
  mkSent "unnamed/part_001" 157 404 (λ e, object [
    ("success", Some (JBool false));
    ("message", Some (JStr "Study plan not found"));
    ("errors", Some (JArr []))]);
  mkSent "unnamed/part_001" 181 200 (λ e, object [
    ("success", Some (JBool true));
    ("data", Some (object [("completedTasks", value_of e "plan.completedTasks")]));
    ("message", Some (JStr "Task completed"));
    ("errors", Some (JArr []))]);
  mkSent "unnamed/part_001" 205 404 (λ e, object [
    ("success", Some (JBool false));
    ("message", Some (JStr "Study plan not found"));
    ("errors", Some (JArr []))]);
  mkSent "unnamed/part_001" 228 201 (λ e, object [
    ("success", Some (JBool true));
    ("data", Some (object [("task", value_of e "task")]));
    ("message", Some (JStr "Task added"));
    ("errors", Some (JArr []))]);
  mkSent "unnamed/part_001" 252 404 (λ e, object [
    ("success", Some (JBool false));
    ("message", Some (JStr "Study plan not found"));
    ("errors", Some (JArr []))]);
  mkSent "unnamed/part_001" 261 404 (λ e, object [
    ("success", Some (JBool false));
    ("message", Some (JStr "Task not found"));
    ("errors", Some (JArr []))]);
  mkSent "unnamed/part_001" 279 200 (λ e, object [
    ("success", Some (JBool true));
    ("data", Some (object [("task", value_of e "plan.customTasks[taskIndex]")]));
    ("message", Some (JStr "Task updated"));
    ("errors", Some (JArr []))]);
  mkSent "unnamed/part_001" 301 404 (λ e, object [
    ("success", Some (JBool false));
    ("message", Some (JStr "Study plan not found"));
    ("errors", Some (JArr []))]);
  mkSent "unnamed/part_001" 313 200 (λ e, object [
    ("success", Some (JBool true));
    ("data", Some (object []));
    ("message", Some (JStr "Task deleted"));
    ("errors", Some (JArr []))]);
  mkSent "unnamed/part_001" 342 404 (λ e, object [
    ("success", Some (JBool false));
    ("message", Some (JStr "Study plan not found"));
    ("errors", Some (JArr []))]);
  mkSent "unnamed/part_001" 349 200 (λ e, object [
    ("success", Some (JBool true));
    ("data", Some (object [("plan", value_of e "plan")]));
    ("message", Some (JStr "Study plan updated"));
    ("errors", Some (JArr []))]);
  mkSent "unnamed/part_001" 371 404 (λ e, object [
    ("success", Some (JBool false));
    ("message", Some (JStr "Study plan not found"));
    ("errors", Some (JArr []))]);
  mkSent "unnamed/part_001" 378 200 (λ e, object [
    ("success", Some (JBool true));
    ("data", Some (object []));
    ("message", Some (JStr "Study plan deleted"));
    ("errors", Some (JArr []))]);
  mkSent "unnamed/part_001" 400 200 (λ e, object [
    ("success", Some (JBool true));
    ("data", Some (object [("tasks", Some (JArr [])); ("hasPlan", Some (JBool false))]));
    ("message", Some (JStr "No active study plan"));
    ("errors", Some (JArr []))]);
  mkSent "unnamed/part_001" 435 200 (λ e, object [
    ("success", Some (JBool true));
    ("data", Some (object [
      ("tasks", value_of e "[...todaysTasks, ...customTasksToday]");
      ("hasPlan", Some (JBool true));
      ("planId", value_of e "activePlan.id");
      ("currentWeek", value_of e "currentWeek");
      ("dayName", value_of e "dayName")]));
    ("message", Some (JStr "Today's tasks retrieved"));
    ("errors", Some (JArr []))])
].

Definition sent_in_part_002 : list sent := [
  mkSent "unnamed/part_002" 53 400 (λ e, object [
    ("success", Some (JBool false));
    ("message", Some (JStr "Validation error"));
    ("errors", Some (JArr [JStr "Username, email, and password are required"]))]);
  mkSent "unnamed/part_002" 61 400 (λ e, object [
    ("success", Some (JBool false));
    ("message", Some (JStr "Validation error"));
    ("errors", Some (JArr [JStr "Password must be at least 8 characters long"]))]);
  mkSent "unnamed/part_002" 74 400 (λ e, object [
    ("success", Some (JBool false));
    ("message", Some (JStr "User already exists"));
    ("errors", Some (JArr [JStr "A user with this email or username already exists"]))]);
  mkSent "unnamed/part_002" 141 201 (λ e, object [
    ("success", Some (JBool true));
    ("data", Some (object [("user", value_of e "userWithoutPassword")]));
    ("message", Some (JStr "Registration successful"));
    ("errors", Some (JArr []))]);
  mkSent "unnamed/part_002" 162 400 (λ e, object [
    ("success", Some (JBool false));
    ("message", Some (JStr "Validation error"));
    ("errors", Some (JArr [JStr "Email and password are required"]))]);
  mkSent "unnamed/part_002" 175 401 (λ e, object [
    ("success", Some (JBool false));
    ("message", Some (JStr "Invalid credentials"));
    ("errors", Some (JArr [JStr "Invalid email or password"]))]);
  mkSent "unnamed/part_002" 186 401 (λ e, object [
    ("success", Some (JBool false));
    ("message", Some (JStr "Invalid credentials"));
    ("errors", Some (JArr [JStr "Invalid email or password"]))]);
  mkSent "unnamed/part_002" 219 200 (λ e, object [
    ("success", Some (JBool true));
    ("data", Some (object [("user", value_of e "userWithoutPassword")]));
    ("message", Some (JStr "Login successful"));
    ("errors", Some (JArr []))]);
  mkSent "unnamed/part_002" 237 500 (λ e, object [
    ("success", Some (JBool false));
    ("message", Some (JStr "Logout failed"));
    ("errors", Some (JArr [JStr "Failed to destroy session"]))]);
  mkSent "unnamed/part_002" 245 200 (λ e, object [
    ("success", Some (JBool true));
    ("data", Some (object []));
    ("message", Some (JStr "Logout successful"));
    ("errors", Some (JArr []))]);
  mkSent "unnamed/part_002" 261 401 (λ e, object [
    ("success", Some (JBool false));
    ("message", Some (JStr "Not authenticated"));
    ("errors", Some (JArr [JStr "Please log in"]))]);
  mkSent "unnamed/part_002" 271 401 (λ e, object [
    ("success", Some (JBool false));
    ("message", Some (JStr "User not found"));
    ("errors", Some (JArr [JStr "User session is invalid"]))]);
  mkSent "unnamed/part_002" 280 200 (λ e, object [
    ("success", Some (JBool true));
    ("data", Some (object [("user", value_of e "userWithoutPassword")]));
    ("message", Some (JStr "User retrieved"));
    ("errors", Some (JArr []))]);
  mkSent "unnamed/part_002" 298 401 (λ e, object [
    ("success", Some (JBool false));
    ("message", Some (JStr "Not authenticated"));
    ("errors", Some (JArr [JStr "Please log in"]))]);
  mkSent "unnamed/part_002" 316 400 (λ e, object [
    ("success", Some (JBool false));
    ("message", Some (JStr "Email already in use"));
    ("errors", Some (JArr [JStr "This email is already associated with another account"]))]);
  mkSent "unnamed/part_002" 328 404 (λ e, object [
    ("success", Some (JBool false));
    ("message", Some (JStr "User not found"));
    ("errors", Some (JArr []))]);
  mkSent "unnamed/part_002" 337 200 (λ e, object [
    ("success", Some (JBool true));
    ("data", Some (object [("user", value_of e "userWithoutPassword")]));
    ("message", Some (JStr "Profile updated"));
    ("errors", Some (JArr []))]);
  mkSent "unnamed/part_002" 355 401 (λ e, object [
    ("success", Some (JBool false));
    ("message", Some (JStr "Not authenticated"));
    ("errors", Some (JArr [JStr "Please log in"]))]);
  mkSent "unnamed/part_002" 363 400 (λ e, object [
    ("success", Some (JBool false));
    ("message", Some (JStr "No file uploaded"));
    ("errors", Some (JArr [JStr "Please select an image file"]))]);
  mkSent "unnamed/part_002" 388 200 (λ e, object [
    ("success", Some (JBool true));
    ("data", Some (object [
      ("user", value_of e "userWithoutPassword");
      ("avatarUrl", value_of e "avatarUrl")]));
    ("message", Some (JStr "Avatar uploaded"));
    ("errors", Some (JArr []))]);
  mkSent "unnamed/part_002" 406 401 (λ e, object [
    ("success", Some (JBool false));
    ("message", Some (JStr "Not authenticated"));
    ("errors", Some (JArr [JStr "Please log in"]))]);
  mkSent "unnamed/part_002" 416 400 (λ e, object [
    ("success", Some (JBool false));
    ("message", Some (JStr "Validation error"));
    ("errors", Some (JArr [JStr "Current password and new password are required"]))]);
  mkSent "unnamed/part_002" 424 400 (λ e, object [
    ("success", Some (JBool false));
    ("message", Some (JStr "Validation error"));
    ("errors", Some (JArr [JStr "New password must be at least 8 characters long"]))]);
  mkSent "unnamed/part_002" 434 404 (λ e, object [
    ("success", Some (JBool false));
    ("message", Some (JStr "User not found"));
    ("errors", Some (JArr []))]);
  mkSent "unnamed/part_002" 444 400 (λ e, object [
    ("success", Some (JBool false));
    ("message", Some (JStr "Invalid password"));
    ("errors", Some (JArr [JStr "Current password is incorrect"]))]);
  mkSent "unnamed/part_002" 458 200 (λ e, object [
    ("success", Some (JBool true));
    ("data", Some (object []));
    ("message", Some (JStr "Password changed successfully"));
    ("errors", Some (JArr []))])
].

Definition sent_in_part_003 : list sent := [
  mkSent "unnamed/part_003" 98 200 (λ e, object [
    ("success", Some (JBool true));
    ("data", Some (object [
      ("items", value_of e "items");
      ("page", value_of e "page");
      ("limit", value_of e "limit");
      ("total", value_of e "total");
      ("totalPages", value_of e "totalPages")]));
    ("message", Some (JStr "Lessons retrieved"));
    ("errors", Some (JArr []))]);
  mkSent "unnamed/part_003" 114 200 (λ e, object [
    ("success", Some (JBool true));
    ("data", Some (object [("topics", value_of e "ACT_TOPICS")]));
    ("message", Some (JStr "Topics retrieved"));
    ("errors", Some (JArr []))]);
  mkSent "unnamed/part_003" 127 200 (λ e, object [
    ("success", Some (JBool true));
    ("data", Some (object [("models", value_of e "aiService.getModels()")]));
    ("message", Some (JStr "Models retrieved"));
    ("errors", Some (JArr []))]);
  mkSent "unnamed/part_003" 146 404 (λ e, object [
    ("success", Some (JBool false));
    ("message", Some (JStr "Lesson not found"));
    ("errors", Some (JArr []))]);
  mkSent "unnamed/part_003" 153 200 (λ e, object [
    ("success", Some (JBool true));
    ("data", Some (object [("lesson", value_of e "lesson")]));
    ("message", Some (JStr "Lesson retrieved"));
    ("errors", Some (JArr []))]);
  mkSent "unnamed/part_003" 174 400 (λ e, object [
    ("success", Some (JBool false));
    ("message", Some (JStr "Validation error"));
    ("errors", Some (JArr [JStr "Subject is required"]))]);
  mkSent "unnamed/part_003" 183 400 (λ e, object [
    ("success", Some (JBool false));
    ("message", Some (JStr "Validation error"));
    ("errors", Some (JArr [JStr "Topic is required"]))]);
  mkSent "unnamed/part_003" 251 201 (λ e, object [
    ("success", Some (JBool true));
    ("data", Some (object [("lesson", value_of e "lesson")]));
    ("message", Some (JStr "Lesson generated successfully"));
    ("errors", Some (JArr []))]);
  mkSent "unnamed/part_003" 281 404 (λ e, object [
    ("success", Some (JBool false));
    ("message", Some (JStr "Lesson not found"));
    ("errors", Some (JArr []))]);
  mkSent "unnamed/part_003" 288 200 (λ e, object [
    ("success", Some (JBool true));
    ("data", Some (object [("lesson", value_of e "lesson")]));
    ("message", Some (JStr "Lesson updated"));
    ("errors", Some (JArr []))]);
  mkSent "unnamed/part_003" 310 404 (λ e, object [
    ("success", Some (JBool false));
    ("message", Some (JStr "Lesson not found"));
    ("errors", Some (JArr []))]);
  mkSent "unnamed/part_003" 317 200 (λ e, object [
    ("success", Some (JBool true));
    ("data", Some (object []));
    ("message", Some (JStr "Lesson deleted"));
    ("errors", Some (JArr []))]);
  mkSent "unnamed/part_003" 337 400 (λ e, object [
    ("success", Some (JBool false));
    ("message", Some (JStr "Validation error"));
    ("errors", Some (JArr [JStr "IDs array is required"]))]);
  mkSent "unnamed/part_003" 352 200 (λ e, object [
    ("success", Some (JBool true));
    ("data", Some (object [("deletedCount", value_of e "deletedCount")]));
    ("message", Some (JStr (text_of e "`${deletedCount} lessons deleted`")));
    ("errors", Some (JArr []))])
].

Definition sent_in_part_004 : list sent := [
  mkSent "unnamed/part_004" 45 200 (λ e, object [
    ("success", Some (JBool true));
    ("data", Some (object [("decks", value_of e "decksWithStats")]));
    ("message", Some (JStr "Flashcard decks retrieved"));
    ("errors", Some (JArr []))]);
  mkSent "unnamed/part_004" 67 404 (λ e, object [
    ("success", Some (JBool false));
    ("message", Some (JStr "Deck not found"));
    ("errors", Some (JArr []))]);
  mkSent "unnamed/part_004" 74 200 (λ e, object [
    ("success", Some (JBool true));
    ("data", Some (object [("deck", value_of e "deck")]));
    ("message", Some (JStr "Deck retrieved"));
    ("errors", Some (JArr []))]);
  mkSent "unnamed/part_004" 94 400 (λ e, object [
    ("success", Some (JBool false));
    ("message", Some (JStr "Title is required"));
    ("errors", Some (JArr []))]);
  mkSent "unnamed/part_004" 125 201 (λ e, object [
    ("success", Some (JBool true));
    ("data", Some (object [("deck", value_of e "deck")]));
    ("message", Some (JStr "Deck created"));
    ("errors", Some (JArr []))]);
  mkSent "unnamed/part_004" 145 400 (λ e, object [
    ("success", Some (JBool false));
    ("message", Some (JStr "Topic is required"));
    ("errors", Some (JArr []))]);
  mkSent "unnamed/part_004" 180 201 (λ e, object [
    ("success", Some (JBool true));
    ("data", Some (object [("deck", value_of e "deck")]));
    ("message", Some (JStr "Flashcards generated"));
    ("errors", Some (JArr []))]);
  mkSent "unnamed/part_004" 200 400 (λ e, object [
    ("success", Some (JBool false));
    ("message", Some (JStr "Front and back are required"));
    ("errors", Some (JArr []))]);
  mkSent "unnamed/part_004" 212 404 (λ e, object [
    ("success", Some (JBool false));
    ("message", Some (JStr "Deck not found"));
    ("errors", Some (JArr []))]);
  mkSent "unnamed/part_004" 236 201 (λ e, object [
    ("success", Some (JBool true));
    ("data", Some (object [("card", value_of e "card")]));
    ("message", Some (JStr "Card added"));
    ("errors", Some (JArr []))]);
  mkSent "unnamed/part_004" 260 404 (λ e, object [
    ("success", Some (JBool false));
    ("message", Some (JStr "Deck not found"));
    ("errors", Some (JArr []))]);
  mkSent "unnamed/part_004" 269 404 (λ e, object [
    ("success", Some (JBool false));
    ("message", Some (JStr "Card not found"));
    ("errors", Some (JArr []))]);
  mkSent "unnamed/part_004" 284 200 (λ e, object [
    ("success", Some (JBool true));
    ("data", Some (object [("card", value_of e "deck.cards[cardIndex]")]));
    ("message", Some (JStr "Card updated"));
    ("errors", Some (JArr []))]);
  mkSent "unnamed/part_004" 306 404 (λ e, object [
    ("success", Some (JBool false));
    ("message", Some (JStr "Deck not found"));
    ("errors", Some (JArr []))]);
  mkSent "unnamed/part_004" 318 200 (λ e, object [
    ("success", Some (JBool true));
    ("data", Some (object []));
    ("message", Some (JStr "Card deleted"));
    ("errors", Some (JArr []))]);
  mkSent "unnamed/part_004" 342 404 (λ e, object [
    ("success", Some (JBool false));
    ("message", Some (JStr "Deck not found"));
    ("errors", Some (JArr []))]);
  mkSent "unnamed/part_004" 351 404 (λ e, object [
    ("success", Some (JBool false));
    ("message", Some (JStr "Card not found"));
    ("errors", Some (JArr []))]);
  mkSent "unnamed/part_004" 397 200 (λ e, object [
    ("success", Some (JBool true));
    ("data", Some (object [("card", value_of e "card")]));
    ("message", Some (JStr "Card reviewed"));
    ("errors", Some (JArr []))]);
  mkSent "unnamed/part_004" 419 404 (λ e, object [
    ("success", Some (JBool false));
    ("message", Some (JStr "Deck not found"));
    ("errors", Some (JArr []))]);
  mkSent "unnamed/part_004" 437 200 (λ e, object [
    ("success", Some (JBool true));
    ("data", Some (object [
      ("cards", value_of e "dueCards");
      ("totalDue", value_of e "dueCards.length")]));
    ("message", Some (JStr "Due cards retrieved"));
    ("errors", Some (JArr []))]);
  mkSent "unnamed/part_004" 467 404 (λ e, object [
    ("success", Some (JBool false));
    ("message", Some (JStr "Deck not found"));
    ("errors", Some (JArr []))]);
  mkSent "unnamed/part_004" 474 200 (λ e, object [
    ("success", Some (JBool true));
    ("data", Some (object [("deck", value_of e "deck")]));
    ("message", Some (JStr "Deck updated"));
    ("errors", Some (JArr []))]);
  mkSent "unnamed/part_004" 496 404 (λ e, object [
    ("success", Some (JBool false));
    ("message", Some (JStr "Deck not found"));
    ("errors", Some (JArr []))]);
  mkSent "unnamed/part_004" 503 200 (λ e, object [
    ("success", Some (JBool true));
    ("data", Some (object []));
    ("message", Some (JStr "Deck deleted"));
    ("errors", Some (JArr []))])
].

Definition sent_in_part_005 : list sent := [
  mkSent "unnamed/part_005" 31 200 (λ e, object [
    ("success", Some (JBool true));
    ("data", Some (object [
      ("items", value_of e "items");
      ("page", value_of e "page");
      ("limit", value_of e "limit");
      ("total", value_of e "total");
      ("totalPages", value_of e "totalPages")]));
    ("message", Some (JStr "Essays retrieved"));
    ("errors", Some (JArr []))]);
  mkSent "unnamed/part_005" 87 200 (λ e, object [
    ("success", Some (JBool true));
    ("data", Some (object [("prompts", value_of e "prompts")]));
    ("message", Some (JStr "Prompts retrieved"));
    ("errors", Some (JArr []))]);
  mkSent "unnamed/part_005" 108 200 (λ e, object [
    ("success", Some (JBool true));
    ("data", Some (object [("prompt", value_of e "prompt")]));
    ("message", Some (JStr "Prompt generated"));
    ("errors", Some (JArr []))]);
  mkSent "unnamed/part_005" 130 404 (λ e, object [
    ("success", Some (JBool false));
    ("message", Some (JStr "Essay not found"));
    ("errors", Some (JArr []))]);
  mkSent "unnamed/part_005" 137 200 (λ e, object [
    ("success", Some (JBool true));
    ("data", Some (object [("essay", value_of e "essay")]));
    ("message", Some (JStr "Essay retrieved"));
    ("errors", Some (JArr []))]);
  mkSent "unnamed/part_005" 174 201 (λ e, object [
    ("success", Some (JBool true));
    ("data", Some (object [("essay", value_of e "essay")]));
    ("message", Some (JStr "Essay created"));
    ("errors", Some (JArr []))]);
  mkSent "unnamed/part_005" 198 404 (λ e, object [
    ("success", Some (JBool false));
    ("message", Some (JStr "Essay not found"));
    ("errors", Some (JArr []))]);
  mkSent "unnamed/part_005" 220 200 (λ e, object [
    ("success", Some (JBool true));
    ("data", Some (object [("essay", value_of e "updatedEssay")]));
    ("message", Some (JStr "Essay saved"));
    ("errors", Some (JArr []))]);
  mkSent "unnamed/part_005" 244 404 (λ e, object [
    ("success", Some (JBool false));
    ("message", Some (JStr "Essay not found"));
    ("errors", Some (JArr []))]);
  mkSent "unnamed/part_005" 262 400 (λ e, object [
    ("success", Some (JBool false));
    ("message", Some (JStr "Essay too short"));
    ("errors", Some (JArr [JStr "Please write at least 50 words before submitting"]))]);
  mkSent "unnamed/part_005" 304 200 (λ e, object [
    ("success", Some (JBool true));
    ("data", Some (object [
      ("essay", value_of e "essay");
      ("grading", value_of e "grading")]));
    ("message", Some (JStr "Essay submitted and graded"));
    ("errors", Some (JArr []))]);
  mkSent "unnamed/part_005" 328 404 (λ e, object [
    ("success", Some (JBool false));
    ("message", Some (JStr "Essay not found"));
    ("errors", Some (JArr []))]);
  mkSent "unnamed/part_005" 343 200 (λ e, object [
    ("success", Some (JBool true));
    ("data", Some (object [
      ("essay", value_of e "essay");
      ("grading", value_of e "grading")]));
    ("message", Some (JStr "Essay re-graded"));
    ("errors", Some (JArr []))]);
  mkSent "unnamed/part_005" 365 404 (λ e, object [
    ("success", Some (JBool false));
    ("message", Some (JStr "Essay not found"));
    ("errors", Some (JArr []))]);
  mkSent "unnamed/part_005" 372 200 (λ e, object [
    ("success", Some (JBool true));
    ("data", Some (object []));
    ("message", Some (JStr "Essay deleted"));
    ("errors", Some (JArr []))])
].

Definition sent_in_part_006 : list sent := [
  mkSent "unnamed/part_006" 25 404 (λ e, object [
    ("success", Some (JBool false));
    ("message", Some (JStr "Progress not found"));
    ("errors", Some (JArr []))]);
  mkSent "unnamed/part_006" 32 200 (λ e, object [
    ("success", Some (JBool true));
    ("data", Some (object [
      ("progress", value_of e "progress");
      ("stats", value_of e "user?.stats || {}")]));
    ("message", Some (JStr "Progress retrieved"));
    ("errors", Some (JArr []))]);
  mkSent "unnamed/part_006" 141 200 (λ e, object [
    ("success", Some (JBool true));
    ("data", Some (object [
      ("scoreHistory", value_of e "scoreHistory");
      ("estimatedScore", value_of e "estimatedScore");
      ("subjects", value_of e "progress?.subjects || {}");
      ("testScores", value_of e "progress?.testScores || []");
      ("studyByDay", value_of e "studyByDay");
      ("topicScores", value_of e "topicScores");
      ("strengths", value_of e "strengths");
      ("weaknesses", value_of e "weaknesses");
      ("stats", value_of e "user?.stats || {}");
      ("recentActivity", value_of e "(progress?.activityLog || []).slice(0, 20)")]));
    ("message", Some (JStr "Analytics retrieved"));
    ("errors", Some (JArr []))]);
  mkSent "unnamed/part_006" 176 200 (λ e, object [
    ("success", Some (JBool true));
    ("data", Some (object [("activities", Some (JArr [])); ("total", Some (JNum 0))]));
    ("message", Some (JStr "No activity"));
    ("errors", Some (JArr []))]);
  mkSent "unnamed/part_006" 187 200 (λ e, object [
    ("success", Some (JBool true));
    ("data", Some (object [
      ("activities", value_of e "activities");
      ("total", value_of e "progress.activityLog.length");
      ("page", value_of e "parseInt(page)");
      ("totalPages", value_of e "Math.ceil(progress.activityLog.length / parseInt(limit))")]));
    ("message", Some (JStr "Activity retrieved"));
    ("errors", Some (JArr []))]);
  mkSent "unnamed/part_006" 246 200 (λ e, object [
    ("success", Some (JBool true));
    ("data", Some (object [("stats", value_of e "user?.stats")]));
    ("message", Some (JStr "Study time logged"));
    ("errors", Some (JArr []))]);
  mkSent "unnamed/part_006" 288 200 (λ e, object [
    ("success", Some (JBool true));
    ("data", Some (object [
      ("achievements", value_of e "achievements");
      ("earned", value_of e "achievements.filter(a => a.earned).length");
      ("total", value_of e "achievements.length")]));
    ("message", Some (JStr "Achievements retrieved"));
    ("errors", Some (JArr []))]);
  mkSent "unnamed/part_006" 339 200 (λ e, object [
    ("success", Some (JBool true));
    ("data", Some (object [
      ("exportedAt", value_of e "new Date().toISOString()");
      ("user", value_of e "user ? { ...user, password: undefined } : null");
      ("progress", value_of e "progress");
      ("lessons", value_of e "lessons");
      ("quizzes", value_of e "quizzes");
      ("tests", value_of e "tests");
      ("chats", value_of e "chats");
      ("studyPlans", value_of e "plans");
      ("essays", value_of e "essays");
      ("flashcards", value_of e "flashcards")]));
    ("message", Some (JStr "Data exported"));
    ("errors", Some (JArr []))])
].

Definition responses : list sent :=
  sent_in_server_js
  ++ sent_in_storage_js
  ++ sent_in_errorHandler_js
  ++ sent_in_chat_js
  ++ sent_in_quizzes_js
  ++ sent_in_part_000
  ++ sent_in_part_001
  ++ sent_in_part_002
  ++ sent_in_part_003
  ++ sent_in_part_004
  ++ sent_in_part_005
  ++ sent_in_part_006.

(** The two shapes of a body: [Some true] for the envelope of a success,
    [Some false] for the three fields of an error. *)
Definition body_kind (b : json) : option bool :=
  match b with
  | JObj [(k1, JBool true); (k2, JObj _); (k3, JStr _); (k4, JArr [])] =>
      if bool_decide ([k1; k2; k3; k4] = ["success"; "data"; "message"; "errors"])
      then Some true else None
  | JObj [(k1, JBool false); (k2, JStr _); (k3, JArr l)] =>
      if bool_decide ([k1; k2; k3] = ["success"; "message"; "errors"])
         && forallb is_string l
      then Some false else None
  | _ => None
  end.

(** The body has the shape that goes with the status. *)
Definition shaped (e : scope) (s : sent) : bool :=
  match body_kind (sent_body s e) with
  | Some success => Bool.eqb success (sent_status s <? 400)
  | None => false
  end.

(** * Properties *)

(** ** The reference runtime is lawful *)

Lemma insert_sorted_perm cmp x l : Reference.insert_sorted cmp x l ≡ₚ x :: l.
Proof.
  induction l as [|y l IH]; simpl; [done|].
  destruct (cmp x y <? 0); [done|].
  rewrite IH. apply Permutation_swap.
Qed.

Lemma reference_sort_perm cmp l : Reference.sort cmp l ≡ₚ l.
Proof.
  induction l as [|x l IH]; simpl; [done|].
  by rewrite insert_sorted_perm, IH.
Qed.

Lemma insert_sorted_sorted cmp x l :
  (∀ y, y ∈ l → cmp x y < 0 ∨ cmp y x < 0) →
  (∀ y z, y ∈ l → z ∈ l → cmp x y < 0 → cmp y z < 0 → cmp x z < 0) →
  StronglySorted (λ a b, cmp a b < 0) l →
  StronglySorted (λ a b, cmp a b < 0) (Reference.insert_sorted cmp x l).
Proof.
  induction l as [|y l IH]; intros Htot Htrans Hs; simpl.
  - repeat constructor.
  - inversion Hs as [|? ? Hs' Hall]; subst.
    destruct (Z.ltb_spec (cmp x y) 0) as [Hlt|Hge].
    + constructor; [done|]. constructor; [done|].
      apply Forall_forall. intros z Hz.
      apply (Htrans y z); [left | by right | done |].
      by eapply Forall_forall in Hall.
    + constructor.
      * apply IH; [| |done].
        -- intros z Hz. apply Htot. by right.
        -- intros a b Ha Hb. apply Htrans; by right.
      * apply Forall_forall. intros z Hz.
        rewrite insert_sorted_perm in Hz. apply elem_of_cons in Hz as [->|Hz].
        -- destruct (Htot y) as [?|?]; [left | lia | done].
        -- by eapply Forall_forall in Hall.
Qed.

Lemma reference_sort_sorted cmp l :
  (∀ x y, x ∈ l → y ∈ l → cmp x y < 0 ∨ cmp y x < 0) →
  (∀ x y z, x ∈ l → y ∈ l → z ∈ l → cmp x y < 0 → cmp y z < 0 → cmp x z < 0) →
  StronglySorted (λ x y, cmp x y < 0) (Reference.sort cmp l).
Proof.
  induction l as [|x l IH]; intros Htot Htrans; simpl; [constructor|].
  apply insert_sorted_sorted.
  - intros y Hy. rewrite reference_sort_perm in Hy. apply Htot; [left | by right].
  - intros y z Hy Hz. rewrite reference_sort_perm in Hy, Hz.
    apply Htrans; [left | by right | by right].
  - apply IH.
    + intros a b Ha Hb. apply Htot; by right.
    + intros a b c Ha Hb Hc. apply Htrans; by right.
Qed.

Lemma reference_lawful : lawful Reference.runtime.
Proof.
  split.
  - reflexivity.
  - reflexivity.
  - apply reference_sort_perm.
  - apply reference_sort_sorted.
Qed.

(** ** [read] *)

Section ReadFacts.
Context `{JsRuntime}.

(** [read] in closed form. *)
Lemma read_unfold filename defaultValue w :
  read filename defaultValue w =
  match files w !! path_join DATA_DIR filename with
  | None => (Return defaultValue, w)
  | Some text =>
      if readFileSync_fails (faults w)
      then (Return defaultValue, log_line (reading_error filename) w)
      else match JSON_parse text with
           | Some v => (Return v, w)
           | None => (Return defaultValue, log_line (reading_error filename) w)
           end
  end.
Proof.
  unfold read, try_catch, bind, fs_existsSync, fs_readFileSync,
    JSON_parse_or_throw, console_error, ret, throw.
  destruct (files w !! path_join DATA_DIR filename) as [text|] eqn:Hf; simpl.
  - destruct (readFileSync_fails (faults w)); [done|].
    rewrite Hf. by destruct (JSON_parse text).
  - done.
Qed.

Lemma read_returns filename defaultValue w :
  ∃ v, (read filename defaultValue w).1 = Return v.
Proof.
  rewrite read_unfold.
  repeat case_match; simpl; eauto.
Qed.

(** [read] changes nothing but the console. *)
Lemma read_preserves filename defaultValue w :
  let w' := (read filename defaultValue w).2 in
  files w' = files w ∧ fileLocks w' = fileLocks w ∧ clock w' = clock w
  ∧ disk_trace w' = disk_trace w ∧ faults w' = faults w.
Proof.
  rewrite read_unfold. repeat case_match; simpl; done.
Qed.

(** What [read] returns depends on the file and on the read fault only. *)
Lemma read_depends filename defaultValue w1 w2 :
  files w1 !! path_join DATA_DIR filename = files w2 !! path_join DATA_DIR filename →
  readFileSync_fails (faults w1) = readFileSync_fails (faults w2) →
  (read filename defaultValue w1).1 = (read filename defaultValue w2).1.
Proof.
  intros Hf Hr. rewrite !read_unfold, Hf, Hr.
  repeat case_match; simpl; done.
Qed.

End ReadFacts.

(** C7: [read] never throws: whatever the file system holds and whichever
    call fails, it returns a value; it returns [defaultValue] when the file
    does not exist, when its text does not parse as JSON and when reading
    it fails, and in the last two cases the only other effect is one line
    on the console. *)
Theorem read_swallows_errors `{JsRuntime} (filename : string) (defaultValue : json) (w : world) :
  (∃ v, (read filename defaultValue w).1 = Return v)
  ∧ (files w !! path_join DATA_DIR filename = None →
     read filename defaultValue w = (Return defaultValue, w))
  ∧ (∀ text, files w !! path_join DATA_DIR filename = Some text →
       JSON_parse text = None ∨ readFileSync_fails (faults w) = true →
       read filename defaultValue w
       = (Return defaultValue, log_line (reading_error filename) w)).
Proof.
  split; [apply read_returns|]. split.
  - intros Hf. by rewrite read_unfold, Hf.
  - intros text Hf Hbad. rewrite read_unfold, Hf.
    destruct (readFileSync_fails (faults w)); [done|].
    destruct Hbad as [->|?]; done.
Qed.

Lemma read_swallows_errors_witness :
  let truncated :=
    initial_world {[ path_join DATA_DIR "lessons.json" := "[1, 2, [3" ]}
      1700000000000%N no_faults in
  read "lessons.json" (JArr []) Sample.empty_world = (Return (JArr []), Sample.empty_world)
  ∧ read "lessons.json" (JArr []) truncated
    = (Return (JArr []), log_line (reading_error "lessons.json") truncated).
Proof.
  intros truncated. split.
  - apply (read_swallows_errors "lessons.json" (JArr []) Sample.empty_world).
    reflexivity.
  - eapply (read_swallows_errors "lessons.json" (JArr []) truncated).
    + reflexivity.
    + left. vm_compute. reflexivity.
Defined.

(** ** [write] *)

Lemma substring_all s : String.substring 0 (String.length s) s = s.
Proof. induction s as [|c s IH]; simpl; [done|]. by rewrite IH. Qed.

Lemma append_nil_inv (s t : string) : s +:+ t = s → t = EmptyString.
Proof.
  induction s as [|c s IH]; simpl; [done|].
  intros Heq. injection Heq as Heq. by apply IH.
Qed.

(** The temporary file is never the file of the collection. *)
Lemma temp_path_fresh `{JsRuntime} filepath now : temp_path filepath now ≠ filepath.
Proof.
  unfold temp_path. intros Heq.
  apply append_nil_inv in Heq. done.
Qed.

Lemma record_states_trace ds w :
  disk_trace (record_states ds w) = rev ds ++ disk_trace w.
Proof.
  unfold record_states. revert w.
  induction ds as [|d ds IH]; intros w; simpl; [done|].
  rewrite IH. simpl. by rewrite <- app_assoc.
Qed.

Lemma record_states_files ds w :
  files (record_states ds w) = default (files w) (last ds).
Proof.
  unfold record_states. revert w.
  induction ds as [|d ds IH]; intros w; simpl; [done|].
  rewrite IH. simpl. destruct ds as [|d' ds]; [done|]. simpl.
  destruct (last (d' :: ds)) eqn:E; [done|]. by apply last_None in E.
Qed.

Lemma record_states_others ds w :
  fileLocks (record_states ds w) = fileLocks w
  ∧ clock (record_states ds w) = clock w
  ∧ console (record_states ds w) = console w
  ∧ faults (record_states ds w) = faults w.
Proof.
  unfold record_states. revert w.
  induction ds as [|d ds IH]; intros w; simpl; [done|].
  destruct (IH (set_files d w)) as (-> & -> & -> & ->). done.
Qed.

Lemma writing_states_last d p s n :
  last (writing_states d p s n) = Some (<[p := String.substring 0 n s]> d).
Proof.
  unfold writing_states. rewrite fmap_last.
  replace (seq 0 (S n)) with (seq 0 n ++ [n]) by (by rewrite <- seq_S).
  by rewrite last_snoc.
Qed.

Lemma writing_states_other d p s n :
  Forall (λ d', ∀ q, q ≠ p → d' !! q = d !! q) (writing_states d p s n).
Proof.
  unfold writing_states. apply Forall_fmap, Forall_forall.
  intros k _ q Hq. simpl. by rewrite lookup_insert_ne.
Qed.

Lemma record_states_eq ds w :
  record_states ds w
  = mkWorld (default (files w) (last ds)) (fileLocks w) (clock w) (console w)
      (rev ds ++ disk_trace w) (faults w).
Proof.
  pose proof (record_states_others ds w) as (Hl & Hc & Ho & Hf).
  pose proof (record_states_files ds w) as Hd.
  pose proof (record_states_trace ds w) as Ht.
  destruct (record_states ds w). simpl in *. by subst.
Qed.

Section WriteFacts.
Context `{JsRuntime}.

Lemma write_locked_ok filename filepath tempPath data w :
  writeFileSync_outcome (faults w) = write_completes →
  renameSync_fails (faults w) = false →
  write_locked filename filepath tempPath data w
  = (Return tt, written filename filepath tempPath data w).
Proof.
  intros Hw Hr.
  unfold write_locked, try_finally, try_catch, bind, fs_writeFileSync, fs_renameSync,
    releaseLock, written.
  rewrite Hw, record_states_eq, writing_states_last, substring_all. simpl.
  rewrite Hr, lookup_insert_eq. done.
Qed.

Lemma acquireLock_free filename w :
  unlocked filename w →
  acquireLock filename w
  = (Return tt, set_fileLocks (<[filename := true]> (fileLocks w)) w).
Proof. intros Hl. unfold acquireLock. by rewrite Hl. Qed.

Lemma write_ok filename data w :
  unlocked filename w →
  writeFileSync_outcome (faults w) = write_completes →
  renameSync_fails (faults w) = false →
  let filepath := path_join DATA_DIR filename in
  write filename data w
  = (Return tt,
     written filename filepath (temp_path filepath (clock w)) data
       (set_fileLocks (<[filename := true]> (fileLocks w)) w)).
Proof.
  intros Hl Hw Hr. simpl.
  unfold write, bind, Date_now. rewrite acquireLock_free by done.
  by rewrite write_locked_ok.
Qed.

Lemma written_lookup filename filepath tempPath data w :
  files (written filename filepath tempPath data w) !! filepath
  = Some (JSON_stringify data).
Proof. simpl. apply lookup_insert_eq. Qed.

End WriteFacts.

(** ** [findIndex] *)

Lemma findIndex_from_none predicate l k :
  (∀ x, x ∈ l → predicate x = false) → findIndex_from predicate l k = -1.
Proof.
  revert k. induction l as [|x l IH]; intros k Hall; simpl; [done|].
  rewrite Hall by left. apply IH. intros y Hy. apply Hall. by right.
Qed.

Lemma findIndex_from_first predicate l k i r :
  l !! i = Some r → predicate r = true →
  (∀ j x, (j < i)%nat → l !! j = Some x → predicate x = false) →
  findIndex_from predicate l k = k + Z.of_nat i.
Proof.
  revert k i. induction l as [|x l IH]; intros k i Hi Hr Hbefore; [done|].
  destruct i as [|i]; simpl in *.
  - injection Hi as ->. rewrite Hr. lia.
  - rewrite (Hbefore 0%nat x) by (done || lia).
    rewrite (IH (k + 1) i); [lia | done | done |].
    intros j y Hj Hy. apply (Hbefore (S j) y); [lia|done].
Qed.

(** ** [update] and [remove] without a match *)

(** C5: on a collection holding the sequence [l], with a predicate that no
    record of [l] satisfies, [update] returns [null] and [remove] returns
    [false]; neither writes: the world they leave is the one [read] left,
    with the same files, the same history of the disk and the same locks
    as before the call. *)
Theorem update_remove_no_match `{JsRuntime} (filename : string)
    (predicate : json → bool) (updates : value) (w : world) (l : list json) :
  (read filename (JArr []) w).1 = Return (JArr l) →
  (∀ r, r ∈ l → predicate r = false) →
  let w' := (read filename (JArr []) w).2 in
  update filename predicate updates w = (Return (Some JNull), w')
  ∧ remove filename predicate w = (Return false, w')
  ∧ files w' = files w
  ∧ disk_trace w' = disk_trace w
  ∧ fileLocks w' = fileLocks w.
Proof.
  intros Hread Hnone w'.
  pose proof (read_preserves filename (JArr []) w) as (Hf & Hl & _ & Ht & _).
  fold w' in Hf, Hl, Ht.
  split; [|split; [|done]].
  - unfold update, bind. destruct (read filename (JArr []) w) as [r w1] eqn:Hr.
    simpl in Hread, w'. subst r w'. unfold lift, Array_findIndex. simpl.
    by rewrite findIndex_from_none.
  - unfold remove, bind. destruct (read filename (JArr []) w) as [r w1] eqn:Hr.
    simpl in Hread, w'. subst r w'. unfold lift, Array_findIndex. simpl.
    by rewrite findIndex_from_none.
Qed.

Lemma update_remove_no_match_witness :
  let w := Sample.world_with "lessons.json" Sample.three in
  update "lessons.json" (Sample.has_id "z") (Some (JObj [("score", JNum 9)])) w
    = (Return (Some JNull), w)
  ∧ remove "lessons.json" (Sample.has_id "z") w = (Return false, w).
Proof.
  intros w.
  destruct (update_remove_no_match "lessons.json" (Sample.has_id "z")
              (Some (JObj [("score", JNum 9)])) w Sample.three) as (Hu & Hr & _).
  - vm_compute. reflexivity.
  - intros r Hr. repeat (apply elem_of_cons in Hr as [->|Hr]; [reflexivity|]).
    by apply elem_of_nil in Hr.
  - split; [exact Hu | exact Hr].
Defined.

(** ** [insert], then [read] *)

Section InsertFacts.
Context `{JsRuntime}.

Lemma insert_ok filename item w l :
  faults w = no_faults →
  unlocked filename w →
  (read filename (JArr []) w).1 = Return (JArr l) →
  let w1 := (read filename (JArr []) w).2 in
  let filepath := path_join DATA_DIR filename in
  insert filename item w
  = (Return item,
     written filename filepath (temp_path filepath (clock w1)) (JArr (l ++ [item]))
       (set_fileLocks (<[filename := true]> (fileLocks w1)) w1)).
Proof.
  intros Hfaults Hlock Hread w1 filepath.
  pose proof (read_preserves filename (JArr []) w) as (Hf & Hl & Hc & Ht & Hfl).
  fold w1 in Hf, Hl, Hc, Ht, Hfl.
  unfold insert, bind. destruct (read filename (JArr []) w) as [r w1'] eqn:Hr.
  simpl in Hread, w1. subst r w1. unfold lift. simpl.
  rewrite write_ok; [done| | |].
  - unfold unlocked. by rewrite Hl.
  - by rewrite Hfl, Hfaults.
  - by rewrite Hfl, Hfaults.
Qed.

(** Reading a file that was just written. *)
Lemma read_written filename tempPath data w defaultValue :
  readFileSync_fails (faults w) = false →
  round_trips data →
  (read filename defaultValue
     (written filename (path_join DATA_DIR filename) tempPath data w)).1
  = Return data.
Proof.
  intros Hr Hrt. rewrite read_unfold, written_lookup. simpl.
  rewrite Hr. unfold round_trips in Hrt. by rewrite Hrt.
Qed.

End InsertFacts.

(** C6: on a collection holding the sequence [l], with no fault and no
    write in flight, [insert] returns the record it was given, and a
    [read] afterwards yields [l] with that record appended: one element
    more, the last one equal to the record.  (The record and the
    collection are JSON-compatible: they round-trip through the engine's
    [JSON.stringify] and [JSON.parse].) *)
Theorem insert_then_read `{JsRuntime} (filename : string) (item : json)
    (w : world) (l : list json) :
  faults w = no_faults →
  unlocked filename w →
  (read filename (JArr []) w).1 = Return (JArr l) →
  round_trips (JArr (l ++ [item])) →
  let w' := (insert filename item w).2 in
  (insert filename item w).1 = Return item
  ∧ ∃ l', (read filename (JArr []) w').1 = Return (JArr l')
          ∧ l' = l ++ [item]
          ∧ length l' = S (length l)
          ∧ last l' = Some item.
Proof.
  intros Hfaults Hlock Hread Hrt w'. subst w'.
  rewrite (insert_ok filename item w l) by done. simpl. split; [done|].
  exists (l ++ [item]). split; [|split; [done|split]].
  - apply read_written; [|done]. simpl.
    pose proof (read_preserves filename (JArr []) w) as (_ & _ & _ & _ & ->).
    by rewrite Hfaults.
  - rewrite length_app. simpl. lia.
  - apply last_snoc.
Qed.

Lemma insert_then_read_witness :
  let w := Sample.world_with "lessons.json" Sample.three in
  let item := Sample.lesson "d" 7 in
  (insert "lessons.json" item w).1 = Return item
  ∧ ∃ l', (read "lessons.json" (JArr []) (insert "lessons.json" item w).2).1
          = Return (JArr l')
          ∧ l' = Sample.three ++ [item]
          ∧ length l' = 4%nat
          ∧ last l' = Some item.
Proof.
  intros w item.
  apply (insert_then_read "lessons.json" item w Sample.three).
  - reflexivity.
  - reflexivity.
  - vm_compute. reflexivity.
  - vm_compute. reflexivity.
Defined.

(** ** [update] and [remove] with a match *)

Section UpdateFacts.
Context `{JsRuntime}.

Variables (filename : string) (predicate : json → bool) (w : world).
Variables (l : list json) (i : nat) (r : json).
Hypothesis Hfaults : faults w = no_faults.
Hypothesis Hlock : unlocked filename w.
Hypothesis Hread : (read filename (JArr []) w).1 = Return (JArr l).
Hypothesis Hi : l !! i = Some r.
Hypothesis Hr : predicate r = true.
Hypothesis Hfirst : ∀ j x, (j < i)%nat → l !! j = Some x → predicate x = false.

Let w1 := (read filename (JArr []) w).2.
Let filepath := path_join DATA_DIR filename.
Let locked := set_fileLocks (<[filename := true]> (fileLocks w1)) w1.

Lemma first_match_index : findIndex_from predicate l 0 = Z.of_nat i.
Proof using Hi Hr Hfirst. by rewrite (findIndex_from_first predicate l 0 i r). Qed.

Lemma update_ok updates :
  update filename predicate updates w
  = (Return (Some (spread2 (Some r) updates)),
     written filename filepath (temp_path filepath (clock w1))
       (JArr (<[i := spread2 (Some r) updates]> l)) locked).
Proof using Hfaults Hlock Hread Hi Hr Hfirst.
  pose proof (read_preserves filename (JArr []) w) as (Hf & Hl & Hc & Ht & Hfl).
  subst locked filepath w1.
  unfold update, bind. destruct (read filename (JArr []) w) as [x w1] eqn:Hx.
  simpl in *. subst x. unfold lift, Array_findIndex. simpl.
  rewrite first_match_index.
  replace (Z.of_nat i =? -1) with false by (symmetry; apply Z.eqb_neq; lia).
  rewrite Nat2Z.id, Hi.
  rewrite write_ok; simpl.
  - rewrite list_lookup_insert_eq; [done|]. by eapply lookup_lt_Some.
  - unfold unlocked. by rewrite Hl.
  - by rewrite Hfl, Hfaults.
  - by rewrite Hfl, Hfaults.
Qed.

Lemma remove_ok :
  remove filename predicate w
  = (Return true,
     written filename filepath (temp_path filepath (clock w1))
       (JArr (delete i l)) locked).
Proof using Hfaults Hlock Hread Hi Hr Hfirst.
  pose proof (read_preserves filename (JArr []) w) as (Hf & Hl & Hc & Ht & Hfl).
  subst locked filepath w1.
  unfold remove, bind. destruct (read filename (JArr []) w) as [x w1] eqn:Hx.
  simpl in *. subst x. unfold lift, Array_findIndex. simpl.
  rewrite first_match_index.
  replace (Z.of_nat i =? -1) with false by (symmetry; apply Z.eqb_neq; lia).
  rewrite Nat2Z.id.
  rewrite write_ok; simpl.
  - done.
  - unfold unlocked. by rewrite Hl.
  - by rewrite Hfl, Hfaults.
  - by rewrite Hfl, Hfaults.
Qed.

Lemma read_after_write data tempPath :
  round_trips data →
  (read filename (JArr []) (written filename filepath tempPath data locked)).1
  = Return data.
Proof using Hfaults.
  intros Hrt. apply read_written; [|done]. subst locked w1. simpl.
  pose proof (read_preserves filename (JArr []) w) as (_ & _ & _ & _ & ->).
  by rewrite Hfaults.
Qed.

End UpdateFacts.

(** C10: on a collection holding the sequence [l] whose first record
    satisfying the predicate is [r], at index [i], with no fault and no
    write in flight:
    - [update] returns the merged record [{ ...r, ...updates }], and the
      collection read afterwards has the same length, holds the merged
      record at index [i] and every other record unchanged at its index;
    - [remove] returns [true], and the collection read afterwards is [l]
      without its element [i]: the records before [i] keep their index,
      those after it move down by one, in the same order.
    (The written arrays are JSON-compatible: they round-trip.) *)
Theorem update_remove_first_match `{JsRuntime} (filename : string)
    (predicate : json → bool) (updates : value) (w : world)
    (l : list json) (i : nat) (r : json) :
  faults w = no_faults →
  unlocked filename w →
  (read filename (JArr []) w).1 = Return (JArr l) →
  l !! i = Some r →
  predicate r = true →
  (∀ j x, (j < i)%nat → l !! j = Some x → predicate x = false) →
  let merged := spread2 (Some r) updates in
  (round_trips (JArr (<[i := merged]> l)) →
   (update filename predicate updates w).1 = Return (Some merged)
   ∧ ∃ l', (read filename (JArr []) (update filename predicate updates w).2).1
           = Return (JArr l')
           ∧ length l' = length l
           ∧ l' !! i = Some merged
           ∧ ∀ j, j ≠ i → l' !! j = l !! j)
  ∧ (round_trips (JArr (delete i l)) →
     (remove filename predicate w).1 = Return true
     ∧ ∃ l', (read filename (JArr []) (remove filename predicate w).2).1
             = Return (JArr l')
             ∧ l' = take i l ++ drop (S i) l
             ∧ S (length l') = length l
             ∧ (∀ j, (j < i)%nat → l' !! j = l !! j)
             ∧ (∀ j, (i ≤ j)%nat → l' !! j = l !! S j)).
Proof.
  intros Hfaults Hlock Hread Hi Hr Hfirst merged.
  assert (i < length l)%nat as Hlt by (by eapply lookup_lt_Some).
  split; intros Hrt.
  - rewrite (update_ok filename predicate w l i r) by done. simpl.
    split; [done|]. exists (<[i := merged]> l).
    rewrite read_after_write by done.
    split; [done|]. split; [apply length_insert|]. split.
    + by apply list_lookup_insert_eq.
    + intros j Hj. by apply list_lookup_insert_ne.
  - rewrite (remove_ok filename predicate w l i r) by done. simpl.
    split; [done|]. exists (delete i l).
    rewrite read_after_write by done.
    split; [done|]. split; [apply delete_take_drop|]. split; [|split].
    + rewrite length_delete by eauto. lia.
    + intros j Hj. by apply list_lookup_delete_lt.
    + intros j Hj. by apply list_lookup_delete_ge.
Qed.

Lemma update_remove_first_match_witness :
  let w := Sample.world_with "lessons.json" Sample.three in
  let updates := Some (JObj [("score", JNum 9); ("done", JBool true)]) in
  let merged := JObj [("id", JStr "b"); ("score", JNum 9); ("done", JBool true)] in
  ((update "lessons.json" (Sample.has_id "b") updates w).1 = Return (Some merged)
   ∧ (read "lessons.json" (JArr [])
        (update "lessons.json" (Sample.has_id "b") updates w).2).1
     = Return (JArr [Sample.lesson "a" 3; merged; Sample.lesson "c" 2]))
  ∧ ((remove "lessons.json" (Sample.has_id "b") w).1 = Return true
     ∧ (read "lessons.json" (JArr [])
          (remove "lessons.json" (Sample.has_id "b") w).2).1
       = Return (JArr [Sample.lesson "a" 3; Sample.lesson "c" 2])).
Proof.
  intros w updates merged.
  destruct (update_remove_first_match "lessons.json" (Sample.has_id "b") updates w
              Sample.three 1 (Sample.lesson "b" 1)) as [Hu Hr].
  - reflexivity.
  - reflexivity.
  - vm_compute. reflexivity.
  - reflexivity.
  - reflexivity.
  - intros j x Hj Hx. destruct j as [|j]; [|lia].
    injection Hx as <-. reflexivity.
  - split.
    + destruct Hu as (Hres & l' & Hread & _); [vm_compute; reflexivity|].
      split; [exact Hres|]. vm_compute. reflexivity.
    + destruct Hr as (Hres & l' & Hread & _); [vm_compute; reflexivity|].
      split; [exact Hres|]. vm_compute. reflexivity.
Defined.

(** ** [paginate] *)

Lemma range_from_empty l i lo hi : hi ≤ i → range_from l i lo hi = [].
Proof.
  revert i. induction l as [|x l IH]; intros i Hi; simpl; [done|].
  rewrite IH by lia. case_decide; [lia|done].
Qed.

Lemma range_from_inside l i lo hi :
  lo ≤ i → range_from l i lo hi = take (Z.to_nat (hi - i)) l.
Proof.
  revert i. induction l as [|x l IH]; intros i Hi; simpl.
  - by rewrite take_nil.
  - case_decide as Hin.
    + rewrite IH by lia.
      replace (Z.to_nat (hi - i)) with (S (Z.to_nat (hi - (i + 1)))) by lia. done.
    + rewrite range_from_empty by lia.
      replace (Z.to_nat (hi - i)) with 0%nat by lia. done.
Qed.

Lemma range_from_take_drop l i lo hi :
  i ≤ lo →
  range_from l i lo hi = take (Z.to_nat (hi - lo)) (drop (Z.to_nat (lo - i)) l).
Proof.
  revert i. induction l as [|x l IH]; intros i Hi.
  - by rewrite drop_nil, take_nil.
  - destruct (decide (i = lo)) as [->|Hne].
    + rewrite range_from_inside by lia. by rewrite Z.sub_diag.
    + simpl. case_decide; [lia|]. rewrite IH by lia.
      replace (Z.to_nat (lo - i)) with (S (Z.to_nat (lo - (i + 1)))) by lia. done.
Qed.

(** From index 0 on, [slice] returns the half-open range. *)
Lemma slice_half_open_range l lo hi :
  0 ≤ lo → 0 ≤ hi → Array_slice l lo hi = half_open_range l lo hi.
Proof.
  intros Hlo Hhi. unfold half_open_range, Array_slice, relative_index.
  rewrite range_from_take_drop, Z.sub_0_r by done.
  replace (lo <? 0) with false by (symmetry; apply Z.ltb_ge; lia).
  replace (hi <? 0) with false by (symmetry; apply Z.ltb_ge; lia).
  remember (Z.of_nat (length l)) as len eqn:Hlen.
  destruct (decide (len ≤ lo)) as [Hout|Hin].
  - rewrite !drop_ge by lia. by rewrite !take_nil.
  - rewrite (Z.min_l lo len) by lia.
    destruct (decide (hi ≤ len)) as [Hh|Hh].
    + rewrite (Z.min_l hi len) by lia.
      destruct (decide (lo ≤ hi)).
      * by rewrite Z.max_l by lia.
      * rewrite Z.max_r by lia. by replace (Z.to_nat (hi - lo)) with 0%nat by lia.
    + rewrite (Z.min_r hi len), Z.max_l by lia.
      rewrite !take_ge; [done| |]; rewrite length_drop; lia.
Qed.

(** Up to index 0, [slice] returns nothing, as does the range. *)
Lemma slice_to_zero l lo :
  Array_slice l lo 0 = [] ∧ half_open_range l lo 0 = [].
Proof.
  split; [|by apply range_from_empty].
  unfold Array_slice.
  assert (0 ≤ relative_index (Z.of_nat (length l)) lo) as Hk
    by (unfold relative_index; destruct (Z.ltb_spec lo 0); lia).
  assert (relative_index (Z.of_nat (length l)) 0 = 0) as ->
    by (unfold relative_index; change (0 <? 0) with false; cbv iota; lia).
  by replace (Z.to_nat (Z.max (0 - _) 0)) with 0%nat by lia.
Qed.

Section PaginateFacts.
Context `{JsRuntime}.

Lemma paginate_unfold filename predicate page limit sort w l d :
  (read filename (JArr []) w).1 = Return (JArr l) →
  sort_if sort (List.filter predicate l) = Return d →
  (paginate filename predicate page limit sort w).1
  = Return (mkPage (Array_slice d ((page - 1) * limit) ((page - 1) * limit + limit))
              page limit (Z.of_nat (length d)) (ceil_div (Z.of_nat (length d)) limit)).
Proof.
  intros Hread Hsort. unfold paginate, bind.
  destruct (read filename (JArr []) w) as [x w1]. simpl in Hread. subst x.
  unfold lift. simpl. by rewrite Hsort.
Qed.

Lemma ceil_div_spec total limit :
  0 < limit →
  ∃ c, ceil_div total limit = Finite c ∧ (c - 1) * limit < total ≤ c * limit.
Proof.
  intros Hl. unfold ceil_div.
  replace (limit =? 0) with false by (symmetry; apply Z.eqb_neq; lia).
  eexists. split; [done|].
  pose proof (Z.div_mod (- total) limit ltac:(lia)) as Hdm.
  pose proof (Z.mod_pos_bound (- total) limit Hl) as Hb.
  nia.
Qed.

End PaginateFacts.

(** C3, as the code has it: for a page number and a page size that are
    not negative, on a collection holding the sequence [l], [paginate]
    returns the filtered (and, if asked, sorted) records [d] cut to the
    half-open index range [[(page-1)*limit, page*limit)], with [total] the
    number of records of [d] and [totalPages = ceil(total/limit)]; a page
    beyond the last one, and page 0, are empty and no error.  With 25
    records and a page size of 10: page 1 is [d[0..10)], page 3 is
    [d[20..25)] (5 records), [totalPages] is 3 and page 4 is empty. *)
Theorem paginate_pages `{JsRuntime} (filename : string) (predicate : json → bool)
    (page limit : Z) (sort : option sort_options) (w : world) (l d : list json) :
  (read filename (JArr []) w).1 = Return (JArr l) →
  sort_if sort (List.filter predicate l) = Return d →
  0 ≤ page →
  0 ≤ limit →
  let total := Z.of_nat (length d) in
  let lo := (page - 1) * limit in
  let hi := page * limit in
  (paginate filename predicate page limit sort w).1
  = Return (mkPage (half_open_range d lo hi) page limit total (ceil_div total limit))
  ∧ (sort = None → d = List.filter predicate l)
  ∧ (0 < limit →
     ∃ c, ceil_div total limit = Finite c ∧ (c - 1) * limit < total ≤ c * limit)
  ∧ (total ≤ lo ∨ page = 0 → half_open_range d lo hi = [])
  ∧ (length d = 25%nat →
     (paginate filename predicate 1 10 sort w).1
     = Return (mkPage (take 10 d) 1 10 25 (Finite 3))
     ∧ (paginate filename predicate 3 10 sort w).1
       = Return (mkPage (drop 20 d) 3 10 25 (Finite 3))
     ∧ length (drop 20 d) = 5%nat
     ∧ (paginate filename predicate 4 10 sort w).1
       = Return (mkPage [] 4 10 25 (Finite 3))).
Proof.
  intros Hread Hsort Hpage Hlimit total lo hi.
  split; [|split; [|split; [|split]]].
  - rewrite (paginate_unfold _ _ _ _ _ _ l d) by done. fold lo total.
    do 2 f_equal.
    destruct (decide (page = 0)) as [->|Hne].
    + subst lo hi. replace ((0 - 1) * limit + limit) with 0 by lia.
      replace (0 * limit) with 0 by lia.
      destruct (slice_to_zero d ((0 - 1) * limit)) as [-> ->]. done.
    + replace (lo + limit) with hi by (subst lo hi; lia).
      apply slice_half_open_range; subst lo hi; nia.
  - intros ->. simpl in Hsort. by injection Hsort.
  - apply ceil_div_spec.
  - intros [Hbeyond| ->].
    + unfold half_open_range. rewrite range_from_take_drop by (subst lo; nia).
      rewrite drop_ge by (subst total; lia). by rewrite take_nil.
    + subst hi. replace (0 * limit) with 0 by lia. apply slice_to_zero.
  - intros Hlen.
    rewrite !(paginate_unfold _ _ _ _ _ _ l d) by done.
    unfold Array_slice, relative_index. rewrite !Hlen. simpl.
    rewrite length_drop, Hlen. repeat split; try done.
    by rewrite take_ge by (rewrite length_drop; lia).
Qed.

Lemma paginate_pages_witness :
  let w := Sample.world_with "lessons.json" (Sample.lessons 25) in
  (paginate "lessons.json" Sample.everything 3 10 None w).1
  = Return (mkPage (drop 20 (Sample.lessons 25)) 3 10 25 (Finite 3)).
Proof.
  intros w.
  destruct (paginate_pages "lessons.json" Sample.everything 3 10 None w
              (Sample.lessons 25) (Sample.lessons 25)) as (_ & _ & _ & _ & Hex).
  - vm_compute. reflexivity.
  - vm_compute. reflexivity.
  - lia.
  - lia.
  - destruct Hex as (_ & H3 & _); [reflexivity | exact H3].
Defined.

(** C3 as stated fails below page 0: [slice] reads a negative index from
    the end.  With 25 records and a page size of 10, page -1 is the ten
    records [d[5..15)]: not the (empty) range [[-20, -10)], not an empty
    page and not the last, partial one. *)
Lemma paginate_negative_page :
  let d := Sample.lessons 25 in
  let w := Sample.world_with "lessons.json" d in
  ∃ result,
    (paginate "lessons.json" Sample.everything (-1) 10 None w).1 = Return result
    ∧ items result = take 10 (drop 5 d)
    ∧ items result ≠ half_open_range d ((-1 - 1) * 10) (-1 * 10)
    ∧ items result ≠ []
    ∧ items result ≠ drop 20 d.
Proof.
  intros d w. eexists. split; [vm_compute; reflexivity|]. simpl.
  split; [reflexivity|]. repeat split; intros Heq;
    apply (f_equal length) in Heq; vm_compute in Heq; discriminate.
Qed.

(** ** The order [paginate] sorts in *)

Lemma StronglySorted_weaken {A} (R1 R2 : A → A → Prop) (l : list A) :
  (∀ x y, x ∈ l → y ∈ l → R1 x y → R2 x y) →
  StronglySorted R1 l → StronglySorted R2 l.
Proof.
  intros Himpl Hs. induction Hs as [|x l Hs IH Hall]; constructor.
  - apply IH. intros a b Ha Hb. apply Himpl; by right.
  - apply Forall_forall. intros y Hy.
    apply Himpl; [left | by right |]. by eapply Forall_forall in Hall.
Qed.

(** The order of strings is transitive. *)
Lemma string_le_trans (a b c : string) :
  String.compare a b ≠ Gt → String.compare b c ≠ Gt → String.compare a c ≠ Gt.
Proof.
  revert b c. induction a as [|x a IH]; intros [|y b] [|z c]; simpl; try done.
  unfold Ascii.compare.
  destruct (N.compare_spec (N_of_ascii x) (N_of_ascii y)) as [Hxy|Hxy|Hxy];
    destruct (N.compare_spec (N_of_ascii y) (N_of_ascii z)) as [Hyz|Hyz|Hyz];
    destruct (N.compare_spec (N_of_ascii x) (N_of_ascii z)) as [Hxz|Hxz|Hxz];
    try done; try lia.
  apply IH.
Qed.

Lemma string_ltb_false (a b : string) :
  String.ltb b a = false ↔ String.compare a b ≠ Gt.
Proof.
  unfold String.ltb. rewrite (String.compare_antisym a b).
  destruct (String.compare b a); simpl; split; done.
Qed.

Lemma string_leb_true (a b : string) :
  String.leb a b = true ↔ String.compare a b ≠ Gt.
Proof. unfold String.leb. destruct (String.compare a b); split; done. Qed.

Section SortFacts.
Context `{R : JsRuntime}.
Hypothesis Hlaw : lawful R.
Variable s : sort_options.

Lemma has_number_key x : has_number s x → field_of x s = Some (JNum (key s x)).
Proof. intros [n Hn]. unfold key. by rewrite Hn. Qed.

Lemma has_number_not_null x : has_number s x → is_null x = false.
Proof. intros [n Hn]. by destruct x. Qed.

Lemma has_string_key x : has_string s x → field_of x s = Some (JStr (text_key s x)).
Proof. intros [t Ht]. unfold text_key. by rewrite Ht. Qed.

Lemma has_string_not_null x : has_string s x → is_null x = false.
Proof. intros [t Ht]. by destruct x. Qed.

Lemma compare_ascending x y :
  order s ≠ "desc" → has_number s x → has_number s y →
  (compare s x y = -1 ↔ key s x ≤ key s y) ∧ (compare s x y = 1 ↔ key s y < key s x).
Proof using Hlaw.
  intros Ho Hx Hy. unfold compare. rewrite decide_False by done.
  rewrite (has_number_key x), (has_number_key y), (js_gt_num R Hlaw) by done.
  case_bool_decide; split; split; (done || lia).
Qed.

Lemma compare_descending x y :
  order s = "desc" → has_number s x → has_number s y →
  (compare s x y = -1 ↔ key s y ≤ key s x) ∧ (compare s x y = 1 ↔ key s x < key s y).
Proof using Hlaw.
  intros Ho Hx Hy. unfold compare. rewrite decide_True by done.
  rewrite (has_number_key x), (has_number_key y), (js_gt_num R Hlaw) by done.
  case_bool_decide; split; split; (done || lia).
Qed.

Lemma compare_range x y : compare s x y = -1 ∨ compare s x y = 1.
Proof. unfold compare. repeat case_match; auto. Qed.

(** The comparator puts [x] before [y] exactly when they are in order. *)
Lemma compare_in_order x y : compare s x y < 0 ↔ in_order s x y.
Proof.
  unfold compare, in_order. case_decide.
  - destruct (js_gt (field_of y s) (field_of x s)); split; (done || lia).
  - destruct (js_gt (field_of x s) (field_of y s)); split; (done || lia).
Qed.

(** The comparator orders the records by the number in the field. *)
Lemma compare_by_key x y :
  has_number s x → has_number s y →
  compare s x y < 0 ↔
  if decide (order s = "desc") then key s y ≤ key s x else key s x ≤ key s y.
Proof using Hlaw.
  intros Hx Hy. destruct (compare_range x y) as [Hc|Hc]; case_decide.
  - destruct (compare_descending x y) as [[? ?] _]; try done. split; [auto|lia].
  - destruct (compare_ascending x y) as [[? ?] _]; try done. split; [auto|lia].
  - destruct (compare_descending x y) as [_ [? ?]]; try done. split; lia.
  - destruct (compare_ascending x y) as [_ [? ?]]; try done. split; lia.
Qed.

(** ... and by the string in the field. *)
Lemma in_order_by_text x y :
  has_string s x → has_string s y →
  in_order s x y ↔
  if decide (order s = "desc")
  then String.leb (text_key s y) (text_key s x) = true
  else String.leb (text_key s x) (text_key s y) = true.
Proof using Hlaw.
  intros Hx Hy. unfold in_order.
  rewrite (has_string_key x), (has_string_key y), !(js_gt_str R Hlaw) by done.
  case_decide; by rewrite string_ltb_false, string_leb_true.
Qed.

Lemma sort_by_returns l :
  (∀ x, x ∈ l → is_null x = false) →
  sort_if (Some s) l = Return (Array_sort (compare s) l).
Proof.
  intros Hnum. simpl. unfold sort_by.
  replace (existsb is_null l) with false; [by rewrite andb_false_r|].
  symmetry. apply not_true_is_false. intros Hex.
  apply existsb_exists in Hex as (x & Hx & Hnull).
  apply list_elem_of_In in Hx. by rewrite Hnum in Hnull.
Qed.

Lemma numbers_gt_orders l : (∀ x, x ∈ l → has_number s x) → gt_orders s l.
Proof using Hlaw.
  intros Hnum. split.
  - intros x y Hx Hy.
    rewrite (has_number_key x), (has_number_key y), !(js_gt_num R Hlaw) by auto.
    repeat case_bool_decide; (done || lia).
  - intros x y z Hx Hy Hz.
    rewrite (has_number_key x), (has_number_key y), (has_number_key z),
      !(js_gt_num R Hlaw) by auto.
    repeat case_bool_decide; (done || lia).
Qed.

Lemma strings_gt_orders l : (∀ x, x ∈ l → has_string s x) → gt_orders s l.
Proof using Hlaw.
  intros Hstr. split.
  - intros x y Hx Hy.
    rewrite (has_string_key x), (has_string_key y), !(js_gt_str R Hlaw) by auto.
    unfold String.ltb. rewrite (String.compare_antisym (text_key s x) (text_key s y)).
    by destruct (String.compare (text_key s y) (text_key s x)).
  - intros x y z Hx Hy Hz.
    rewrite (has_string_key x), (has_string_key y), (has_string_key z),
      !(js_gt_str R Hlaw) by auto.
    rewrite !string_ltb_false. intros Hyx Hzy. by apply (string_le_trans _ (text_key s y)).
Qed.

Lemma sorted_in_order l :
  gt_orders s l → StronglySorted (in_order s) (Array_sort (compare s) l).
Proof using Hlaw.
  intros [Hasym Htrans].
  apply (StronglySorted_weaken (λ x y, compare s x y < 0)).
  - intros x y _ _. apply compare_in_order.
  - apply (Array_sort_sorted R Hlaw).
    + intros x y Hx Hy. rewrite !compare_in_order. unfold in_order. case_decide.
      * destruct (js_gt (field_of y s) (field_of x s)) eqn:Hgt; [|by left].
        right. by apply Hasym.
      * destruct (js_gt (field_of x s) (field_of y s)) eqn:Hgt; [|by left].
        right. by apply Hasym.
    + intros x y z Hx Hy Hz. rewrite !compare_in_order. unfold in_order. case_decide.
      * intros Hyx Hzy. by apply (Htrans z y x).
      * by apply Htrans.
Qed.

Lemma sorted_by_key l :
  (∀ x, x ∈ l → has_number s x) →
  StronglySorted
    (λ x y, if decide (order s = "desc") then key s y ≤ key s x else key s x ≤ key s y)
    (Array_sort (compare s) l).
Proof using Hlaw.
  intros Hnum.
  apply (StronglySorted_weaken (λ x y, compare s x y < 0)).
  - intros x y Hx Hy. rewrite (Array_sort_perm R Hlaw) in Hx, Hy.
    apply compare_by_key; auto.
  - apply (Array_sort_sorted R Hlaw).
    + intros x y Hx Hy. rewrite !compare_by_key by auto. case_decide; lia.
    + intros x y z Hx Hy Hz. rewrite !compare_by_key by auto. case_decide; lia.
Qed.

Lemma sorted_by_text l :
  (∀ x, x ∈ l → has_string s x) →
  StronglySorted
    (λ x y, if decide (order s = "desc")
            then String.leb (text_key s y) (text_key s x) = true
            else String.leb (text_key s x) (text_key s y) = true)
    (Array_sort (compare s) l).
Proof using Hlaw.
  intros Hstr.
  apply (StronglySorted_weaken (in_order s)).
  - intros x y Hx Hy. rewrite (Array_sort_perm R Hlaw) in Hx, Hy.
    apply in_order_by_text; auto.
  - by apply sorted_in_order, strings_gt_orders.
Qed.

End SortFacts.


Lemma scores_have_numbers direction x :
  x ∈ Sample.three → has_number (Sample.by_score direction) x.
Proof.
  intros Hx. unfold has_number, field_of.
  set_unfold. destruct Hx as [E|[E|[E|[]]]]; subst x; eexists; reflexivity.
Defined.

Lemma ids_are_strings direction x :
  x ∈ Sample.three → has_string (mkSort "id" direction) x.
Proof.
  intros Hx. unfold has_string, field_of.
  set_unfold. destruct Hx as [E|[E|[E|[]]]]; subst x; eexists; reflexivity.
Defined.

Lemma three_not_null x : x ∈ Sample.three → is_null x = false.
Proof.
  intros Hx. set_unfold. destruct Hx as [E|[E|[E|[]]]]; subst x; reflexivity.
Defined.


(** ** The response handler of [chat] *)

Lemma get_truthy v k : truthy v = true → ∃ x, get v k = Return x.
Proof.
  intros Ht. destruct v as [[]|]; simpl in *; try done; eauto.
  - case_decide; eauto.
  - case_decide; eauto.
Qed.

(** With status 200 and a body that parses to something other than
    [null], the handler resolves with [message.content], whatever that is,
    or rejects with the format error. *)
Lemma on_end_200 `{JsRuntime} data response :
  JSON_parse data = Some response →
  is_null response = false →
  (∃ v, on_end 200 data = Resolved v)
  ∨ on_end 200 data = Rejected (new_Error "Invalid API response format").
Proof.
  intros Hparse Hnull. unfold on_end. rewrite Hparse.
  change (200 =? 200) with true. cbn [and_then negb].
  assert (∃ choices, get (Some response) "choices" = Return choices) as [choices ->].
  { destruct response; simpl in *; try done; eauto; case_decide; eauto. }
  cbn [and_then]. destruct (truthy choices) eqn:Hc; cbn [and_then].
  2: { rewrite Hc. cbn [and_then]. rewrite Hc. by right. }
  destruct (get_truthy choices "0" Hc) as [first ->]. cbn [and_then].
  destruct (truthy first) eqn:Hf; cbn [and_then].
  2: { rewrite Hf. by right. }
  destruct (get_truthy first "message" Hf) as [message ->]. cbn [and_then].
  destruct (truthy message) eqn:Hm; [|by right].
  destruct (get_truthy message "content" Hm) as [content ->]. cbn [and_then].
  left. eauto.
Qed.

(** C8 fails on the code: the handler tests [choices], [choices[0]] and
    [message] but not [content].  With status 200 and a body whose first
    completion has a message without [content], [chat] resolves with
    [undefined]; with [content: null] it resolves with [null]; and the
    JSON text [null] is rejected with the parse error, not the format
    error.  A message with a text resolves with the text. *)
Theorem chat_resolves_without_content :
  on_end 200 Sample.without_content = Resolved undefined
  ∧ on_end 200 Sample.null_content = Resolved (Some JNull)
  ∧ on_end 200 Sample.null_body
    = Rejected (new_Error
        "Failed to parse API response: Cannot read properties of null (reading 'choices')")
  ∧ on_end 200 (Sample.with_content "Hello") = Resolved (Some (JStr "Hello")).
Proof. repeat split; vm_compute; reflexivity. Qed.

(** ** The bodies of the error responses *)

Lemma get_throws_TypeError v k :
  match get v k with
  | Return _ => True
  | Throw e => error_name e = "TypeError"
  | Pending => False
  end.
Proof. destruct v as [[]|]; simpl; try done; case_decide; done. Qed.

Lemma get_not_null v k : is_null v = false → ∃ x, get (Some v) k = Return x.
Proof. destruct v; simpl; try done; eauto; case_decide; eauto. Qed.

Lemma messages_throw_TypeError l :
  match map_completion (λ e, m <~ get (Some e) "message" ;; Return (json_or_null m)) l with
  | Return _ => True
  | Throw e => error_name e = "TypeError"
  | Pending => False
  end.
Proof.
  induction l as [|x l IH]; cbn [map_completion and_then]; [done|].
  pose proof (get_throws_TypeError (Some x) "message") as Hx.
  destruct (get (Some x) "message"); cbn [and_then]; try done.
  destruct (map_completion _ l); cbn [and_then]; done.
Qed.

Lemma errorHandler_body NODE_ENV err w :
  match (errorHandler NODE_ENV err w).1 with
  | Return r => ∃ message errors, body r = error_body message errors
  | Throw e => error_name e = "TypeError"
  | Pending => False
  end.
Proof.
  unfold errorHandler, bind, console_error, lift. cbn [fst].
  destruct (is_null err) eqn:Hnull; [by destruct err|].
  destruct (get_not_null err "statusCode" Hnull) as [statusCode0 ->].
  destruct (get_not_null err "message" Hnull) as [message0 ->].
  destruct (get_not_null err "errors" Hnull) as [errors0 ->].
  destruct (get_not_null err "name" Hnull) as [name ->].
  destruct (get_not_null err "status" Hnull) as [status_ Hstatus].
  cbn [and_then].
  destruct (same_string name "ValidationError").
  - pose proof (messages_throw_TypeError (Object_values (or_else errors0 (JObj [])))) as Hm.
    destruct (map_completion _ _); cbn [and_then]; try done.
    rewrite Hstatus. cbn [and_then].
    repeat case_match; simplify_eq; simpl; unfold error_body; eauto.
  - cbn [and_then]. rewrite Hstatus. cbn [and_then].
    repeat case_match; simplify_eq; simpl; unfold error_body; eauto.
Qed.

Lemma body_kind_success (b : json) :
  body_kind b = Some true →
  ∃ data message,
    b = JObj [("success", JBool true); ("data", JObj data);
              ("message", JStr message); ("errors", JArr [])].
Proof.
  unfold body_kind. intros Hkind.
  repeat (case_match; try discriminate).
  all: case_bool_decide; [|discriminate]; simplify_eq; eauto.
Qed.

Lemma strings_only (l : list json) :
  forallb is_string l = true → ∃ texts : list string, l = JStr <$> texts.
Proof.
  induction l as [|x l IH]; intros Hall; [by exists []|].
  simpl in Hall. apply andb_true_iff in Hall as [Hx Hl].
  destruct (IH Hl) as [texts ->]. destruct x; try done.
  by eexists (_ :: texts).
Qed.

Lemma body_kind_error (b : json) :
  body_kind b = Some false →
  ∃ message errors, b = error_body (JStr message) (JArr (JStr <$> errors)).
Proof.
  unfold body_kind, error_body. intros Hkind.
  repeat (case_match; try discriminate).
  all: match goal with
       | H : _ && _ = true |- _ => apply andb_true_iff in H as [Hkeys Hstrings]
       | _ => idtac
       end;
       try (case_bool_decide; discriminate).
  all: apply bool_decide_eq_true in Hkeys; apply strings_only in Hstrings as [texts ->];
       simplify_eq; eauto.
Qed.

Lemma responses_shaped (e : scope) : forallb (shaped e) responses = true.
Proof. vm_compute. reflexivity. Qed.



(** ** The steps of [write] on the disk *)

Lemma touches_only_refl p w : touches_only p w w.
Proof. split; [by exists []|done]. Qed.

Lemma touches_only_trans p w1 w2 w3 :
  touches_only p w1 w2 → touches_only p w2 w3 → touches_only p w1 w3.
Proof.
  intros ((s1 & Ht1 & Hs1) & Hf1 & Hl1 & Hfa1 & Hc1)
         ((s2 & Ht2 & Hs2) & Hf2 & Hl2 & Hfa2 & Hc2).
  split; [|repeat split; try congruence].
  - exists (s2 ++ s1). split; [by rewrite Ht2, Ht1, app_assoc|].
    apply Forall_app. split; [|done].
    eapply Forall_impl; [exact Hs2|]. intros d Hd q Hq. simpl in Hd.
    by rewrite Hd, Hf1.
  - intros q Hq. by rewrite Hf2, Hf1.
Qed.

Lemma touches_only_log p line w : touches_only p w (log_line line w).
Proof. split; [by exists []|done]. Qed.

Lemma record_states_touches p s n w :
  touches_only p w (record_states (writing_states (files w) p s n) w).
Proof.
  rewrite record_states_eq, writing_states_last.
  split; [|split].
  - cbn [disk_trace]. eexists. split; [done|]. apply Forall_rev, writing_states_other.
  - simpl. intros q Hq. by rewrite lookup_insert_ne.
  - done.
Qed.

Lemma writeFileSync_touches p s w :
  touches_only p w (fs_writeFileSync p s w).2
  ∧ ((fs_writeFileSync p s w).1 = Return tt
     ∧ files (fs_writeFileSync p s w).2 !! p = Some s
     ∧ writeFileSync_outcome (faults w) = write_completes
     ∨ (∃ e, (fs_writeFileSync p s w).1 = Throw e)
       ∧ writeFileSync_outcome (faults w) ≠ write_completes).
Proof.
  unfold fs_writeFileSync.
  destruct (writeFileSync_outcome (faults w)) as [| |n] eqn:Hw; cbn [fst snd].
  - split; [apply record_states_touches|]. left. split; [done|]. split; [|done].
    rewrite record_states_eq, writing_states_last, substring_all.
    simpl. apply lookup_insert_eq.
  - split; [apply touches_only_refl|]. right. eauto.
  - split; [apply record_states_touches|]. right. eauto.
Qed.

Lemma unlinkSync_touches p w :
  touches_only p w (fs_unlinkSync p w).2
  ∧ (unlinkSync_fails (faults w) = false → is_Some (files w !! p) →
     (fs_unlinkSync p w).1 = Return tt ∧ files (fs_unlinkSync p w).2 !! p = None)
  ∧ ((fs_unlinkSync p w).1 = Return tt ∨ ∃ e, (fs_unlinkSync p w).1 = Throw e).
Proof.
  unfold fs_unlinkSync.
  destruct (unlinkSync_fails (faults w)); cbn [fst snd].
  { split; [apply touches_only_refl|]. split; [done|]. right. eauto. }
  destruct (files w !! p) as [text|] eqn:Hp; cbn [fst snd].
  - split; [|split].
    + split; [|split]; cbn [disk_trace files fileLocks faults clock set_files].
      * exists [delete p (files w)]. split; [done|]. constructor; [|done].
        intros q Hq. by rewrite lookup_delete_ne.
      * intros q Hq. by rewrite lookup_delete_ne.
      * done.
    + intros _ _. split; [done|]. apply lookup_delete_eq.
    + by left.
  - split; [apply touches_only_refl|]. split; [by intros _ [? ?]|]. right. eauto.
Qed.

Section WriteAtomic.
Context `{JsRuntime}.

Lemma write_catch_spec filename tempPath e w :
  ∃ e' w', write_catch filename tempPath e w = (Throw e', w')
           ∧ touches_only tempPath w w'
           ∧ (unlinkSync_fails (faults w) = false →
              e' = e ∧ files w' !! tempPath = None).
Proof.
  unfold write_catch, bind, console_error, fs_existsSync, throw, ret.
  set (w1 := log_line (writing_error filename) w).
  assert (touches_only tempPath w w1) as T1 by apply touches_only_log.
  destruct (files w1 !! tempPath) as [text|] eqn:Hp.
  - rewrite bool_decide_true by eauto.
    pose proof (unlinkSync_touches tempPath w1) as (T2 & Hok & Hres).
    destruct (fs_unlinkSync tempPath w1) as [r w2]. cbn [fst snd] in *.
    destruct Hres as [-> | [e2 ->]].
    + exists e, w2. split; [done|]. split; [exact (touches_only_trans _ _ _ _ T1 T2)|].
      intros Hu. split; [done|]. apply Hok; [exact Hu|eauto].
    + exists e2, w2. split; [done|]. split; [exact (touches_only_trans _ _ _ _ T1 T2)|].
      intros Hu. destruct Hok as [Hr _]; [exact Hu|eauto|done].
  - rewrite bool_decide_false by (by intros [? ?]).
    exists e, w1. split; [done|]. split; [done|]. by intros _.
Qed.

Lemma write_locked_atomic filename filepath tempPath data w :
  tempPath ≠ filepath →
  let text := JSON_stringify data in
  let old := files w !! filepath in
  let r := (write_locked filename filepath tempPath data w).1 in
  let w' := (write_locked filename filepath tempPath data w).2 in
  (∃ states, disk_trace w' = states ++ disk_trace w
             ∧ Forall (λ d, d !! filepath = old ∨ d !! filepath = Some text) states)
  ∧ fileLocks w' = delete filename (fileLocks w)
  ∧ faults w' = faults w
  ∧ (r = Return tt
     ∧ files w' !! filepath = Some text
     ∧ files w' !! tempPath = None
     ∧ writeFileSync_outcome (faults w) = write_completes
     ∧ renameSync_fails (faults w) = false
     ∨ (∃ e, r = Throw e)
       ∧ files w' !! filepath = old
       ∧ (writeFileSync_outcome (faults w) ≠ write_completes
          ∨ renameSync_fails (faults w) = true)
       ∧ (unlinkSync_fails (faults w) = false →
          files w' !! tempPath = None
          ∧ (writeFileSync_outcome (faults w) ≠ write_completes →
             r = (fs_writeFileSync tempPath text w).1))).
Proof.
  intros Hne text old r w'. subst r w'.
  unfold write_locked, try_finally, try_catch, bind, releaseLock.
  pose proof (writeFileSync_touches tempPath text w) as [T1 O1].
  fold text. destruct (fs_writeFileSync tempPath text w) as [r1 w1] eqn:Hwrite.
  cbn [fst snd] in *.
  assert (∀ e w0, touches_only tempPath w w0 →
            let '(e', w2) :=
              match write_catch filename tempPath e w0 with
              | (Throw e', w2) => (e', w2)
              | (_, w2) => (e, w2)
              end in
            write_catch filename tempPath e w0 = (Throw e', w2)
            ∧ touches_only tempPath w w2
            ∧ (unlinkSync_fails (faults w) = false →
               e' = e ∧ files w2 !! tempPath = None))
    as Hcatch.
  { intros e w0 T0.
    destruct (write_catch_spec filename tempPath e w0) as (e' & w2 & -> & T2 & Hu).
    split; [done|]. split; [exact (touches_only_trans _ _ _ _ T0 T2)|].
    destruct T0 as (_ & _ & _ & Hfa & _). rewrite <- Hfa. exact Hu. }
  assert (∀ w2, touches_only tempPath w w2 →
            ∃ states, disk_trace w2 = states ++ disk_trace w
                      ∧ Forall (λ d, d !! filepath = old ∨ d !! filepath = Some text) states)
    as Htrace.
  { intros w2 ((states & Ht & Hs) & _). exists states. split; [done|].
    eapply Forall_impl; [exact Hs|]. intros d Hd. left. by apply Hd. }
  destruct O1 as [(-> & Hf1 & Hc) | ([e ->] & Hc)].
  - unfold fs_renameSync.
    destruct T1 as (Htr1 & Hfr1 & Hl1 & Hfa1 & Hc1).
    rewrite Hfa1. destruct (renameSync_fails (faults w)) eqn:Hr.
    + specialize (Hcatch (SystemError "EPERM") w1
                    (conj Htr1 (conj Hfr1 (conj Hl1 (conj Hfa1 Hc1))))).
      destruct (write_catch filename tempPath (SystemError "EPERM") w1) as [[| |] w2];
        destruct Hcatch as (Heq & T2 & Hu); try done.
      cbn [fst snd set_fileLocks disk_trace fileLocks faults files].
      split; [by apply Htrace|].
      destruct T2 as (_ & Hf2 & Hl2 & Hfa2 & _).
      split; [by rewrite Hl2|]. split; [done|].
      right. split; [eauto|]. split; [by apply Hf2|]. split; [by right|].
      intros Hu'. split; [by apply Hu|done].
    + rewrite Hf1. cbn [fst snd set_fileLocks set_files disk_trace fileLocks faults files].
      split; [|split; [by rewrite Hl1|split; [done|]]].
      * destruct Htr1 as (states & -> & Hs).
        exists (<[filepath:=text]> (delete tempPath (files w1)) :: states).
        split; [done|]. constructor.
        -- right. apply lookup_insert_eq.
        -- eapply Forall_impl; [exact Hs|]. intros d Hd. left. by apply Hd.
      * left. split; [done|]. split; [apply lookup_insert_eq|].
        split; [|done]. rewrite lookup_insert_ne by done. apply lookup_delete_eq.
  - specialize (Hcatch e w1 T1).
    destruct (write_catch filename tempPath e w1) as [[| |] w2];
      destruct Hcatch as (Heq & T2 & Hu); try done.
    cbn [fst snd set_fileLocks disk_trace fileLocks faults files].
    split; [by apply Htrace|].
    destruct T2 as (_ & Hf2 & Hl2 & Hfa2 & _).
    split; [by rewrite Hl2|]. split; [done|].
    right. split; [eauto|]. split; [by apply Hf2|]. split; [by left|].
    intros Hu'. destruct (Hu Hu') as [-> ?]. done.
Qed.

End WriteAtomic.

(** C2: [write], with no other write in flight, changes the file of the
    collection in one step only, the rename.  In every state the disk goes
    through during the call (a crash can leave any of them behind) and in
    the final one, the collection's file holds either exactly what it held
    before or exactly the new text [JSON.stringify(data, null, 2)]; a
    reader at such a state gets what it would get before the write or
    after the completed one.  If writing the temporary file fails (and
    removing it does not), [write] throws that same error, the temporary
    file is gone, the collection's file is what it was and the lock is
    released.  With no failing call, [write] returns, the collection's
    file holds the new text and no temporary file is left; the last two
    states of the disk are the temporary file holding the complete new
    text, then the rename. *)
Theorem write_is_atomic `{JsRuntime} (filename : string) (data : json) (w : world) :
  unlocked filename w →
  let filepath := path_join DATA_DIR filename in
  let tempPath := temp_path filepath (clock w) in
  let text := JSON_stringify data in
  let old := files w !! filepath in
  let r := (write filename data w).1 in
  let w' := (write filename data w).2 in
  (∃ states,
     disk_trace w' = states ++ disk_trace w
     ∧ Forall (λ d, d !! filepath = old ∨ d !! filepath = Some text) (files w' :: states)
     ∧ ∀ d reader defaultValue, d ∈ files w' :: states →
         (read filename defaultValue (at_disk d reader)).1
         = (read filename defaultValue (at_disk (files w) reader)).1
         ∨ (read filename defaultValue (at_disk d reader)).1
           = (read filename defaultValue
                (at_disk (<[filepath := text]> (files w)) reader)).1)
  ∧ (writeFileSync_outcome (faults w) ≠ write_completes →
     unlinkSync_fails (faults w) = false →
     (∃ e, r = Throw e ∧ (fs_writeFileSync tempPath text w).1 = Throw e)
     ∧ files w' !! tempPath = None
     ∧ files w' !! filepath = old
     ∧ unlocked filename w')
  ∧ (faults w = no_faults →
     r = Return tt
     ∧ files w' !! filepath = Some text
     ∧ files w' !! tempPath = None
     ∧ unlocked filename w'
     ∧ ∃ earlier,
         disk_trace w'
         = <[filepath := text]> (delete tempPath (<[tempPath := text]> (files w)))
           :: <[tempPath := text]> (files w) :: earlier).
Proof.
  intros Hlock filepath tempPath text old r w'. subst r w'.
  assert (faults w = no_faults →
          ∃ earlier,
            disk_trace (write filename data w).2
            = <[filepath := text]> (delete tempPath (<[tempPath := text]> (files w)))
              :: <[tempPath := text]> (files w) :: earlier) as Hshape.
  { intros Hnone. rewrite write_ok by (done || by rewrite Hnone).
    cbn [snd written disk_trace files set_fileLocks]. fold filepath tempPath text.
    unfold writing_states. rewrite seq_S, fmap_app, rev_app_distr. simpl.
    rewrite substring_all. eauto. }
  revert Hshape.
  unfold write, bind, Date_now. rewrite acquireLock_free by done.
  fold filepath tempPath.
  set (wl := set_fileLocks (<[filename:=true]> (fileLocks w)) w).
  pose proof (write_locked_atomic filename filepath tempPath data wl
                (temp_path_fresh filepath (clock w)))
    as ((states & Htrace & Hstates) & Hlocks & Hfaults & Hcases).
  cbn zeta in Hcases. fold text in Hstates, Hcases.
  change (files wl) with (files w) in *. change (faults wl) with (faults w) in *.
  change (disk_trace wl) with (disk_trace w) in *.
  change (fileLocks wl) with (<[filename:=true]> (fileLocks w)) in *.
  assert ((fs_writeFileSync tempPath text wl).1 = (fs_writeFileSync tempPath text w).1)
    as Hsame.
  { unfold fs_writeFileSync. change (faults wl) with (faults w).
    by destruct (writeFileSync_outcome (faults w)). }
  rewrite Hsame in Hcases. clear Hsame.
  fold old in Hstates, Hcases.
  destruct (write_locked filename filepath tempPath data wl) as [r w'].
  cbn [fst snd] in *. intros Hshape.
  assert (unlocked filename w') as Hunlocked.
  { unfold unlocked. by rewrite Hlocks, lookup_delete_eq. }
  assert (files w' !! filepath = old ∨ files w' !! filepath = Some text) as Hfinal.
  { destruct Hcases as [(_ & ? & _)|(_ & ? & _)]; auto. }
  split; [|split].
  - exists states. split; [done|]. split; [by constructor|].
    intros d reader defaultValue Hd.
    assert (d !! filepath = old ∨ d !! filepath = Some text) as [Hold|Hnew].
    { apply elem_of_cons in Hd as [->|Hd]; [done|].
      by eapply Forall_forall in Hstates. }
    + left. apply read_depends; [exact Hold|done].
    + right. apply read_depends; [|done].
      change (d !! filepath = <[filepath:=text]> (files w) !! filepath).
      by rewrite lookup_insert_eq.
  - intros Hw Hu.
    destruct Hcases as [(_ & _ & _ & Hc & _)|([e ->] & Hcanon & _ & Hclean)]; [done|].
    destruct (Hclean Hu) as [Htemp Herr].
    split; [|done]. exists e. split; [done|]. symmetry. by apply Herr.
  - intros Hnone.
    destruct Hcases as [(-> & Hcanon & Htemp & _)|(_ & _ & [Hc|Hc] & _)]; [auto 10| |].
    + by rewrite Hnone in Hc.
    + by rewrite Hnone in Hc.
Qed.

Lemma write_is_atomic_witness :
  let data := JArr [Sample.lesson "d" 7] in
  let filepath := path_join DATA_DIR "lessons.json" in
  let broken :=
    at_disk (files (Sample.world_with "lessons.json" Sample.three))
      (initial_world ∅ 1700000000000%N
         (mkFaults false (write_fails_after 5) false false)) in
  ((write "lessons.json" data broken).1 = Throw (SystemError "ENOSPC")
   ∧ files (write "lessons.json" data broken).2 !! filepath
     = Some (Reference.stringify (JArr Sample.three))
   ∧ files (write "lessons.json" data broken).2
       !! temp_path filepath 1700000000000%N = None)
  ∧ (let w := Sample.world_with "lessons.json" Sample.three in
     (write "lessons.json" data w).1 = Return tt
     ∧ files (write "lessons.json" data w).2 !! filepath
       = Some (Reference.stringify data)).
Proof.
  intros data filepath broken. split.
  - destruct (write_is_atomic "lessons.json" data broken eq_refl)
      as (_ & Hfail & _).
    destruct Hfail as ((e & Hr & He) & Htemp & Hcanon & _); [done|done|].
    split; [|split].
    + etrans; [exact Hr|]. f_equal. vm_compute in He. by injection He.
    + etrans; [exact Hcanon|]. vm_compute. reflexivity.
    + exact Htemp.
  - intros w.
    destruct (write_is_atomic "lessons.json" data w eq_refl) as (_ & _ & Hok).
    destruct Hok as (Hr & Hcanon & _); [reflexivity|].
    split; [exact Hr|exact Hcanon].
Defined.

(** ** Concurrent calls of [insert] *)

(** C1 as stated fails: the lock covers the write, not the read before it.
    Two calls of [insert] started together on an empty collection both
    read the empty collection before either writes; both succeed, and the
    collection ends with one record, the second call's.  Twenty calls end
    the same way, with the record of the last call. *)
Lemma concurrent_inserts_lose_updates :
  (let s := run [0; 1; 0; 1; 0; 0; 1; 1; 1]%nat (Sample.inserts 2) in
   sys_tasks s = [Settled (Return (Sample.lesson "0" 0));
                  Settled (Return (Sample.lesson "1" 1))]
   ∧ stored s "lessons.json" = Return (JArr [Sample.lesson "1" 1]))
  ∧ (let s := run (node_schedule 20) (Sample.inserts 20) in
     all_settled s = true
     ∧ stored s "lessons.json" = Return (JArr [Sample.lesson "19" 19])).
Proof. split; split; vm_compute; reflexivity. Qed.

Lemma count_insert P l i t t' :
  l !! i = Some t →
  (count P (<[i:=t']> l) + (if P t then 1 else 0)
   = count P l + (if P t' then 1 else 0))%nat.
Proof.
  revert i. induction l as [|x l IH]; intros i Hi; [done|].
  destruct i as [|i]; simpl in *.
  - injection Hi as ->. lia.
  - specialize (IH i Hi). lia.
Qed.

Lemma count_le_length P l : (count P l ≤ length l)%nat.
Proof. induction l as [|x l IH]; simpl; [done|]. destruct (P x); lia. Qed.

Lemma count_pos P l :
  (0 < count P l)%nat → ∃ i t, l !! i = Some t ∧ P t = true.
Proof.
  induction l as [|x l IH]; simpl; [lia|]. intros Hpos.
  destruct (P x) eqn:Hx.
  - by exists 0%nat, x.
  - destruct IH as (i & t & Hi & Ht); [lia|]. by exists (S i), t.
Qed.

Lemma total_remaining_insert l i t t' :
  l !! i = Some t →
  (total_remaining (<[i:=t']> l) + remaining t = total_remaining l + remaining t')%nat.
Proof.
  revert i. induction l as [|x l IH]; intros i Hi; [done|].
  destruct i as [|i]; simpl in *.
  - injection Hi as ->. lia.
  - specialize (IH i Hi). lia.
Qed.

Lemma total_remaining_pos l :
  (0 < total_remaining l)%nat → ∃ i t, l !! i = Some t ∧ (0 < remaining t)%nat.
Proof.
  induction l as [|x l IH]; simpl; [lia|]. intros Hpos.
  destruct (decide (0 < remaining x)%nat) as [Hx|Hx].
  - by exists 0%nat, x.
  - destruct IH as (i & t & Hi & Ht); [lia|]. by exists (S i), t.
Qed.

Lemma all_settled_remaining l :
  forallb is_settled l = true ↔ total_remaining l = 0%nat.
Proof.
  induction l as [|t l IH]; simpl; [done|].
  rewrite andb_true_iff, IH. destruct t; simpl; split; (lia || intros [? ?]; done || auto).
Qed.

Section ConcurrentInserts.
Context `{JsRuntime}.
Variables (filename : string) (items : list json).
Hypothesis Hrt :
  ∀ l, (∀ x, x ∈ l → x ∈ items) → (length l ≤ length items)%nat → round_trips (JArr l).

Lemma bounded_mono k k' l : bounded items k l → (k ≤ k')%nat → bounded items k' l.
Proof. intros [Hlen Hin] Hk. split; [lia|done]. Qed.

Lemma task_ok_mono k k' item t :
  task_ok filename items k item t → (k ≤ k')%nat → task_ok filename items k' item t.
Proof.
  intros Hok Hk. destruct t; simpl in *; try done.
  - destruct Hok as (? & ? & l & ? & ?). eauto 10 using bounded_mono.
  - destruct Hok as (? & ? & ? & l & ? & ?). eauto 10 using bounded_mono.
  - destruct Hok as (? & ? & ? & l & ? & ?). eauto 10 using bounded_mono.
Qed.

(** A task moves on without touching the world or the counts. *)
Lemma invariant_resume w tasks i t t' item :
  invariant filename items (mkSystem w tasks) →
  tasks !! i = Some t → items !! i = Some item →
  holds_lock t' = holds_lock t → has_written t' = has_written t →
  task_ok filename items (count has_written tasks) item t' →
  invariant filename items (mkSystem w (<[i:=t']> tasks)).
Proof.
  intros [Hfaults Hlen Hlock Hfile Htasks] Hi Hitem Hhl Hhw Hok. simpl in *.
  pose proof (count_insert holds_lock tasks i t t' Hi) as Hc1.
  pose proof (count_insert has_written tasks i t t' Hi) as Hc2.
  rewrite Hhl in Hc1. rewrite Hhw in Hc2.
  assert (count holds_lock (<[i:=t']> tasks) = count holds_lock tasks) as Hl' by lia.
  assert (count has_written (<[i:=t']> tasks) = count has_written tasks) as Hw' by lia.
  constructor; simpl.
  - done.
  - by rewrite length_insert.
  - by rewrite Hl'.
  - by rewrite Hw'.
  - intros j u Hj. rewrite Hw'. destruct (decide (i = j)) as [->|Hne].
    + rewrite list_lookup_insert_eq in Hj by (by eapply lookup_lt_Some).
      injection Hj as <-. eauto.
    + rewrite list_lookup_insert_ne in Hj by done. eauto.
Qed.

(** A task takes the free lock. *)
Lemma invariant_acquire w tasks i t item fp tp data :
  invariant filename items (mkSystem w tasks) →
  tasks !! i = Some t → items !! i = Some item →
  holds_lock t = false → has_written t = false →
  unlocked filename w →
  task_ok filename items (count has_written tasks) item
    (AwaitingLock filename fp tp item data) →
  invariant filename items
    (mkSystem (set_fileLocks (<[filename:=true]> (fileLocks w)) w)
       (<[i:=AwaitingLock filename fp tp item data]> tasks)).
Proof.
  intros [Hfaults Hlen Hlock Hfile Htasks] Hi Hitem Hhl Hhw Hfree Hok. simpl in *.
  pose proof (count_insert holds_lock tasks i t
                (AwaitingLock filename fp tp item data) Hi) as Hc1.
  pose proof (count_insert has_written tasks i t
                (AwaitingLock filename fp tp item data) Hi) as Hc2.
  rewrite Hhl in Hc1. rewrite Hhw in Hc2. simpl in Hc1, Hc2.
  unfold unlocked in Hfree. rewrite Hfree in Hlock.
  set (tasks' := <[i:=AwaitingLock filename fp tp item data]> tasks) in *.
  assert (count has_written tasks' = count has_written tasks) as Hw' by lia.
  constructor; simpl.
  - done.
  - subst tasks'. by rewrite length_insert.
  - rewrite lookup_insert_eq. simpl. lia.
  - by rewrite Hw'.
  - intros j u Hj. rewrite Hw'. subst tasks'. destruct (decide (i = j)) as [->|Hne].
    + rewrite list_lookup_insert_eq in Hj by (by eapply lookup_lt_Some).
      injection Hj as <-. eauto.
    + rewrite list_lookup_insert_ne in Hj by done. eauto.
Qed.

(** The task that holds the lock writes and releases it. *)
Lemma invariant_write w tasks i item tp l :
  invariant filename items (mkSystem w tasks) →
  tasks !! i
  = Some (AwaitingLock filename (path_join DATA_DIR filename) tp item (JArr (l ++ [item]))) →
  items !! i = Some item →
  bounded items (count has_written tasks) l →
  invariant filename items
    (mkSystem
       (written filename (path_join DATA_DIR filename) tp (JArr (l ++ [item])) w)
       (<[i:=AwaitingWrite item (Return tt)]> tasks)).
Proof.
  intros [Hfaults Hlen Hlock Hfile Htasks] Hi Hitem [Hbl Hbin]. simpl in *.
  pose proof (count_insert holds_lock tasks i _ (AwaitingWrite item (Return tt)) Hi) as Hc1.
  pose proof (count_insert has_written tasks i _ (AwaitingWrite item (Return tt)) Hi) as Hc2.
  simpl in Hc1, Hc2.
  set (tasks' := <[i:=AwaitingWrite item (Return tt)]> tasks) in *.
  assert (count has_written tasks' = S (count has_written tasks)) as Hw' by lia.
  assert (count holds_lock tasks' = 0%nat) as Hl'
    by (destruct (truthy_lock (fileLocks w !! filename)); lia).
  constructor; simpl.
  - done.
  - subst tasks'. by rewrite length_insert.
  - by rewrite lookup_delete_eq.
  - rewrite lookup_insert_eq. exists (l ++ [item]). split; [done|].
    rewrite Hw'. split; [split|]; rewrite ?length_app; simpl; [lia| |lia].
    intros x [Hx|Hx]%elem_of_app; [auto|].
    apply list_elem_of_singleton in Hx as ->. by eapply list_elem_of_lookup_2.
  - intros j u Hj. rewrite Hw'. subst tasks'. destruct (decide (i = j)) as [->|Hne].
    + rewrite list_lookup_insert_eq in Hj by (by eapply lookup_lt_Some).
      injection Hj as <-. exists item. done.
    + rewrite list_lookup_insert_ne in Hj by done.
      destruct (Htasks j u Hj) as (it & Hit & Hok). exists it. split; [done|].
      eapply task_ok_mono; [exact Hok|lia].
Qed.

(** What a call reads. *)
Lemma read_under_invariant w tasks :
  invariant filename items (mkSystem w tasks) →
  ∃ l, read filename (JArr []) w = (Return (JArr l), w)
       ∧ bounded items (count has_written tasks) l.
Proof.
  intros [Hfaults Hlen Hlock Hfile Htasks]. simpl in *.
  rewrite read_unfold, Hfaults. simpl.
  destruct (files w !! path_join DATA_DIR filename) as [text|].
  - destruct Hfile as (l & -> & [Hbl Hbin] & _).
    pose proof (count_le_length has_written tasks) as Hcount.
    rewrite (Hrt l) by (done || lia). exists l. split; [done|]. by split.
  - exists []. split; [done|]. split; [simpl; lia|]. by intros x ?%elem_of_nil.
Qed.

End ConcurrentInserts.

Section ConcurrentRuns.
Context `{JsRuntime}.
Variables (filename : string) (items : list json).
Hypothesis Hrt :
  ∀ l, (∀ x, x ∈ l → x ∈ items) → (length l ≤ length items)%nat → round_trips (JArr l).

(** One piece of one task: the invariant is kept, the task does not move
    backwards, and it moves forwards if it holds the lock or the lock is
    free. *)
Lemma step_task_spec i w tasks t :
  invariant filename items (mkSystem w tasks) →
  tasks !! i = Some t →
  ∃ t' w', step_task t w = (t', w')
    ∧ invariant filename items (mkSystem w' (<[i:=t']> tasks))
    ∧ (remaining t' ≤ remaining t)%nat
    ∧ ((0 < remaining t)%nat → holds_lock t = true ∨ unlocked filename w →
       (remaining t' < remaining t)%nat).
Proof.
  intros Hinv Hi.
  destruct (inv_tasks _ _ _ Hinv i t Hi) as (item & Hitem & Hok). simpl in Hok.
  assert (∀ fp tp l,
            fp = path_join DATA_DIR filename →
            bounded items (count has_written tasks) l →
            holds_lock t = false → has_written t = false →
            (2 < remaining t)%nat →
            ∃ t' w', poll_lock filename fp tp item (JArr (l ++ [item])) w = (t', w')
              ∧ invariant filename items (mkSystem w' (<[i:=t']> tasks))
              ∧ (remaining t' ≤ 3)%nat
              ∧ (unlocked filename w → remaining t' = 2%nat)) as Hpoll.
  { intros fp tp l -> Hb Hhl Hhw Hrem. unfold poll_lock, acquireLock.
    destruct (truthy_lock (fileLocks w !! filename)) eqn:Hl.
    - eexists _, _. split; [done|]. split; [|split; [simpl; lia|]].
      + eapply invariant_resume; try done. simpl. eauto 10.
      + unfold unlocked. congruence.
    - eexists _, _. split; [done|]. split; [|split; [simpl; lia|done]].
      eapply invariant_acquire; try done. simpl. eauto 10. }
  destruct t; simpl in Hok.
  - destruct Hok as [-> ->].
    destruct (read_under_invariant filename items Hrt w tasks Hinv) as (l & Hread & Hb).
    eexists _, _. simpl. rewrite Hread. split; [done|].
    split; [|split; simpl; lia].
    eapply invariant_resume; try done. simpl. eauto 10.
  - destruct Hok as (-> & -> & l & -> & Hb). simpl.
    destruct (Hpoll (path_join DATA_DIR filename)
                (temp_path (path_join DATA_DIR filename) (clock w)) l)
      as (t' & w' & Hp & Hinv' & Hr1 & Hr2); try done; [simpl; lia|].
    exists t', w'. split; [done|]. split; [done|]. split; [simpl; lia|].
    intros _ [?|Hfree]; [done|]. rewrite Hr2 by done. simpl. lia.
  - destruct Hok as (-> & -> & -> & l & -> & Hb). simpl.
    destruct (Hpoll (path_join DATA_DIR filename) tempPath l)
      as (t' & w' & Hp & Hinv' & Hr1 & Hr2); try done; [simpl; lia|].
    exists t', w'. split; [done|]. split; [done|]. split; [simpl; lia|].
    intros _ [?|Hfree]; [done|]. rewrite Hr2 by done. simpl. lia.
  - destruct Hok as (-> & -> & -> & l & -> & Hb). simpl.
    pose proof (inv_faults _ _ _ Hinv) as Hfaults. simpl in Hfaults.
    rewrite write_locked_ok by (by rewrite Hfaults).
    eexists _, _. split; [done|]. split; [|split; simpl; lia].
    by apply invariant_write.
  - destruct Hok as [-> ->]. simpl.
    eexists _, _. split; [done|]. split; [|split; simpl; lia].
    eapply invariant_resume; try done.
  - simpl. eexists _, _. split; [done|]. split; [|split; simpl; lia].
    eapply invariant_resume; try done.
Qed.

Lemma step_invariant i s :
  invariant filename items s → invariant filename items (step i s).
Proof.
  intros Hinv. destruct s as [w tasks]. unfold step. simpl.
  destruct (tasks !! i) as [t|] eqn:Hi; [|done].
  destruct (step_task_spec i w tasks t Hinv Hi) as (t' & w' & -> & Hinv' & _).
  done.
Qed.

Lemma run_invariant schedule s :
  invariant filename items s → invariant filename items (run schedule s).
Proof.
  revert s. induction schedule as [|i schedule IH]; intros s Hinv; [done|].
  simpl. apply IH. by apply step_invariant.
Qed.

Lemma count_Called (P : task → bool) (l : list json) :
  (∀ item, P (Called filename item) = false) →
  count P (Called filename <$> l) = 0%nat.
Proof.
  intros HP. induction l as [|x l IH]; csimpl; [done|]. by rewrite HP, IH.
Qed.

Lemma initial_invariant w0 :
  faults w0 = no_faults →
  unlocked filename w0 →
  files w0 !! path_join DATA_DIR filename = None →
  invariant filename items (concurrent_inserts w0 filename items).
Proof.
  intros Hfaults Hfree Hfile. unfold concurrent_inserts. constructor; simpl.
  - done.
  - by rewrite length_fmap.
  - unfold unlocked in Hfree. rewrite Hfree. by apply count_Called.
  - rewrite Hfile. by apply count_Called.
  - intros i t Hi. rewrite list_lookup_fmap in Hi.
    destruct (items !! i) as [item|]; [|done]. injection Hi as <-.
    exists item. done.
Qed.

(** Some task can always move forwards: there is no deadlock. *)
Lemma progress s :
  invariant filename items s →
  (0 < total_remaining (sys_tasks s))%nat →
  ∃ i, (total_remaining (sys_tasks (step i s)) < total_remaining (sys_tasks s))%nat.
Proof.
  intros Hinv Hpos. destruct s as [w tasks]. simpl in *.
  assert (∃ i t, tasks !! i = Some t ∧ (0 < remaining t)%nat
                 ∧ (holds_lock t = true ∨ unlocked filename w)) as (i & t & Hi & Hrem & Hgo).
  { pose proof (inv_lock _ _ _ Hinv) as Hlock. simpl in Hlock.
    destruct (truthy_lock (fileLocks w !! filename)) eqn:Hl.
    - destruct (count_pos holds_lock tasks) as (i & t & Hi & Ht); [lia|].
      exists i, t. split; [done|].
      split; [destruct t; simpl in *; (done || lia)|by left].
    - destruct (total_remaining_pos tasks Hpos) as (i & t & Hi & Ht).
      exists i, t. split; [done|]. split; [done|by right]. }
  exists i. unfold step. simpl. rewrite Hi.
  destruct (step_task_spec i w tasks t Hinv Hi) as (t' & w' & -> & _ & _ & Hlt).
  simpl. pose proof (total_remaining_insert tasks i t t' Hi).
  specialize (Hlt Hrem Hgo). lia.
Qed.

Lemma can_settle s :
  invariant filename items s → ∃ more, all_settled (run more s) = true.
Proof.
  remember (total_remaining (sys_tasks s)) as n eqn:Hn.
  revert s Hn. induction (lt_wf n) as [n _ IH]. intros s Hn Hinv.
  destruct (decide (n = 0%nat)) as [->|Hne].
  - exists []. simpl. unfold all_settled. by apply all_settled_remaining.
  - destruct (progress s Hinv) as [i Hi]; [lia|].
    destruct (IH (total_remaining (sys_tasks (step i s)))) with (s := step i s)
      as [more Hmore]; [lia|done|by apply step_invariant|].
    by exists (i :: more).
Qed.

Lemma settled_counts l :
  forallb is_settled l = true → count has_written l = length l.
Proof.
  induction l as [|t l IH]; simpl; [done|].
  intros [Ht Hl]%andb_true_iff. rewrite IH by done. by destruct t.
Qed.

End ConcurrentRuns.

(** C1, as the code has it.  [n >= 1] calls of [insert] are started
    together on a collection whose file does not exist yet, with no
    failing file-system call; the inserted records are JSON-compatible.
    Then, at every moment of every interleaving:
    - at most one call holds the lock of the collection, and the lock is
      free exactly when none does (every write takes it first and
      releases it afterwards);
    - a call that has settled has returned its own record: none fails;
    - the calls that have not settled can still all settle (no deadlock);
    - once all have settled, the lock is free and the collection holds
      what the last writer wrote: at least one and at most [n] records,
      all among the inserted ones.
    The collection need not hold all [n]: the read precedes the lock. *)
Theorem concurrent_inserts_last_write_wins `{JsRuntime} (filename : string)
    (items : list json) (w0 : world) (schedule : list nat) :
  faults w0 = no_faults →
  unlocked filename w0 →
  files w0 !! path_join DATA_DIR filename = None →
  items ≠ [] →
  (∀ l, (∀ x, x ∈ l → x ∈ items) → (length l ≤ length items)%nat →
        round_trips (JArr l)) →
  let s := run schedule (concurrent_inserts w0 filename items) in
  ((count holds_lock (sys_tasks s) ≤ 1)%nat
   ∧ (unlocked filename (sys_world s) ↔ count holds_lock (sys_tasks s) = 0%nat))
  ∧ (∀ i outcome, sys_tasks s !! i = Some (Settled outcome) →
       ∃ item, items !! i = Some item ∧ outcome = Return item)
  ∧ (∃ more, all_settled (run more s) = true)
  ∧ (all_settled s = true →
     unlocked filename (sys_world s)
     ∧ ∃ l, stored s filename = Return (JArr l)
            ∧ (1 ≤ length l ≤ length items)%nat
            ∧ ∀ x, x ∈ l → x ∈ items).
Proof.
  intros Hfaults Hfree Hfile Hitems Hrt s.
  assert (invariant filename items s) as Hinv
    by (by apply run_invariant, initial_invariant).
  pose proof (inv_lock _ _ _ Hinv) as Hlock.
  assert ((count holds_lock (sys_tasks s) ≤ 1)%nat
          ∧ (unlocked filename (sys_world s) ↔ count holds_lock (sys_tasks s) = 0%nat))
    as Hmutex.
  { unfold unlocked. rewrite Hlock.
    destruct (truthy_lock (fileLocks (sys_world s) !! filename)); split; (lia || done). }
  split; [done|]. split; [|split; [by eapply can_settle|]].
  - intros i outcome Hi.
    destruct (inv_tasks _ _ _ Hinv i _ Hi) as (item & Hitem & Hok). simpl in Hok.
    eauto.
  - intros Hall. unfold all_settled in Hall.
    pose proof (settled_counts _ Hall) as Hw.
    pose proof (inv_length _ _ _ Hinv) as Hlen.
    pose proof (inv_file _ _ _ Hinv) as Hf.
    pose proof (inv_faults _ _ _ Hinv) as Hfa.
    assert (count holds_lock (sys_tasks s) = 0%nat) as Hnone.
    { clear -Hall. induction (sys_tasks s) as [|t l IH]; simpl in *; [done|].
      apply andb_true_iff in Hall as [Ht Hl]. rewrite IH by done. by destruct t. }
    split; [by apply Hmutex|].
    unfold stored. rewrite read_unfold, Hfa. simpl.
    destruct (files (sys_world s) !! path_join DATA_DIR filename) as [text|].
    + destruct Hf as (l & -> & [Hbl Hbin] & Hone).
      rewrite (Hrt l) by (done || lia). exists l. simpl.
      split; [done|]. split; [lia|done].
    + destruct items; [done|]. simpl in Hlen. lia.
Qed.

Lemma two_lessons_round_trip l :
  (∀ x, x ∈ l → x ∈ Sample.lessons 2) → (length l ≤ 2)%nat → round_trips (JArr l).
Proof.
  intros Hin Hlen.
  assert (∀ x, x ∈ l → x = Sample.lesson "0" 0 ∨ x = Sample.lesson "1" 1) as Hcases.
  { intros x Hx. apply Hin in Hx.
    change (Sample.lessons 2) with [Sample.lesson "0" 0; Sample.lesson "1" 1] in Hx.
    set_unfold. tauto. }
  destruct l as [|a [|b [|c l]]]; [| | |simpl in Hlen; lia].
  - vm_compute. reflexivity.
  - destruct (Hcases a) as [->| ->]; [by left| |]; vm_compute; reflexivity.
  - destruct (Hcases a) as [->| ->]; [by left| |];
      (destruct (Hcases b) as [->| ->]; [by right; left| |]); vm_compute; reflexivity.
Defined.

Lemma concurrent_inserts_last_write_wins_witness :
  let s := run (node_schedule 2) (Sample.inserts 2) in
  (∀ i outcome, sys_tasks s !! i = Some (Settled outcome) →
     ∃ item, Sample.lessons 2 !! i = Some item ∧ outcome = Return item)
  ∧ unlocked "lessons.json" (sys_world s)
  ∧ ∃ l, stored s "lessons.json" = Return (JArr l)
         ∧ (1 ≤ length l ≤ 2)%nat.
Proof.
  intros s.
  destruct (concurrent_inserts_last_write_wins "lessons.json" (Sample.lessons 2)
              Sample.empty_world (node_schedule 2))
    as (_ & Hsettled & _ & Hfinal).
  - reflexivity.
  - reflexivity.
  - reflexivity.
  - discriminate.
  - exact two_lessons_round_trip.
  - split; [exact Hsettled|].
    destruct Hfinal as (Hfree & l & Hl & Hlen & _); [vm_compute; reflexivity|].
    split; [exact Hfree|]. exists l. split; [exact Hl|exact Hlen].
Defined.

(** ** The two views of [insert] agree

    A single call resumed four times, with nothing else running, does what
    the sequential [insert] does. *)
Lemma insert_alone `{JsRuntime} (filename : string) (item : json) (w : world)
    (l : list json) :
  faults w = no_faults →
  unlocked filename w →
  (read filename (JArr []) w).1 = Return (JArr l) →
  run [0; 0; 0; 0]%nat (concurrent_inserts w filename [item])
  = mkSystem (insert filename item w).2 [Settled (insert filename item w).1].
Proof.
  intros Hfaults Hfree Hread.
  rewrite (insert_ok filename item w l) by done.
  pose proof (read_preserves filename (JArr []) w) as (Hf & Hl & Hc & Ht & Hfl).
  destruct (read filename (JArr []) w) as [r w1] eqn:Hr. simpl in *. subst r.
  unfold run, concurrent_inserts, step. simpl. rewrite Hr. simpl.
  unfold poll_lock. rewrite acquireLock_free by (unfold unlocked; by rewrite Hl).
  simpl. rewrite write_locked_ok by (simpl; by rewrite Hfl, Hfaults).
  done.
Qed.

(** Resumed one after the other, two calls keep both records. *)
Lemma sequential_inserts_keep_all :
  let s := run [0; 0; 0; 0; 1; 1; 1; 1]%nat (Sample.inserts 2) in
  all_settled s = true
  ∧ stored s "lessons.json" = Return (JArr (Sample.lessons 2)).
Proof. split; vm_compute; reflexivity. Qed.

(** * More of the code *)

(** ** [chat]: the checks before the request *)

Lemma table_lookup_In key table :
  is_Some (table_lookup key table) ↔ key ∈ table.*1.
Proof.
  induction table as [|[k entry] table IH]; simpl.
  - split; [by intros [? ?]|by intros ?%elem_of_nil].
  - case_decide as Hk.
    + subst. split; [intros _; left|eauto].
    + rewrite IH. split; [by right|]. by intros [?|?]%elem_of_cons.
Qed.

(** ** Numbers and values as text *)

Lemma to_double_small (x : Z) : 0 ≤ x < 2 ^ 53 → to_double x = x.
Proof.
  intros [Hx0 Hx]. unfold to_double.
  assert (Z.log2 x - 52 ≤ 0) as Hs.
  { destruct (decide (x = 0)) as [->|Hne]; [done|].
    assert (Z.log2 x < 53) by (apply Z.log2_lt_pow2; lia). lia. }
  by rewrite (proj2 (Z.leb_le _ _) Hs).
Qed.

Lemma to_double_large (x : Z) : 2 ^ 53 ≤ x → 2 ^ 53 ≤ to_double x.
Proof.
  intros Hx. unfold to_double.
  assert (53 ≤ Z.log2 x) as Hlog by (apply Z.log2_le_pow2; lia).
  destruct (Z.leb_spec (Z.log2 x - 52) 0) as [?|Hshift]; [lia|].
  remember (Z.log2 x - 52) as shift eqn:Hs.
  rewrite Z.shiftr_div_pow2, !Z.shiftl_mul_pow2 by lia.
  assert (0 < 2 ^ shift) as Hpos by (apply Z.pow_pos_nonneg; lia).
  assert (2 ^ 52 * 2 ^ shift ≤ x) as Hlow.
  { rewrite <- Z.pow_add_r by lia. replace (52 + shift) with (Z.log2 x) by lia.
    apply Z.log2_spec. lia. }
  assert (2 ^ 52 ≤ x `div` 2 ^ shift) as Hq by (apply Z.div_le_lower_bound; lia).
  assert (2 ≤ 2 ^ shift) as Htwo.
  { change 2 with (2 ^ 1) at 1. apply Z.pow_le_mono_r; lia. }
  assert (2 ^ 53 = 2 ^ 52 * 2) as -> by reflexivity.
  destruct (_ || _); nia.
Qed.

Lemma rounded_to_small (d p v : Z) :
  0 < d < 2 ^ 53 → 0 < p → rounded_to d p = Some v → v = d.
Proof.
  intros Hd Hp. unfold rounded_to.
  pose proof (Z.mul_div_le d p Hp) as Hlower.
  pose proof (Z.mul_succ_div_gt d p Hp) as Hupper.
  assert (0 ≤ d `div` p) as Hq by (apply Z.div_pos; lia).
  remember (d `div` p * p) as lower eqn:Hl.
  assert (lower ≤ d < lower + p) as Hbounds by lia.
  assert (0 ≤ lower) by nia.
  assert (to_double (lower + p) ≠ d) as Hne.
  { destruct (decide (lower + p < 2 ^ 53)).
    - rewrite to_double_small by lia. lia.
    - pose proof (to_double_large (lower + p)). lia. }
  rewrite (bool_decide_eq_false_2 _ Hne).
  case_bool_decide as Hlow; [|done].
  rewrite to_double_small in Hlow by lia. by intros [= <-].
Qed.

Lemma shortest_small (d : Z) : 0 < d < 2 ^ 53 → shortest d = d.
Proof.
  intros Hd. unfold shortest. generalize (String.length (pretty d) - 1)%nat.
  intros zeros. induction zeros as [|zeros IH]; [done|].
  cbn [shortest_from].
  destruct (rounded_to d (10 ^ Z.of_nat (S zeros))) as [v|] eqn:Hv; [|done].
  apply (rounded_to_small d (10 ^ Z.of_nat (S zeros)) v Hd); [|done].
  apply Z.pow_pos_nonneg; lia.
Qed.

(** Below 2^53 in absolute value a number prints as its decimal digits. *)
Lemma Number_toString_safe (n : Z) : - 2 ^ 53 < n < 2 ^ 53 → Number_toString n = pretty n.
Proof.
  intros Hn. unfold Number_toString.
  destruct (Z.eqb_spec n 0) as [->|Hne]; [done|].
  rewrite to_double_small by lia.
  assert (Z.abs n < 2 ^ 1024) as Hbig.
  { assert (2 ^ 53 < 2 ^ 1024) by (apply Z.pow_lt_mono_r; lia). lia. }
  rewrite (proj2 (Z.leb_gt _ _) Hbig).
  rewrite shortest_small by lia.
  assert (Z.abs n < 10 ^ 21) as Hpos.
  { assert (2 ^ 53 < 10 ^ 21) by reflexivity. lia. }
  rewrite (proj2 (Z.ltb_lt _ _) Hpos).
  destruct n as [|k|k]; [done|done|]. reflexivity.
Qed.

(** Above, the shortest decimal that reads back: 2^60 and 2^64 end in
    zeros, and from 10^21 on the exponent is written. *)
Lemma Number_toString_large :
  Number_toString (2 ^ 60) = "1152921504606847000"
  ∧ Number_toString (2 ^ 64) = "18446744073709552000"
  ∧ Number_toString (10 ^ 21) = "1e+21"
  ∧ Number_toString (2 ^ 70) = "1.1805916207174113e+21"
  ∧ Number_toString (- 15 * 10 ^ 21) = "-1.5e+22"
  ∧ to_String (JArr [JNum (10 ^ 21); JNull; JStr "x"]) = Return "1e+21,,x".
Proof. repeat split; vm_compute; reflexivity. Qed.

(** ToString throws one error, and returns otherwise. *)
Lemma to_String_cases (v : json) :
  (∃ text, to_String v = Return text)
  ∨ to_String v = Throw (TypeError "Cannot convert object to primitive value").
Proof.
  revert v. fix IH 1. intros [|b|n|s|l|o].
  - left. eauto.
  - left. destruct b; eauto.
  - left. eauto.
  - left. eauto.
  - induction l as [|x l IHl]; [left; eauto|].
    assert ((∃ text, (if is_null x then Return EmptyString else to_String x) = Return text)
            ∨ (if is_null x then Return EmptyString else to_String x)
              = Throw (TypeError "Cannot convert object to primitive value")) as Hfirst
      by (destruct (is_null x); [left; eauto|apply IH]).
    cbn [to_String]. destruct l as [|y l]; [exact Hfirst|].
    destruct Hfirst as [[first ->]| ->]; cbn [and_then]; [|by right].
    cbn [to_String] in IHl. destruct IHl as [[others ->]| ->]; cbn [and_then];
      [left; eauto|by right].
  - cbn [to_String]. destruct (assoc "toString" o); [by right|left; eauto].
Qed.

Lemma display_cases (v : value) :
  (∃ key, display v = Return key)
  ∨ display v = Throw (TypeError "Cannot convert object to primitive value").
Proof. destruct v as [x|]; [apply to_String_cases|left; simpl; eauto]. Qed.

Lemma chat_prepare_throws env modelKey messages options e :
  display modelKey = Throw e → chat_prepare env modelKey messages options = Throw e.
Proof. intros Hd. unfold chat_prepare. by rewrite Hd. Qed.

(** The ways [chat] can go before the request, once the key is read. *)
Lemma chat_prepare_cases env modelKey messages options key :
  display modelKey = Return key →
  match lookup_model key with
  | no_model =>
      chat_prepare env modelKey messages options
      = Throw (new_Error ("Invalid model key: " +:+ key))
  | found =>
      (nonempty (NANO_API_KEY env) = false
       ∧ chat_prepare env modelKey messages options
         = Throw (new_Error "NANO_API_KEY environment variable is not set"))
      ∨ ∃ apiKey,
          NANO_API_KEY env = Some apiKey ∧ apiKey ≠ EmptyString
          ∧ ((∃ e, chat_prepare env modelKey messages options = Throw e
                   ∧ error_name e = "TypeError")
             ∨ ∃ request,
                 chat_prepare env modelKey messages options = Return request
                 ∧ request_authorization request = "Bearer " +:+ apiKey
                 ∧ request_model request
                   = match found with
                     | own_model id _ => Some (JStr id)
                     | _ => undefined
                     end)
  end.
Proof.
  intros Hkey. unfold chat_prepare. rewrite Hkey. cbn [and_then].
  set (opts := match options with Some _ => options | None => Some (JObj []) end).
  destruct (lookup_model key) as [id name| |]; [| |done].
  - destruct (NANO_API_KEY env) as [[|c apiKey]|]; cbn [nonempty negb];
      [by left| |by left].
    right. exists (String c apiKey). split; [done|]. split; [done|].
    pose proof (get_throws_TypeError opts "temperature") as Ht.
    destruct (get opts "temperature"); cbn [and_then]; [|eauto|done].
    pose proof (get_throws_TypeError opts "max_tokens") as Hm.
    destruct (get opts "max_tokens"); cbn [and_then]; [|eauto|done].
    right. eauto.
  - destruct (NANO_API_KEY env) as [[|c apiKey]|]; cbn [nonempty negb];
      [by left| |by left].
    right. exists (String c apiKey). split; [done|]. split; [done|].
    pose proof (get_throws_TypeError opts "temperature") as Ht.
    destruct (get opts "temperature"); cbn [and_then]; [|eauto|done].
    pose proof (get_throws_TypeError opts "max_tokens") as Hm.
    destruct (get opts "max_tokens"); cbn [and_then]; [|eauto|done].
    right. eauto.
Qed.

Lemma lookup_model_none key :
  lookup_model key = no_model ↔ key ∉ AI_MODELS.*1 ++ Object_prototype_names.
Proof.
  unfold lookup_model.
  pose proof (table_lookup_In key AI_MODELS) as Hown.
  destruct (table_lookup key AI_MODELS) as [[id name]|].
  - split; [done|]. intros Hnot. exfalso. apply Hnot, elem_of_app. left.
    apply Hown. eauto.
  - assert (key ∉ AI_MODELS.*1) as Hnotin by (intros [? ?]%Hown; discriminate).
    case_bool_decide as Hproto.
    + split; [done|]. intros Hnot. exfalso. apply Hnot, elem_of_app. by right.
    + split; [|done]. intros _ [?|?]%elem_of_app; done.
Qed.

(** X1: The model check of [chat].  The value passed as model key is read
    as a property name.  When that conversion throws -- an object with a
    property of its own named [toString], alone or inside arrays -- [chat]
    is rejected with that [TypeError].  Otherwise the call is rejected
    with the "Invalid model key" error exactly when the name is neither a
    key of [AI_MODELS] nor a property inherited from [Object.prototype];
    the check precedes that of the API key.  A request is only built with
    a key that passed and an API key that is set and not empty, which it
    carries as bearer token. *)
Theorem chat_rejects_unknown_model (env : environment) (modelKey : value)
    (messages : json) (options : value) :
  match display modelKey with
  | Return key =>
      (chat_prepare env modelKey messages options
       = Throw (new_Error ("Invalid model key: " +:+ key))
       ↔ key ∉ AI_MODELS.*1 ++ Object_prototype_names)
      ∧ (∀ request, chat_prepare env modelKey messages options = Return request →
           key ∈ AI_MODELS.*1 ++ Object_prototype_names
           ∧ ∃ apiKey, NANO_API_KEY env = Some apiKey ∧ apiKey ≠ EmptyString
                       ∧ request_authorization request = "Bearer " +:+ apiKey)
  | Throw e =>
      e = TypeError "Cannot convert object to primitive value"
      ∧ chat_prepare env modelKey messages options = Throw e
  | Pending => False
  end
  ∧ (∀ o, is_Some (assoc "toString" o) →
       chat_prepare env (Some (JObj o)) messages options
       = Throw (TypeError "Cannot convert object to primitive value")
       ∧ chat_prepare env (Some (JArr [JObj o])) messages options
         = Throw (TypeError "Cannot convert object to primitive value")).
Proof.
  split.
  2: { intros o [x Hx]. split; apply chat_prepare_throws; simpl; by rewrite Hx. }
  destruct (display_cases modelKey) as [[key Hkey]|Hthrow].
  2: { rewrite Hthrow. split; [done|]. by apply chat_prepare_throws. }
  rewrite Hkey.
  pose proof (chat_prepare_cases env modelKey messages options key Hkey) as Hcases.
  pose proof (lookup_model_none key) as Hnone.
  destruct (lookup_model key) as [id name| |] eqn:Hl.
  - assert (key ∈ AI_MODELS.*1 ++ Object_prototype_names) as Hin.
    { destruct (decide (key ∈ AI_MODELS.*1 ++ Object_prototype_names));
        [done|]. by apply Hnone in n. }
    split.
    + split; [|done]. intros Heq. exfalso.
      destruct Hcases as [[_ Hc]|(k & _ & _ & [(e & Hc & He)|(r & Hc & _)])];
        rewrite Hc in Heq; [|injection Heq as ->|]; simpl in *; discriminate.
    + intros request Hreq. split; [done|].
      destruct Hcases as [[_ Hc]|(k & Hk & Hne & [(e & Hc & He)|(r & Hc & Hauth & _)])];
        rewrite Hc in Hreq; try discriminate.
      injection Hreq as <-. eauto.
  - assert (key ∈ AI_MODELS.*1 ++ Object_prototype_names) as Hin.
    { destruct (decide (key ∈ AI_MODELS.*1 ++ Object_prototype_names));
        [done|]. by apply Hnone in n. }
    split.
    + split; [|done]. intros Heq. exfalso.
      destruct Hcases as [[_ Hc]|(k & _ & _ & [(e & Hc & He)|(r & Hc & _)])];
        rewrite Hc in Heq; [|injection Heq as ->|]; simpl in *; discriminate.
    + intros request Hreq. split; [done|].
      destruct Hcases as [[_ Hc]|(k & Hk & Hne & [(e & Hc & He)|(r & Hc & Hauth & _)])];
        rewrite Hc in Hreq; try discriminate.
      injection Hreq as <-. eauto.
  - split; [|by rewrite Hcases].
    split; [intros _; by apply Hnone|done].
Qed.

Lemma table_lookup_sound key entry table :
  table_lookup key table = Some entry → (key, entry) ∈ table.
Proof.
  induction table as [|[k e] table IH]; simpl; [done|].
  case_decide as Hk.
  - intros [= ->]. subst. by left.
  - intros Hl. right. by apply IH.
Qed.

Lemma lookup_listed key id name :
  (key, (id, name)) ∈ AI_MODELS ↔ lookup_model key = own_model id name.
Proof.
  split.
  - intros Hin. unfold AI_MODELS in Hin.
    repeat (apply elem_of_cons in Hin as [Heq|Hin]; [by injection Heq as -> -> ->|]).
    by apply elem_of_nil in Hin.
  - unfold lookup_model.
    destruct (table_lookup key AI_MODELS) as [[i n]|] eqn:Hl.
    + intros [= -> ->]. by apply table_lookup_sound.
    + by case_bool_decide.
Qed.

Lemma chat_prepare_found env modelKey messages options key :
  display modelKey = Return key →
  nonempty (NANO_API_KEY env) = true →
  (∀ o, options = Some o → is_null o = false) →
  lookup_model key ≠ no_model →
  ∃ request,
    chat_prepare env modelKey messages options = Return request
    ∧ request_model request
      = match lookup_model key with
        | own_model id _ => Some (JStr id)
        | _ => undefined
        end
    ∧ request_messages request = messages.
Proof.
  intros Hd Hkey Hopts Hfound. unfold chat_prepare. rewrite Hd. cbn [and_then].
  rewrite Hkey. cbn [negb].
  set (opts := match options with Some _ => options | None => Some (JObj []) end).
  assert (∃ o, opts = Some o ∧ is_null o = false) as (o & -> & Ho).
  { subst opts. destruct options as [o|]; eauto. }
  destruct (get_not_null o "temperature" Ho) as [t ->].
  destruct (get_not_null o "max_tokens" Ho) as [m ->].
  cbn [and_then].
  destruct (lookup_model key); [eauto..|done].
Qed.

Lemma getModels_listed key id name :
  JObj [("key", JStr key); ("id", JStr id); ("name", JStr name)] ∈ getModels
  ↔ lookup_model key = own_model id name.
Proof.
  rewrite <- lookup_listed. unfold getModels. rewrite list_elem_of_fmap. split.
  - intros ([k [i n]] & Heq & Hin). simpl in Heq. by injection Heq as -> -> ->.
  - intros Hin. by exists (key, (id, name)).
Qed.

(** X2: [getModels] and [chat] agree: the entries [getModels] reports are
    exactly the keys [chat] finds in its table, and a call with a reported
    key (an API key being set and [options] not [null]) builds a request
    for the [id] reported with it. *)
Theorem getModels_keys_accepted (env : environment) (messages : json) (options : value)
    (key id name : string) :
  nonempty (NANO_API_KEY env) = true →
  (∀ o, options = Some o → is_null o = false) →
  (JObj [("key", JStr key); ("id", JStr id); ("name", JStr name)] ∈ getModels
   ↔ lookup_model key = own_model id name)
  ∧ (lookup_model key = own_model id name →
     ∃ request,
       chat_prepare env (Some (JStr key)) messages options = Return request
       ∧ request_model request = Some (JStr id)
       ∧ request_messages request = messages).
Proof.
  intros Hkey Hopts. split; [apply getModels_listed|].
  - intros Hl.
    destruct (chat_prepare_found env (Some (JStr key)) messages options key eq_refl
                Hkey Hopts) as (request & Hreq & Hmodel & Hmsg).
    + by rewrite Hl.
    + exists request. rewrite Hl in Hmodel. done.
Qed.

Lemma getModels_keys_accepted_witness :
  let env := mkEnv (Some "secret") None in
  JObj [("key", JStr "kimi-k2"); ("id", JStr "moonshotai/kimi-k2-thinking");
        ("name", JStr "Kimi K2 Thinking")] ∈ getModels
  ∧ ∃ request,
      chat_prepare env (Some (JStr "kimi-k2")) (JArr []) undefined = Return request
      ∧ request_model request = Some (JStr "moonshotai/kimi-k2-thinking")
      ∧ request_messages request = JArr [].
Proof.
  intros env.
  destruct (getModels_keys_accepted env (JArr []) undefined "kimi-k2"
              "moonshotai/kimi-k2-thinking" "Kimi K2 Thinking") as [Hlist Hchat].
  - reflexivity.
  - intros o Ho. discriminate.
  - split; [apply Hlist; reflexivity|apply Hchat; reflexivity].
Defined.

(** X3: A key that names a property of [Object.prototype] is not among the
    models [getModels] reports, yet [chat] does not reject it: with an API
    key set it builds a request whose body has no model. *)
Theorem chat_accepts_inherited_keys (env : environment) (messages : json)
    (options : value) (key : string) :
  key ∈ Object_prototype_names →
  nonempty (NANO_API_KEY env) = true →
  (∀ o, options = Some o → is_null o = false) →
  (∀ id name, JObj [("key", JStr key); ("id", JStr id); ("name", JStr name)] ∉ getModels)
  ∧ ∃ request,
      chat_prepare env (Some (JStr key)) messages options = Return request
      ∧ request_model request = undefined.
Proof.
  intros Hproto Hkey Hopts.
  assert (lookup_model key = inherited_property) as Hl.
  { unfold Object_prototype_names in Hproto.
    repeat (apply elem_of_cons in Hproto as [->|Hproto]; [reflexivity|]).
    by apply elem_of_nil in Hproto. }
  split.
  - intros id name Hin. apply getModels_listed in Hin. congruence.
  - destruct (chat_prepare_found env (Some (JStr key)) messages options key eq_refl
                Hkey Hopts) as (request & Hreq & Hmodel & _).
    + by rewrite Hl.
    + exists request. rewrite Hl in Hmodel. done.
Qed.

Lemma chat_accepts_inherited_keys_witness :
  ∃ request,
    chat_prepare (mkEnv (Some "secret") None) (Some (JStr "constructor"))
      (JArr []) undefined = Return request
    ∧ request_model request = undefined.
Proof.
  apply (chat_accepts_inherited_keys (mkEnv (Some "secret") None) (JArr []) undefined
           "constructor").
  - unfold Object_prototype_names. by left.
  - reflexivity.
  - intros o Ho. discriminate.
Defined.

(** ** [chat]: a status other than 200 *)

Lemma get_optional_returns v k :
  ∃ x, get_optional v k = Return x.
Proof.
  destruct v as [x|]; simpl; [|eauto].
  destruct (is_null x) eqn:Hx.
  - destruct x; try done. eauto.
  - destruct (get_not_null x k Hx) as [y Hy].
    destruct x; try done; simpl in *; eauto.
Qed.

(** X4: With a status other than 200 [chat] never resolves, whatever the body:
    - a body that does not parse rejects with the parse failure;
    - an object carrying [error.message], a non-empty string, rejects with
      that message;
    - an object without [error] rejects with "API error: " and the status. *)
Theorem chat_rejects_error_status `{JsRuntime} (statusCode : Z) (data : string) :
  statusCode ≠ 200 →
  (∃ e, on_end statusCode data = Rejected e)
  ∧ (JSON_parse data = None →
     ∃ detail, on_end statusCode data
               = Rejected (new_Error ("Failed to parse API response: " +:+ detail)))
  ∧ (∀ o eo c m, JSON_parse data = Some (JObj o) →
       assoc "error" o = Some (JObj eo) →
       assoc "message" eo = Some (JStr (String c m)) →
       on_end statusCode data = Rejected (new_Error (String c m)))
  ∧ (∀ o, JSON_parse data = Some (JObj o) →
       assoc "error" o = None →
       on_end statusCode data = Rejected (new_Error ("API error: " +:+ pretty statusCode))).
Proof.
  intros Hstatus. unfold on_end.
  replace (statusCode =? 200) with false by (symmetry; by apply Z.eqb_neq).
  cbn [negb].
  split; [|split; [|split]].
  - destruct (JSON_parse data) as [response|]; cbn [and_then]; [|eauto].
    pose proof (get_throws_TypeError (Some response) "error") as He.
    destruct (get (Some response) "error") as [error_| |]; cbn [and_then]; [|eauto|done].
    destruct (get_optional_returns error_ "message") as [message ->].
    cbn [and_then]. destruct message as [m|]; cbn [and_then]; [|eauto].
    destruct (truthy (Some m)); cbn [and_then]; [|eauto].
    destruct (to_String_cases m) as [[text ->]| ->]; cbn [and_then]; eauto.
  - intros ->. cbn [and_then]. eauto.
  - intros o eo c m -> Herr Hmsg. cbn [and_then get]. rewrite Herr.
    cbn [and_then get_optional get]. rewrite Hmsg. done.
  - intros o -> Herr. cbn [and_then get]. rewrite Herr. done.
Qed.

Lemma chat_rejects_error_status_witness :
  on_end 401
    (Reference.stringify (JObj [("error", JObj [("message", JStr "Invalid API key")])]))
  = Rejected (new_Error "Invalid API key")
  ∧ on_end 503 (Reference.stringify (JObj []))
    = Rejected (new_Error "API error: 503").
Proof.
  split.
  - destruct (chat_rejects_error_status 401
                (Reference.stringify
                   (JObj [("error", JObj [("message", JStr "Invalid API key")])])))
      as (_ & _ & Hmsg & _); [lia|].
    eapply Hmsg; [vm_compute; reflexivity|reflexivity|reflexivity].
  - destruct (chat_rejects_error_status 503 (Reference.stringify (JObj [])))
      as (_ & _ & _ & Hgeneric); [lia|].
    eapply Hgeneric; [vm_compute; reflexivity|reflexivity].
Defined.

(** ** The replies of [chat] parsed by the helpers *)

Lemma from_first_app c pre rest :
  c ∉ pre → from_first c (pre ++ c :: rest) = Some rest.
Proof.
  induction pre as [|x pre IH]; intros Hc; simpl.
  - by rewrite decide_True.
  - rewrite decide_False by (intros ->; apply Hc; by left).
    apply IH. intros Hin. apply Hc. by right.
Qed.

Lemma from_first_none c s : c ∉ s → from_first c s = None.
Proof.
  induction s as [|x s IH]; intros Hc; simpl; [done|].
  rewrite decide_False by (intros ->; apply Hc; by left).
  apply IH. intros Hin. apply Hc. by right.
Qed.

Lemma up_to_last_none c s : c ∉ s → up_to_last c s = None.
Proof.
  induction s as [|x s IH]; intros Hc; simpl; [done|].
  rewrite IH by (intros Hin; apply Hc; by right).
  by rewrite decide_False by (intros ->; apply Hc; by left).
Qed.

Lemma up_to_last_app c mid post :
  c ∉ post → up_to_last c (mid ++ c :: post) = Some (mid ++ [c]).
Proof.
  intros Hc. induction mid as [|x mid IH]; simpl.
  - by rewrite up_to_last_none, decide_True.
  - by rewrite IH.
Qed.

Lemma bracket_match_spec open close pre mid post :
  open ∉ pre → close ∉ post →
  bracket_match open close
    (String.string_of_list_ascii (pre ++ open :: mid ++ close :: post))
  = Some (String.string_of_list_ascii (open :: mid ++ [close])).
Proof.
  intros Ho Hc. unfold bracket_match.
  rewrite String.list_ascii_of_string_of_list_ascii.
  by rewrite from_first_app, up_to_last_app.
Qed.

(** X5: The helpers find the JSON inside the text around it.  When the reply
    is a text in which no opening bracket precedes the first one of the
    embedded part and no closing bracket follows its last one, the helper
    parses exactly the embedded part: it returns the parsed value, or
    throws its own failure message if that part is not JSON.  A text
    without an opening bracket is parsed whole. *)
Theorem parse_reply_extracts `{JsRuntime} (open close : ascii) (failure : string)
    (pre mid post : list ascii) :
  open ∉ pre →
  close ∉ post →
  let text := String.string_of_list_ascii (pre ++ open :: mid ++ close :: post) in
  let embedded := String.string_of_list_ascii (open :: mid ++ [close]) in
  parse_reply open close failure (Some (JStr text))
  = match JSON_parse embedded with
    | Some v => Return v
    | None => Throw (new_Error failure)
    end
  ∧ parse_reply open close failure (Some (JStr (String.string_of_list_ascii pre)))
    = match JSON_parse (String.string_of_list_ascii pre) with
      | Some v => Return v
      | None => Throw (new_Error failure)
      end.
Proof.
  intros Ho Hc text embedded. split.
  - unfold parse_reply. subst text. rewrite bracket_match_spec by done.
    fold embedded. by destruct (JSON_parse embedded).
  - unfold parse_reply, bracket_match.
    rewrite String.list_ascii_of_string_of_list_ascii, from_first_none by done.
    by destruct (JSON_parse _).
Qed.

Lemma parse_reply_extracts_witness :
  generateQuiz_reply
    (Resolved (Some (JStr ("Here are your questions: "
                           +:+ Reference.stringify (JArr [JNum 1; JNum 2])
                           +:+ " Good luck!"))))
  = Return (JArr [JNum 1; JNum 2]).
Proof.
  pose proof (parse_reply_extracts "["%char "]"%char
                "Failed to parse quiz questions from AI response"
                (String.list_ascii_of_string "Here are your questions: ")
                (String.list_ascii_of_string (String.substring 1 10
                   (Reference.stringify (JArr [JNum 1; JNum 2]))))
                (String.list_ascii_of_string " Good luck!")) as [Hmatch _].
  - vm_compute. intros Hin. by repeat (apply elem_of_cons in Hin as [Hin|Hin]; [discriminate|]);
      apply elem_of_nil in Hin.
  - vm_compute. intros Hin. by repeat (apply elem_of_cons in Hin as [Hin|Hin]; [discriminate|]);
      apply elem_of_nil in Hin.
  - etrans; [exact Hmatch|]. vm_compute. reflexivity.
Defined.


(** ** Looking things up in a collection *)

Section LookupFacts.
Context `{JsRuntime}.

Lemma findOne_after_read filename predicate w data :
  (read filename (JArr []) w).1 = Return data →
  findOne filename predicate w
  = (Array_find data predicate, (read filename (JArr []) w).2).
Proof.
  intros Hr. unfold findOne, bind, lift.
  destruct (read filename (JArr []) w) as [r w1]. simpl in Hr. by subst r.
Qed.

Lemma findMany_after_read filename predicate w data :
  (read filename (JArr []) w).1 = Return data →
  findMany filename predicate w
  = (Array_filter data predicate, (read filename (JArr []) w).2).
Proof.
  intros Hr. unfold findMany, bind, lift.
  destruct (read filename (JArr []) w) as [r w1]. simpl in Hr. by subst r.
Qed.

Lemma paginate_world filename predicate page limit sort w :
  (paginate filename predicate page limit sort w).2 = (read filename (JArr []) w).2.
Proof.
  unfold paginate, bind, lift.
  destruct (read_returns filename (JArr []) w) as [data Hr].
  destruct (read filename (JArr []) w) as [r w1]. simpl in Hr. subst r. simpl.
  destruct (Array_filter data predicate); [|done..]. simpl.
  by destruct (sort_if sort a).
Qed.

End LookupFacts.

(** X7: [findOne], [findMany] and [paginate] only read: whatever the file
    holds and whichever call fails, they leave the files, the history of
    the disk and the locks as they were, and they never wait for a
    lock. *)
Theorem lookups_never_write `{JsRuntime} (filename : string) (predicate : json → bool)
    (page limit : Z) (sort : option sort_options) (w : world) :
  let untouched (w' : world) :=
    files w' = files w ∧ disk_trace w' = disk_trace w ∧ fileLocks w' = fileLocks w in
  (untouched (findOne filename predicate w).2
   ∧ (findOne filename predicate w).1 ≠ Pending)
  ∧ (untouched (findMany filename predicate w).2
     ∧ (findMany filename predicate w).1 ≠ Pending)
  ∧ (untouched (paginate filename predicate page limit sort w).2
     ∧ (paginate filename predicate page limit sort w).1 ≠ Pending).
Proof.
  intros untouched.
  destruct (read_returns filename (JArr []) w) as [data Hr].
  pose proof (read_preserves filename (JArr []) w) as (Hf & Hl & _ & Ht & _).
  assert (untouched (read filename (JArr []) w).2) as Hsame by done.
  split; [|split].
  - rewrite (findOne_after_read _ _ _ data Hr). split; [done|]. simpl.
    unfold Array_find. by destruct data.
  - rewrite (findMany_after_read _ _ _ data Hr). split; [done|]. simpl.
    unfold Array_filter. by destruct data.
  - rewrite paginate_world. split; [done|].
    unfold paginate, bind, lift.
    destruct (read filename (JArr []) w) as [r w1]. simpl in Hr. subst r. simpl.
    destruct data; simpl; try done.
    destruct sort as [s|]; simpl; [|done].
    unfold sort_by. by destruct (_ && _).
Qed.

(** X8: A collection whose file is missing, or does not parse, or cannot be
    read, is the empty collection for every lookup: [findOne] answers
    [undefined], [findMany] answers no record and [paginate] (unsorted)
    answers an empty page with a total of 0 -- none throws. *)
Theorem lookups_on_unreadable_collection `{JsRuntime} (filename : string)
    (predicate : json → bool) (page limit : Z) (w : world) :
  files w !! path_join DATA_DIR filename = None
  ∨ (∃ text, files w !! path_join DATA_DIR filename = Some text
             ∧ (JSON_parse text = None ∨ readFileSync_fails (faults w) = true)) →
  (findOne filename predicate w).1 = Return undefined
  ∧ (findMany filename predicate w).1 = Return []
  ∧ (paginate filename predicate page limit None w).1
    = Return (mkPage [] page limit 0 (ceil_div 0 limit)).
Proof.
  intros Hfile.
  assert ((read filename (JArr []) w).1 = Return (JArr [])) as Hr.
  { rewrite read_unfold. destruct Hfile as [->|(text & -> & Hbad)]; [done|].
    destruct (readFileSync_fails (faults w)); [done|].
    destruct Hbad as [->|?]; done. }
  split; [|split].
  - by rewrite (findOne_after_read _ _ _ _ Hr).
  - by rewrite (findMany_after_read _ _ _ _ Hr).
  - rewrite (paginate_unfold _ _ _ _ _ _ [] []) by done.
    unfold Array_slice. cbn [length drop]. rewrite drop_nil. by rewrite take_nil.
Qed.

Lemma lookups_on_unreadable_collection_witness :
  let truncated :=
    initial_world {[ path_join DATA_DIR "lessons.json" := "[1, 2, [3" ]}
      1700000000000%N no_faults in
  (findOne "lessons.json" Sample.everything truncated).1 = Return undefined
  ∧ (findMany "lessons.json" Sample.everything truncated).1 = Return []
  ∧ (paginate "lessons.json" Sample.everything 1 10 None truncated).1
    = Return (mkPage [] 1 10 0 (Finite 0)).
Proof.
  intros truncated.
  apply (lookups_on_unreadable_collection "lessons.json" Sample.everything 1 10 truncated).
  right. eexists. split; [reflexivity|]. left. vm_compute. reflexivity.
Defined.

(** X9: The operations trust the file to hold an array.  When it holds other
    JSON (an object, a number, [null]), the error is not swallowed: every
    operation throws a [TypeError], and none writes. *)
Theorem operations_throw_on_non_array `{JsRuntime} (filename : string)
    (predicate : json → bool) (item : json) (updates : value) (page limit : Z)
    (sort : option sort_options) (w : world) (text : string) (v : json) :
  files w !! path_join DATA_DIR filename = Some text →
  readFileSync_fails (faults w) = false →
  JSON_parse text = Some v →
  (∀ l, v ≠ JArr l) →
  let fails {A} (outcome : completion A * world) :=
    (∃ e, outcome.1 = Throw e ∧ error_name e = "TypeError") ∧ outcome.2 = w in
  fails (findOne filename predicate w)
  ∧ fails (findMany filename predicate w)
  ∧ fails (insert filename item w)
  ∧ fails (update filename predicate updates w)
  ∧ fails (remove filename predicate w)
  ∧ fails (paginate filename predicate page limit sort w).
Proof.
  intros Hfile Hread Hparse Hnot fails.
  assert (read filename (JArr []) w = (Return v, w)) as Hr
    by (by rewrite read_unfold, Hfile, Hread, Hparse).
  assert (∀ method, ∃ e, as_array method v = Throw e ∧ error_name e = "TypeError")
    as Harr.
  { intros method. destruct v; simpl; eauto. by destruct (Hnot items0). }
  subst fails. cbn beta.
  unfold findOne, findMany, insert, update, remove, paginate, bind, lift.
  rewrite Hr. cbn [fst snd].
  unfold Array_find, Array_filter, Array_push, Array_findIndex.
  destruct (Harr "find") as (e1 & -> & ?), (Harr "filter") as (e2 & -> & ?),
    (Harr "push") as (e3 & -> & ?), (Harr "findIndex") as (e4 & -> & ?).
  cbn [fst snd]. repeat split; eauto.
Qed.

Lemma operations_throw_on_non_array_witness :
  let w := initial_world {[ path_join DATA_DIR "lessons.json" := "{}" ]}
             1700000000000%N no_faults in
  (∃ e, (insert "lessons.json" (Sample.lesson "a" 1) w).1 = Throw e
        ∧ error_name e = "TypeError")
  ∧ (insert "lessons.json" (Sample.lesson "a" 1) w).2 = w.
Proof.
  intros w.
  destruct (operations_throw_on_non_array "lessons.json" Sample.everything
              (Sample.lesson "a" 1) undefined 1 10 None w "{}" (JObj []))
    as (_ & _ & Hinsert & _).
  - reflexivity.
  - reflexivity.
  - vm_compute. reflexivity.
  - intros l. discriminate.
  - exact Hinsert.
Defined.

(** ** [insert] composed with the other operations *)

Lemma find_app {A} (p : A → bool) (l1 l2 : list A) :
  List.find p (l1 ++ l2)
  = match List.find p l1 with
    | Some x => Some x
    | None => List.find p l2
    end.
Proof. induction l1 as [|x l1 IH]; simpl; [done|]. by destruct (p x). Qed.


Section AfterInsert.
Context `{JsRuntime}.
Variables (filename : string) (item : json) (w : world) (l : list json).
Hypothesis Hfaults : faults w = no_faults.
Hypothesis Hlock : unlocked filename w.
Hypothesis Hread : (read filename (JArr []) w).1 = Return (JArr l).
Hypothesis Hrt : round_trips (JArr (l ++ [item])).

Let w2 := (insert filename item w).2.

Lemma after_insert_faults : faults w2 = no_faults.
Proof using Hfaults Hlock Hread.
  subst w2. rewrite (insert_ok filename item w l) by done. simpl.
  pose proof (read_preserves filename (JArr []) w) as (_ & _ & _ & _ & ->). done.
Qed.

Lemma after_insert_unlocked : unlocked filename w2.
Proof using Hfaults Hlock Hread.
  subst w2. rewrite (insert_ok filename item w l) by done.
  unfold unlocked. simpl. by rewrite lookup_delete_eq.
Qed.

Lemma after_insert_read : (read filename (JArr []) w2).1 = Return (JArr (l ++ [item])).
Proof using Hfaults Hlock Hread Hrt.
  subst w2. rewrite (insert_ok filename item w l) by done. simpl.
  apply read_written; [|done]. simpl.
  pose proof (read_preserves filename (JArr []) w) as (_ & _ & _ & _ & ->).
  by rewrite Hfaults.
Qed.

End AfterInsert.

(** X10: After [insert], the lookups see the new record last: [findMany]
    returns the earlier matches followed by the new record if it matches,
    and [findOne] returns the first earlier match if there is one -- a
    record inserted under an id that is already taken stays hidden behind
    the older one -- and the new record otherwise. *)
Theorem insert_then_find `{JsRuntime} (filename : string) (item : json)
    (predicate : json → bool) (w : world) (l : list json) :
  faults w = no_faults →
  unlocked filename w →
  (read filename (JArr []) w).1 = Return (JArr l) →
  round_trips (JArr (l ++ [item])) →
  let w' := (insert filename item w).2 in
  (findOne filename predicate w').1
  = Return (match List.find predicate l with
            | Some older => Some older
            | None => if predicate item then Some item else undefined
            end)
  ∧ (findMany filename predicate w').1
    = Return (List.filter predicate l ++ if predicate item then [item] else []).
Proof.
  intros Hfaults Hlock Hread Hrt w'.
  pose proof (after_insert_read filename item w l Hfaults Hlock Hread Hrt) as Hr.
  fold w' in Hr. split.
  - rewrite (findOne_after_read _ _ _ _ Hr). cbn [fst Array_find as_array].
    by rewrite find_app.
  - rewrite (findMany_after_read _ _ _ _ Hr). cbn [fst Array_filter as_array].
    by rewrite List.filter_app.
Qed.

Lemma insert_then_find_witness :
  let w := Sample.world_with "lessons.json" Sample.three in
  let duplicate := Sample.lesson "b" 9 in
  (findOne "lessons.json" (Sample.has_id "b") (insert "lessons.json" duplicate w).2).1
  = Return (Some (Sample.lesson "b" 1))
  ∧ (findMany "lessons.json" (Sample.has_id "b") (insert "lessons.json" duplicate w).2).1
    = Return [Sample.lesson "b" 1; duplicate].
Proof.
  intros w duplicate.
  apply (insert_then_find "lessons.json" duplicate (Sample.has_id "b") w Sample.three).
  - reflexivity.
  - reflexivity.
  - vm_compute. reflexivity.
  - vm_compute. reflexivity.
Defined.

(** X11: [insert] and then [remove] with a predicate that selects the new
    record only: [remove] answers [true] and the collection reads as it
    did before the [insert]. *)
Theorem insert_then_remove `{JsRuntime} (filename : string) (item : json)
    (predicate : json → bool) (w : world) (l : list json) :
  faults w = no_faults →
  unlocked filename w →
  (read filename (JArr []) w).1 = Return (JArr l) →
  round_trips (JArr (l ++ [item])) →
  round_trips (JArr l) →
  (∀ r, r ∈ l → predicate r = false) →
  predicate item = true →
  let w1 := (insert filename item w).2 in
  (remove filename predicate w1).1 = Return true
  ∧ (read filename (JArr []) (remove filename predicate w1).2).1 = Return (JArr l).
Proof.
  intros Hfaults Hlock Hread Hrt Hrt0 Hnone Hitem w1.
  pose proof (after_insert_read filename item w l Hfaults Hlock Hread Hrt) as Hr.
  pose proof (after_insert_faults filename item w l Hfaults Hlock Hread) as Hf.
  pose proof (after_insert_unlocked filename item w l Hfaults Hlock Hread) as Hu.
  fold w1 in Hr, Hf, Hu.
  rewrite (remove_ok filename predicate w1 (l ++ [item]) (length l) item); try done.
  - simpl. split; [done|].
    replace (delete (length l) (l ++ [item])) with l.
    + by apply read_after_write.
    + rewrite delete_take_drop, take_app_length.
      rewrite drop_app_ge by lia.
      replace (S (length l) - length l)%nat with 1%nat by lia.
      simpl. by rewrite app_nil_r.
  - by rewrite lookup_app_r, Nat.sub_diag by lia.
  - intros j x Hj Hx. rewrite lookup_app_l in Hx by done.
    apply Hnone. by eapply list_elem_of_lookup_2.
Qed.

Lemma insert_then_remove_witness :
  let w := Sample.world_with "lessons.json" Sample.three in
  let item := Sample.lesson "d" 7 in
  (remove "lessons.json" (Sample.has_id "d") (insert "lessons.json" item w).2).1
  = Return true
  ∧ (read "lessons.json" (JArr [])
       (remove "lessons.json" (Sample.has_id "d") (insert "lessons.json" item w).2).2).1
    = Return (JArr Sample.three).
Proof.
  intros w item.
  apply (insert_then_remove "lessons.json" item (Sample.has_id "d") w Sample.three).
  - reflexivity.
  - reflexivity.
  - vm_compute. reflexivity.
  - vm_compute. reflexivity.
  - vm_compute. reflexivity.
  - intros r Hr. repeat (apply elem_of_cons in Hr as [->|Hr]; [reflexivity|]).
    by apply elem_of_nil in Hr.
  - reflexivity.
Defined.

(** ** What a mutation leaves alone *)

Lemma bind_world {A B} (m : M A) (k : A → M B) (w : world) :
  (bind m k w).2
  = match (m w).1 with
    | Return a => (k a (m w).2).2
    | _ => (m w).2
    end.
Proof. unfold bind. by destruct (m w) as [[a|e|] w']. Qed.

Lemma bind_result {A B} (m : M A) (k : A → M B) (w : world) :
  (bind m k w).1
  = match (m w).1 with
    | Return a => (k a (m w).2).1
    | Throw e => Throw e
    | Pending => Pending
    end.
Proof. unfold bind. by destruct (m w) as [[a|e|] w']. Qed.

Lemma delete_insert_same {A} (m : gmap string A) (k : string) (v : A) :
  delete k (<[k := v]> m) = delete k m.
Proof.
  apply map_eq. intros j. destruct (decide (j = k)) as [->|Hne].
  - by rewrite !lookup_delete_eq.
  - by rewrite !lookup_delete_ne, lookup_insert_ne.
Qed.

Lemma leaves_alone_refl q other w : leaves_alone q other w w.
Proof. split; [done|]. split; [by exists []|done]. Qed.

Section WriteFrame.
Context `{JsRuntime}.

Lemma write_locked_frame filename filepath tempPath data w q :
  q ≠ filepath → q ≠ tempPath →
  let w' := (write_locked filename filepath tempPath data w).2 in
  files w' !! q = files w !! q
  ∧ ∃ states, disk_trace w' = states ++ disk_trace w
              ∧ Forall (λ d, d !! q = files w !! q) states.
Proof.
  intros Hq1 Hq2 w'. subst w'.
  assert (∀ w2, touches_only tempPath w w2 →
            files w2 !! q = files w !! q
            ∧ ∃ states, disk_trace w2 = states ++ disk_trace w
                        ∧ Forall (λ d, d !! q = files w !! q) states) as Hfrom.
  { intros w2 ((states & Ht & Hs) & Hf & _). split; [by apply Hf|].
    exists states. split; [done|].
    eapply Forall_impl; [exact Hs|]. intros d Hd. by apply Hd. }
  assert (∀ e w1, touches_only tempPath w w1 →
            let w2 := (write_catch filename tempPath e w1).2 in
            touches_only tempPath w w2
            ∧ ∃ e', write_catch filename tempPath e w1 = (Throw e', w2)) as Hcatch.
  { intros e w1 T1.
    destruct (write_catch_spec filename tempPath e w1) as (e' & w2 & -> & T2 & _).
    split; [exact (touches_only_trans _ _ _ _ T1 T2)|eauto]. }
  unfold write_locked, try_finally, try_catch, bind, releaseLock.
  pose proof (writeFileSync_touches tempPath (JSON_stringify data) w) as [T1 _].
  destruct (fs_writeFileSync tempPath (JSON_stringify data) w) as [[[]|e|] w1];
    cbn [fst snd] in *.
  - unfold fs_renameSync. destruct (renameSync_fails (faults w1)).
    + destruct (Hcatch (SystemError "EPERM") w1 T1) as (T2 & e' & ->).
      cbn [fst snd set_fileLocks files disk_trace]. by apply Hfrom.
    + destruct (files w1 !! tempPath) as [text|].
      * cbn [fst snd set_fileLocks set_files files disk_trace].
        destruct (Hfrom w1 T1) as (Hf & states & -> & Hs).
        split.
        -- by rewrite lookup_insert_ne, lookup_delete_ne.
        -- exists (<[filepath:=text]> (delete tempPath (files w1)) :: states).
           split; [done|]. constructor; [|done].
           by rewrite lookup_insert_ne, lookup_delete_ne.
      * destruct (Hcatch (SystemError "ENOENT") w1 T1) as (T2 & e' & ->).
        cbn [fst snd set_fileLocks files disk_trace]. by apply Hfrom.
  - destruct (Hcatch e w1 T1) as (T2 & e' & ->).
    cbn [fst snd set_fileLocks files disk_trace]. by apply Hfrom.
  - by apply Hfrom.
Qed.

(** [write], whatever fails: it returns or throws, the lock is released,
    no other lock and no other path is touched. *)
Lemma write_frame filename data w q other :
  unlocked filename w →
  q ≠ path_join DATA_DIR filename →
  q ≠ temp_path (path_join DATA_DIR filename) (clock w) →
  other ≠ filename →
  leaves_alone q other w (write filename data w).2
  ∧ unlocked filename (write filename data w).2
  ∧ (write filename data w).1 ≠ Pending.
Proof.
  intros Hlock Hq1 Hq2 Hother.
  unfold write, bind, Date_now. rewrite acquireLock_free by done.
  set (filepath := path_join DATA_DIR filename) in *.
  set (tempPath := temp_path filepath (clock w)) in *.
  set (wl := set_fileLocks (<[filename:=true]> (fileLocks w)) w).
  pose proof (write_locked_frame filename filepath tempPath data wl q Hq1 Hq2)
    as (Hf & Ht).
  pose proof (write_locked_atomic filename filepath tempPath data wl
                (temp_path_fresh filepath (clock w))) as (_ & Hl & _ & Hres).
  destruct (write_locked filename filepath tempPath data wl) as [r w'].
  cbn [fst snd] in *. split; [split; [done|split; [done|]]|split].
  - rewrite Hl. subst wl. simpl.
    by rewrite lookup_delete_ne, lookup_insert_ne.
  - unfold unlocked. rewrite Hl. by rewrite lookup_delete_eq.
  - destruct Hres as [(-> & _)|([e ->] & _)]; done.
Qed.

Lemma after_read_leaves_alone filename defaultValue q other w w' :
  leaves_alone q other (read filename defaultValue w).2 w' → leaves_alone q other w w'.
Proof.
  pose proof (read_preserves filename defaultValue w) as (Hf & Hl & _ & Ht & _).
  unfold leaves_alone. by rewrite Hf, Hl, Ht.
Qed.

(** A mutation is a [read], a step in memory that may throw, and if it
    does not, a [write]. *)
Lemma mutation_frame filename q other w (data : completion json) (w' : world) :
  unlocked filename w →
  q ≠ path_join DATA_DIR filename →
  q ≠ temp_path (path_join DATA_DIR filename) (clock w) →
  other ≠ filename →
  w' = match data with
       | Return d => (write filename d (read filename (JArr []) w).2).2
       | _ => (read filename (JArr []) w).2
       end →
  leaves_alone q other w w' ∧ unlocked filename w'.
Proof.
  intros Hlock Hq1 Hq2 Hother ->.
  pose proof (read_preserves filename (JArr []) w) as (Hf & Hl & Hc & Ht & _).
  assert (unlocked filename (read filename (JArr []) w).2) as Hlock1
    by (unfold unlocked; by rewrite Hl).
  destruct data as [d| |].
  - destruct (write_frame filename d (read filename (JArr []) w).2 q other)
      as (Ha & Hu & _); try done; [by rewrite Hc|].
    split; [|done]. by eapply after_read_leaves_alone.
  - split; [|done]. eapply after_read_leaves_alone, leaves_alone_refl.
  - split; [|done]. eapply after_read_leaves_alone, leaves_alone_refl.
Qed.

Lemma insert_world filename item w :
  ∃ data : completion json,
    (insert filename item w).2
    = match data with
      | Return d => (write filename d (read filename (JArr []) w).2).2
      | _ => (read filename (JArr []) w).2
      end
    ∧ ((insert filename item w).1 = Pending →
       ∃ d, data = Return d
            ∧ (write filename d (read filename (JArr []) w).2).1 = Pending).
Proof.
  destruct (read_returns filename (JArr []) w) as [v Hv].
  unfold insert. rewrite bind_world, bind_result, Hv.
  rewrite bind_world, bind_result. unfold lift. cbn [fst snd].
  exists (Array_push v item).
  assert (Array_push v item ≠ Pending) as Hpush by (by destruct v).
  destruct (Array_push v item) as [d|e|]; [|by split|done].
  rewrite bind_world, bind_result. unfold ret.
  destruct (write filename d _) as [[[]|e|] w2] eqn:Hw; cbn [fst snd];
    (split; [done|]); [done|done|].
  intros _. exists d. by rewrite Hw.
Qed.

Lemma update_world filename predicate updates w :
  ∃ data : completion json,
    (update filename predicate updates w).2
    = match data with
      | Return d => (write filename d (read filename (JArr []) w).2).2
      | _ => (read filename (JArr []) w).2
      end
    ∧ ((update filename predicate updates w).1 = Pending →
       ∃ d, data = Return d
            ∧ (write filename d (read filename (JArr []) w).2).1 = Pending).
Proof.
  destruct (read_returns filename (JArr []) w) as [v Hv].
  unfold update. rewrite bind_world, bind_result, Hv.
  rewrite bind_world, bind_result. unfold lift. cbn [fst snd].
  assert (Array_findIndex v predicate ≠ Pending) as Hfind by (by destruct v).
  destruct (Array_findIndex v predicate) as [index|e|]; [|by exists (Throw e)|done].
  destruct (index =? -1);
    [exists (Throw (TypeError EmptyString)); unfold ret; by split|].
  set (d := Array_set v index (spread2 (Array_get v index) updates)).
  exists (Return d). rewrite bind_world, bind_result. unfold ret.
  destruct (write filename d _) as [[[]|e|] w2] eqn:Hw; cbn [fst snd];
    (split; [done|]); [done|done|].
  intros _. exists d. by rewrite Hw.
Qed.

Lemma remove_world filename predicate w :
  ∃ data : completion json,
    (remove filename predicate w).2
    = match data with
      | Return d => (write filename d (read filename (JArr []) w).2).2
      | _ => (read filename (JArr []) w).2
      end
    ∧ ((remove filename predicate w).1 = Pending →
       ∃ d, data = Return d
            ∧ (write filename d (read filename (JArr []) w).2).1 = Pending).
Proof.
  destruct (read_returns filename (JArr []) w) as [v Hv].
  unfold remove. rewrite bind_world, bind_result, Hv.
  rewrite bind_world, bind_result. unfold lift. cbn [fst snd].
  assert (Array_findIndex v predicate ≠ Pending) as Hfind by (by destruct v).
  destruct (Array_findIndex v predicate) as [index|e|]; [|by exists (Throw e)|done].
  destruct (index =? -1);
    [exists (Throw (TypeError EmptyString)); unfold ret; by split|].
  set (d := Array_splice1 v index).
  exists (Return d). rewrite bind_world, bind_result. unfold ret.
  destruct (write filename d _) as [[[]|e|] w2] eqn:Hw; cbn [fst snd];
    (split; [done|]); [done|done|].
  intros _. exists d. by rewrite Hw.
Qed.

End WriteFrame.

(** X12: A mutation of one collection stays inside it.  With no write to the
    collection in flight, and whichever file-system call fails, [write],
    [insert], [update] and [remove] leave every path other than the file
    of the collection and its temporary file as it was, in every state
    the disk goes through; they touch the lock of no other collection;
    they never wait; and when they return or throw, the lock of the
    collection is free again. *)
Theorem mutations_touch_one_collection `{JsRuntime} (filename : string)
    (data item : json) (predicate : json → bool) (updates : value) (w : world)
    (q other : string) :
  unlocked filename w →
  q ≠ path_join DATA_DIR filename →
  q ≠ temp_path (path_join DATA_DIR filename) (clock w) →
  other ≠ filename →
  let contained {A} (outcome : completion A * world) :=
    leaves_alone q other w outcome.2
    ∧ unlocked filename outcome.2
    ∧ outcome.1 ≠ Pending in
  contained (write filename data w)
  ∧ contained (insert filename item w)
  ∧ contained (update filename predicate updates w)
  ∧ contained (remove filename predicate w).
Proof.
  intros Hlock Hq1 Hq2 Hother contained.
  pose proof (read_preserves filename (JArr []) w) as (_ & Hl & Hc & _ & _).
  assert (∀ d, (write filename d (read filename (JArr []) w).2).1 ≠ Pending) as Hgo.
  { intros d. apply (write_frame filename d _ q other); try done.
    - unfold unlocked. by rewrite Hl.
    - by rewrite Hc. }
  split; [by apply write_frame|]. split; [|split].
  - destruct (insert_world filename item w) as (d & Hw & Hp).
    destruct (mutation_frame filename q other w d _ Hlock Hq1 Hq2 Hother Hw).
    split; [done|]. split; [done|].
    intros (d' & _ & Hd)%Hp. by apply Hgo in Hd.
  - destruct (update_world filename predicate updates w) as (d & Hw & Hp).
    destruct (mutation_frame filename q other w d _ Hlock Hq1 Hq2 Hother Hw).
    split; [done|]. split; [done|].
    intros (d' & _ & Hd)%Hp. by apply Hgo in Hd.
  - destruct (remove_world filename predicate w) as (d & Hw & Hp).
    destruct (mutation_frame filename q other w d _ Hlock Hq1 Hq2 Hother Hw).
    split; [done|]. split; [done|].
    intros (d' & _ & Hd)%Hp. by apply Hgo in Hd.
Qed.

Lemma mutations_touch_one_collection_witness :
  let w :=
    initial_world
      {[ path_join DATA_DIR "lessons.json" := Reference.stringify (JArr Sample.three);
         path_join DATA_DIR "quizzes.json" := Reference.stringify (JArr []) ]}
      1700000000000%N (mkFaults false (write_fails_after 3) false true) in
  let w' := (insert "lessons.json" (Sample.lesson "d" 4) w).2 in
  leaves_alone (path_join DATA_DIR "quizzes.json") "quizzes.json" w w'
  ∧ unlocked "lessons.json" w'.
Proof.
  intros w w'.
  destruct (mutations_touch_one_collection "lessons.json" JNull (Sample.lesson "d" 4)
              Sample.everything undefined w
              (path_join DATA_DIR "quizzes.json") "quizzes.json")
    as (_ & (Halone & Hfree & _) & _).
  - reflexivity.
  - vm_compute. discriminate.
  - vm_compute. discriminate.
  - vm_compute. discriminate.
  - split; [exact Halone|exact Hfree].
Defined.

(** ** A write that fails *)

Lemma findIndex_from_found predicate l k :
  0 ≤ k → (∃ r, r ∈ l ∧ predicate r = true) → 0 ≤ findIndex_from predicate l k.
Proof.
  revert k. induction l as [|x l IH]; intros k Hk (r & Hin & Hr); simpl.
  - by apply elem_of_nil in Hin.
  - destruct (predicate x) eqn:Hx; [done|].
    apply IH; [lia|]. apply elem_of_cons in Hin as [->|Hin]; [congruence|eauto].
Qed.

Section WriteFailure.
Context `{JsRuntime}.

Lemma write_failure filename data w :
  unlocked filename w →
  writeFileSync_outcome (faults w) ≠ write_completes
  ∨ renameSync_fails (faults w) = true →
  (∃ e, (write filename data w).1 = Throw e)
  ∧ files (write filename data w).2 !! path_join DATA_DIR filename
    = files w !! path_join DATA_DIR filename
  ∧ faults (write filename data w).2 = faults w
  ∧ unlocked filename (write filename data w).2.
Proof.
  intros Hlock Hfail.
  unfold write, bind, Date_now. rewrite acquireLock_free by done.
  set (filepath := path_join DATA_DIR filename).
  set (tempPath := temp_path filepath (clock w)).
  set (wl := set_fileLocks (<[filename:=true]> (fileLocks w)) w).
  pose proof (write_locked_atomic filename filepath tempPath data wl
                (temp_path_fresh filepath (clock w))) as (_ & Hl & Hfa & Hres).
  destruct (write_locked filename filepath tempPath data wl) as [r w'].
  cbn [fst snd] in *.
  destruct Hres as [(_ & _ & _ & Hw & Hr)|(He & Hf & _)].
  - subst wl. simpl in Hw, Hr. destruct Hfail; congruence.
  - split; [done|]. split; [done|]. split; [done|].
    unfold unlocked. rewrite Hl. by rewrite lookup_delete_eq.
Qed.

(** A mutation whose [write] fails. *)
Lemma mutation_failure {A} filename (w : world) (d : json) (result : A) :
  unlocked filename w →
  writeFileSync_outcome (faults w) ≠ write_completes
  ∨ renameSync_fails (faults w) = true →
  let outcome := (write filename d ;;; ret result) (read filename (JArr []) w).2 in
  (∃ e, outcome.1 = Throw e)
  ∧ (∀ defaultValue,
       (read filename defaultValue outcome.2).1 = (read filename defaultValue w).1)
  ∧ unlocked filename outcome.2.
Proof.
  intros Hlock Hfail outcome. subst outcome.
  pose proof (read_preserves filename (JArr []) w) as (Hf & Hl & _ & _ & Hfa).
  destruct (write_failure filename d (read filename (JArr []) w).2)
    as ([e He] & Hfile & Hfaults & Hfree).
  { unfold unlocked. by rewrite Hl. }
  { by rewrite Hfa. }
  rewrite bind_result, bind_world, He. split; [eauto|]. split; [|done].
  intros defaultValue. apply read_depends.
  - by rewrite Hfile, Hf.
  - by rewrite Hfaults, Hfa.
Qed.

End WriteFailure.

(** X13: When the [write] at the end of a mutation fails -- the temporary file
    cannot be written in full, or the rename fails -- the mutation throws
    instead of returning, the collection reads exactly as it did before
    the call, and the lock is free again.  This holds for [insert], and
    for [update] and [remove] when a record matches (otherwise they do
    not write), also when the removal of the temporary file fails too. *)
Theorem failed_write_keeps_collection `{JsRuntime} (filename : string) (item : json)
    (predicate : json → bool) (updates : value) (w : world) (l : list json) :
  unlocked filename w →
  (read filename (JArr []) w).1 = Return (JArr l) →
  writeFileSync_outcome (faults w) ≠ write_completes
  ∨ renameSync_fails (faults w) = true →
  let fails {A} (outcome : completion A * world) :=
    (∃ e, outcome.1 = Throw e)
    ∧ (∀ defaultValue,
         (read filename defaultValue outcome.2).1 = (read filename defaultValue w).1)
    ∧ unlocked filename outcome.2 in
  fails (insert filename item w)
  ∧ ((∃ r, r ∈ l ∧ predicate r = true) →
     fails (update filename predicate updates w)
     ∧ fails (remove filename predicate w)).
Proof.
  intros Hlock Hread Hfail fails.
  split; [|intros Hmatch; split].
  - unfold insert, bind at 1.
    destruct (read filename (JArr []) w) as [r w1] eqn:Hr. simpl in Hread. subst r.
    unfold bind at 1, lift. cbn [Array_push as_array].
    replace w1 with (read filename (JArr []) w).2 by (by rewrite Hr).
    by apply mutation_failure.
  - unfold update, bind at 1.
    destruct (read filename (JArr []) w) as [r w1] eqn:Hr. simpl in Hread. subst r.
    unfold bind at 1, lift. cbn [Array_findIndex as_array].
    pose proof (findIndex_from_found predicate l 0 ltac:(lia) Hmatch) as Hi.
    replace (findIndex_from predicate l 0 =? -1) with false
      by (symmetry; apply Z.eqb_neq; lia).
    replace w1 with (read filename (JArr []) w).2 by (by rewrite Hr).
    by apply mutation_failure.
  - unfold remove, bind at 1.
    destruct (read filename (JArr []) w) as [r w1] eqn:Hr. simpl in Hread. subst r.
    unfold bind at 1, lift. cbn [Array_findIndex as_array].
    pose proof (findIndex_from_found predicate l 0 ltac:(lia) Hmatch) as Hi.
    replace (findIndex_from predicate l 0 =? -1) with false
      by (symmetry; apply Z.eqb_neq; lia).
    replace w1 with (read filename (JArr []) w).2 by (by rewrite Hr).
    by apply mutation_failure.
Qed.

Lemma failed_write_keeps_collection_witness :
  let w :=
    initial_world
      {[ path_join DATA_DIR "lessons.json" := Reference.stringify (JArr Sample.three) ]}
      1700000000000%N (mkFaults false (write_fails_after 7) false false) in
  (∃ e, (insert "lessons.json" (Sample.lesson "d" 4) w).1 = Throw e)
  ∧ (read "lessons.json" (JArr []) (insert "lessons.json" (Sample.lesson "d" 4) w).2).1
    = Return (JArr Sample.three)
  ∧ (∃ e, (remove "lessons.json" (Sample.has_id "b") w).1 = Throw e)
  ∧ (read "lessons.json" (JArr []) (remove "lessons.json" (Sample.has_id "b") w).2).1
    = Return (JArr Sample.three).
Proof.
  intros w.
  destruct (failed_write_keeps_collection "lessons.json" (Sample.lesson "d" 4)
              (Sample.has_id "b") undefined w Sample.three)
    as ((Hi & Hri & _) & Hmatch).
  - reflexivity.
  - vm_compute. reflexivity.
  - left. simpl. discriminate.
  - destruct Hmatch as (_ & Hr & Hrr & _).
    + exists (Sample.lesson "b" 1). split; [|reflexivity].
      unfold Sample.three. apply elem_of_cons. right. apply elem_of_cons. by left.
    + split; [exact Hi|]. split; [rewrite Hri; vm_compute; reflexivity|].
      split; [exact Hr|]. rewrite Hrr. vm_compute. reflexivity.
Defined.

(** ** Walking the pages *)

Lemma slice_page d limit k :
  0 < limit →
  Array_slice d (Z.of_nat k * limit) (Z.of_nat k * limit + limit)
  = take (Z.to_nat limit) (drop (k * Z.to_nat limit) d).
Proof.
  intros Hl. rewrite slice_half_open_range by nia.
  unfold half_open_range. rewrite range_from_take_drop by nia.
  f_equal; [f_equal; lia|]. f_equal.
  rewrite Z.sub_0_r, Z2Nat.inj_mul, Nat2Z.id by lia. done.
Qed.

Lemma concat_pages (d : list json) (size n : nat) :
  concat ((λ k, take size (drop (k * size) d)) <$> seq 0 n) = take (n * size) d.
Proof.
  induction n as [|n IH]; [done|].
  rewrite seq_S, fmap_app, concat_app, IH. simpl.
  rewrite app_nil_r, take_take_drop. f_equal. lia.
Qed.

(** X14: The pages partition what [paginate] selects.  With a page size of at
    least 1, the pages 1 to [totalPages], one after the other, hold every
    selected record once, in order; each of them holds at least one
    record and at most [limit]; every page after [totalPages] is empty. *)
Theorem pages_cover_collection `{JsRuntime} (filename : string)
    (predicate : json → bool) (limit : Z) (sort : option sort_options) (w : world)
    (l d : list json) :
  (read filename (JArr []) w).1 = Return (JArr l) →
  sort_if sort (List.filter predicate l) = Return d →
  0 < limit →
  ∃ n : nat,
    (∀ page, ∃ result,
       (paginate filename predicate page limit sort w).1 = Return result
       ∧ total result = Z.of_nat (length d)
       ∧ totalPages result = Finite (Z.of_nat n))
    ∧ first_pages filename predicate limit sort w n = d
    ∧ (∀ page, 1 ≤ page ≤ Z.of_nat n →
         page_items filename predicate limit sort w page ≠ []
         ∧ Z.of_nat (length (page_items filename predicate limit sort w page)) ≤ limit)
    ∧ (∀ page, Z.of_nat n < page →
         page_items filename predicate limit sort w page = []).
Proof.
  intros Hread Hsort Hlimit.
  destruct (ceil_div_spec (Z.of_nat (length d)) limit Hlimit) as (c & Hc & Hlo & Hhi).
  assert (0 ≤ c) as Hc0 by nia.
  exists (Z.to_nat c).
  assert (∀ k : nat,
            page_items filename predicate limit sort w (Z.of_nat (S k))
            = take (Z.to_nat limit) (drop (k * Z.to_nat limit) d)) as Hpage.
  { intros k. unfold page_items.
    rewrite (paginate_unfold _ _ _ _ _ _ l d) by done. cbn [items].
    replace (Z.of_nat (S k) - 1) with (Z.of_nat k) by lia. by apply slice_page. }
  split; [|split; [|split]].
  - intros page. eexists. split; [by apply (paginate_unfold _ _ _ _ _ _ l d)|].
    split; [done|]. cbn [totalPages]. rewrite Hc. f_equal. lia.
  - unfold first_pages. rewrite <- list_fmap_compose.
    rewrite <- (fmap_S_seq 0), <- list_fmap_compose.
    assert ((page_items filename predicate limit sort w ∘ Z.of_nat ∘ S)
              <$> seq 0 (Z.to_nat c)
            = (λ k, take (Z.to_nat limit) (drop (k * Z.to_nat limit) d))
              <$> seq 0 (Z.to_nat c)) as ->.
    { apply Forall_fmap_ext, Forall_forall. intros k _. apply Hpage. }
    rewrite concat_pages. apply take_ge. nia.
  - intros page Hp.
    replace page with (Z.of_nat (S (Z.to_nat (page - 1)))) by lia.
    rewrite Hpage. split.
    + intros Hnil. apply (f_equal length) in Hnil.
      rewrite length_take, length_drop in Hnil. simpl in Hnil. nia.
    + rewrite length_take. lia.
  - intros page Hp.
    replace page with (Z.of_nat (S (Z.to_nat (page - 1)))) by lia.
    rewrite Hpage. rewrite drop_ge by nia. by rewrite take_nil.
Qed.

Lemma pages_cover_collection_witness :
  let w := Sample.world_with "lessons.json" (Sample.lessons 25) in
  first_pages "lessons.json" Sample.everything 10 None w 3 = Sample.lessons 25
  ∧ page_items "lessons.json" Sample.everything 10 None w 4 = [].
Proof.
  intros w.
  destruct (pages_cover_collection "lessons.json" Sample.everything 10 None w
              (Sample.lessons 25) (Sample.lessons 25))
    as (n & Hpages & Hall & _ & Hbeyond).
  - vm_compute. reflexivity.
  - vm_compute. reflexivity.
  - lia.
  - destruct (Hpages 1) as (result & Hresult & _ & Hn).
    assert (n = 3%nat) as ->.
    { vm_compute in Hresult. injection Hresult as <-. simpl in Hn.
      injection Hn as Hn. lia. }
    split; [exact Hall|]. apply Hbeyond. lia.
Defined.

(** ** The record [update] writes *)

Lemma assoc_obj_set o k v k' :
  assoc k' (obj_set o k v) = if decide (k' = k) then Some v else assoc k' o.
Proof.
  induction o as [|[k0 v0] o IH]; simpl.
  - done.
  - destruct (decide (k = k0)) as [->|Hne]; simpl.
    + by destruct (decide (k' = k0)).
    + destruct (decide (k' = k0)) as [->|Hne'].
      * by rewrite decide_False by done.
      * exact IH.
Qed.

Lemma assoc_None k (o : list (string * json)) : k ∉ o.*1 → assoc k o = None.
Proof.
  induction o as [|[k0 v0] o IH]; simpl; [done|].
  intros Hk. rewrite decide_False by (intros ->; apply Hk; by left).
  apply IH. intros Hin. apply Hk. by right.
Qed.

Lemma assoc_spread (o u : list (string * json)) (k : string) :
  NoDup u.*1 →
  assoc k (foldl (λ acc kv, obj_set acc kv.1 kv.2) o u)
  = match assoc k u with
    | Some v => Some v
    | None => assoc k o
    end.
Proof.
  revert o. induction u as [|[k0 v0] u IH]; intros o Hnd; simpl; [done|].
  apply NoDup_cons in Hnd as [Hk0 Hnd]. rewrite IH by done.
  rewrite assoc_obj_set. destruct (decide (k = k0)) as [->|Hne]; [|done].
  by rewrite assoc_None.
Qed.

(** X15: [update] merges field by field.  The first record [r] the predicate
    selects being an object, and [updates] an object, the record [update]
    returns and stores has, for every name, the value [updates] gives it
    if it has one, and the value of [r] otherwise: the fields of
    [updates] replace those of [r] -- its [id] included -- and every
    other field of [r] is kept. *)
Theorem update_merges_fields `{JsRuntime} (filename : string) (predicate : json → bool)
    (w : world) (l : list json) (i : nat) (r u : list (string * json)) :
  faults w = no_faults →
  unlocked filename w →
  (read filename (JArr []) w).1 = Return (JArr l) →
  l !! i = Some (JObj r) →
  predicate (JObj r) = true →
  (∀ j x, (j < i)%nat → l !! j = Some x → predicate x = false) →
  NoDup r.*1 →
  NoDup u.*1 →
  ∃ merged,
    (update filename predicate (Some (JObj u)) w).1 = Return (Some (JObj merged))
    ∧ ∀ k, assoc k merged = match assoc k u with
                            | Some v => Some v
                            | None => assoc k r
                            end.
Proof.
  intros Hfaults Hlock Hread Hi Hr Hfirst Hndr Hndu.
  rewrite (update_ok filename predicate w l i (JObj r)) by done.
  eexists. split; [reflexivity|].
  intros k. unfold spread_into. cbn [own_properties].
  rewrite assoc_spread by done. rewrite assoc_spread by done.
  destruct (assoc k u); [done|]. by destruct (assoc k r).
Qed.

Lemma update_merges_fields_witness :
  let w := Sample.world_with "lessons.json" Sample.three in
  let u := [("id", JStr "z"); ("done", JBool true)] in
  ∃ merged,
    (update "lessons.json" (Sample.has_id "b") (Some (JObj u)) w).1
    = Return (Some (JObj merged))
    ∧ assoc "id" merged = Some (JStr "z")
    ∧ assoc "score" merged = Some (JNum 1)
    ∧ assoc "done" merged = Some (JBool true).
Proof.
  intros w u.
  destruct (update_merges_fields "lessons.json" (Sample.has_id "b") w Sample.three 1
              [("id", JStr "b"); ("score", JNum 1)] u) as (merged & Hres & Hfields).
  - reflexivity.
  - reflexivity.
  - vm_compute. reflexivity.
  - reflexivity.
  - reflexivity.
  - intros j x Hj Hx. destruct j as [|j]; [|lia]. injection Hx as <-. reflexivity.
  - compute_done.
  - compute_done.
  - exists merged. split; [exact Hres|].
    rewrite !Hfields. repeat split; reflexivity.
Defined.

(** ** Calls of [insert] made in turn *)

Lemma inserted_in_turn_spec `{JsRuntime} (filename : string) (items : list json) :
  ∀ (w : world) (l : list json),
    faults w = no_faults →
    unlocked filename w →
    (read filename (JArr []) w).1 = Return (JArr l) →
    (∀ k, round_trips (JArr (l ++ take k items))) →
    faults (inserted_in_turn filename items w) = no_faults
    ∧ unlocked filename (inserted_in_turn filename items w)
    ∧ (read filename (JArr []) (inserted_in_turn filename items w)).1
      = Return (JArr (l ++ items)).
Proof.
  induction items as [|item items IH]; intros w l Hfaults Hlock Hread Hrt.
  - simpl. by rewrite app_nil_r.
  - assert (round_trips (JArr (l ++ [item]))) as Hrt1 by apply (Hrt 1%nat).
    change (inserted_in_turn filename (item :: items) w)
      with (inserted_in_turn filename items (insert filename item w).2).
    destruct (IH (insert filename item w).2 (l ++ [item])) as (Hf & Hl & Hr).
    + by eapply after_insert_faults.
    + by eapply after_insert_unlocked.
    + by apply after_insert_read.
    + intros k. rewrite <- app_assoc. apply (Hrt (S k)).
    + split; [done|]. split; [done|]. by rewrite Hr, <- app_assoc.
Qed.

(** X16: Calls of [insert] that do not overlap lose nothing: made one after
    the other, each awaited before the next, with no failing call, they
    leave the collection holding the records it held followed by all the
    inserted ones, in the order of the calls; and the lock is free. *)
Theorem inserts_in_turn_keep_all `{JsRuntime} (filename : string) (items : list json)
    (w : world) (l : list json) :
  faults w = no_faults →
  unlocked filename w →
  (read filename (JArr []) w).1 = Return (JArr l) →
  (∀ k, round_trips (JArr (l ++ take k items))) →
  let w' := inserted_in_turn filename items w in
  (read filename (JArr []) w').1 = Return (JArr (l ++ items))
  ∧ unlocked filename w'.
Proof.
  intros Hfaults Hlock Hread Hrt w'.
  destruct (inserted_in_turn_spec filename items w l) as (_ & Hl & Hr); done.
Qed.

Lemma inserts_in_turn_keep_all_witness :
  let added := [Sample.lesson "d" 4; Sample.lesson "e" 5] in
  let w' :=
    inserted_in_turn "lessons.json" added (Sample.world_with "lessons.json" Sample.three) in
  (read "lessons.json" (JArr []) w').1 = Return (JArr (Sample.three ++ added))
  ∧ unlocked "lessons.json" w'.
Proof.
  intros added w'.
  apply (inserts_in_turn_keep_all "lessons.json" added
           (Sample.world_with "lessons.json" Sample.three) Sample.three).
  - reflexivity.
  - reflexivity.
  - vm_compute. reflexivity.
  - intros k. destruct k as [|[|[|k]]]; vm_compute; reflexivity.
Defined.

(** ** [errorHandler]: what the response shows *)

Lemma same_number_spec v n : same_number (Some v) n = true ↔ v = JNum n.
Proof.
  destruct v; simpl; try (split; [done|discriminate]).
  case_bool_decide; split; congruence.
Qed.

(** The answers to one error under two values of [NODE_ENV]. *)
Lemma errorHandler_env N1 N2 err w :
  match (errorHandler N1 err w).1 with
  | Return r1 =>
      ∃ r2, (errorHandler N2 err w).1 = Return r2
            ∧ status r2 = status r1
            ∧ (same_string N1 "production" && same_number (Some (status r1)) 500 = true →
               body r1 = error_body (JStr "Internal server error") (JArr []))
            ∧ (same_string N1 "production" && same_number (Some (status r1)) 500 = false →
               same_string N2 "production" && same_number (Some (status r1)) 500 = false →
               r2 = r1)
  | _ => True
  end.
Proof.
  unfold errorHandler, bind, console_error, lift. cbn [fst].
  destruct (is_null err) eqn:Hnull; [by destruct err|].
  destruct (get_not_null err "statusCode" Hnull) as [statusCode0 ->].
  destruct (get_not_null err "message" Hnull) as [message0 ->].
  destruct (get_not_null err "errors" Hnull) as [errors0 ->].
  destruct (get_not_null err "name" Hnull) as [name ->].
  destruct (get_not_null err "status" Hnull) as [status_ Hstatus].
  cbn [and_then].
  destruct (same_string name "ValidationError");
    [destruct (map_completion _ _); cbn [and_then]; try done|];
    rewrite ?Hstatus; cbn [and_then];
    destruct (same_string name "SyntaxError" && same_number status_ 400
              && has_key "body" err);
    change (same_number (Some (JNum 400)) 500) with false;
    destruct (same_string N1 "production") eqn:H1,
             (same_string N2 "production") eqn:H2; cbn [andb];
    try destruct (same_number (Some (or_else statusCode0 (JNum 500))) 500) eqn:Hs;
    (eexists; split; [reflexivity|]); cbn [status body];
    rewrite ?Hs; cbn [andb]; repeat split; intros; done.
Qed.

(** X17: In production a response with status 500 shows nothing of the error:
    its message is "Internal server error" and its list of errors is
    empty, whatever [err.message] and [err.errors] hold.  Every other
    response is the one sent outside production: the message and the
    errors of an error with another status are passed on as they are. *)
Theorem errorHandler_production_hides_details (err : json) (w : world) (r : response) :
  (errorHandler (Some (JStr "production")) err w).1 = Return r →
  (status r = JNum 500 →
   body r = error_body (JStr "Internal server error") (JArr []))
  ∧ (status r ≠ JNum 500 →
     ∀ NODE_ENV, (errorHandler NODE_ENV err w).1 = Return r).
Proof.
  intros Hr. split.
  - intros Hs.
    pose proof (errorHandler_env (Some (JStr "production")) undefined err w) as Henv.
    rewrite Hr in Henv. destruct Henv as (r2 & _ & _ & Hhide & _).
    apply Hhide. rewrite Hs. reflexivity.
  - intros Hs NODE_ENV.
    pose proof (errorHandler_env (Some (JStr "production")) NODE_ENV err w) as Henv.
    rewrite Hr in Henv. destruct Henv as (r2 & -> & _ & _ & Hsame).
    assert (same_number (Some (status r)) 500 = false) as Hne.
    { destruct (same_number (Some (status r)) 500) eqn:Hn; [|done].
      by apply same_number_spec in Hn. }
    f_equal. apply Hsame; rewrite Hne; apply andb_false_r.
Qed.

Lemma errorHandler_production_hides_details_witness :
  let w := initial_world ∅ 0 no_faults in
  let err := JObj [("message", JStr "connect ECONNREFUSED 10.0.0.5:5432");
                   ("errors", JArr [JStr "at Socket.connect"])] in
  ∃ r, (errorHandler (Some (JStr "production")) err w).1 = Return r
       ∧ body r = error_body (JStr "Internal server error") (JArr []).
Proof.
  intros w err.
  exists (mkResponse (JNum 500) (error_body (JStr "Internal server error") (JArr []))).
  assert ((errorHandler (Some (JStr "production")) err w).1
          = Return (mkResponse (JNum 500)
                      (error_body (JStr "Internal server error") (JArr [])))) as Hr
    by (vm_compute; reflexivity).
  split; [exact Hr|].
  destruct (errorHandler_production_hides_details err w _ Hr) as [Hhide _].
  apply Hhide. reflexivity.
Defined.

Lemma messages_length (l ms : list json) :
  map_completion (λ e, m <~ get (Some e) "message" ;; Return (json_or_null m)) l
  = Return ms →
  length ms = length l.
Proof.
  revert ms. induction l as [|x l IH]; intros ms; cbn [map_completion and_then].
  - by intros [= <-].
  - destruct (get (Some x) "message"); cbn [and_then]; try done.
    destruct (map_completion _ l) as [ys| |]; cbn [and_then]; try done.
    intros [= <-]. simpl. by rewrite (IH ys).
Qed.

Lemma messages_null (l : list json) :
  JNull ∈ l →
  ∃ e, map_completion (λ e, m <~ get (Some e) "message" ;; Return (json_or_null m)) l
       = Throw e
       ∧ error_name e = "TypeError".
Proof.
  induction l as [|x l IH]; intros Hin; [by apply elem_of_nil in Hin|].
  cbn [map_completion and_then].
  pose proof (get_throws_TypeError (Some x) "message") as Hx.
  apply elem_of_cons in Hin as [<-|Hin].
  - simpl. eauto.
  - destruct (get (Some x) "message"); cbn [and_then]; [|eauto|done].
    destruct (IH Hin) as (e & -> & He). cbn [and_then]. eauto.
Qed.

(** X18: An error named "ValidationError" is answered with status 400 and the
    message "Validation error", whatever status and message it carries
    and in every environment, with one entry per value of [err.errors]
    (none when [err.errors] is missing).  When one of these values is
    [null] the handler itself throws a [TypeError] and sends nothing. *)
Theorem errorHandler_validation (NODE_ENV : value) (err : json) (w : world)
    (errors0 : value) :
  get (Some err) "name" = Return (Some (JStr "ValidationError")) →
  get (Some err) "errors" = Return errors0 →
  let entries := Object_values (or_else errors0 (JObj [])) in
  (∀ r, (errorHandler NODE_ENV err w).1 = Return r →
     status r = JNum 400
     ∧ ∃ messages,
         body r = error_body (JStr "Validation error") (JArr messages)
         ∧ length messages = length entries)
  ∧ (JNull ∈ entries →
     ∃ e, (errorHandler NODE_ENV err w).1 = Throw e ∧ error_name e = "TypeError")
  ∧ (Forall (λ entry, is_null entry = false) entries →
     ∃ r, (errorHandler NODE_ENV err w).1 = Return r).
Proof.
  intros Hname Herrors entries.
  assert (is_null err = false) as Hnull by (by destruct err).
  unfold errorHandler, bind, console_error, lift. cbn [fst].
  destruct (get_not_null err "statusCode" Hnull) as [statusCode0 ->].
  destruct (get_not_null err "message" Hnull) as [message0 ->].
  destruct (get_not_null err "status" Hnull) as [status_ Hstatus].
  rewrite Herrors, Hname. cbn [and_then].
  change (same_string (Some (JStr "ValidationError")) "ValidationError") with true.
  change (same_string (Some (JStr "ValidationError")) "SyntaxError") with false.
  cbv iota. fold entries.
  split; [|split].
  - intros r.
    destruct (map_completion _ entries) as [ms| |] eqn:Hms; cbn [and_then]; try done.
    rewrite Hstatus. cbn [and_then andb].
    change (same_number (Some (JNum 400)) 500) with false. rewrite andb_false_r.
    intros [= <-]. split; [done|]. exists ms. split; [done|].
    by apply messages_length.
  - intros Hin. destruct (messages_null entries Hin) as (e & -> & He).
    cbn [and_then]. eauto.
  - intros Hall.
    assert (∃ ms, map_completion
                    (λ e, m <~ get (Some e) "message" ;; Return (json_or_null m)) entries
                  = Return ms) as [ms ->].
    { clear -Hall. induction Hall as [|x l Hx Hl [ms IH]];
        cbn [map_completion and_then]; [eauto|].
      destruct (get_not_null x "message" Hx) as [m ->]. cbn [and_then].
      rewrite IH. cbn [and_then]. eauto. }
    cbn [and_then]. rewrite Hstatus. cbn [and_then andb].
    change (same_number (Some (JNum 400)) 500) with false. rewrite andb_false_r.
    eauto.
Qed.

Lemma errorHandler_validation_witness :
  let w := initial_world ∅ 0 no_faults in
  let err :=
    JObj [("name", JStr "ValidationError"); ("statusCode", JNum 500);
          ("message", JStr "User validation failed");
          ("errors", JObj [("email", JObj [("message", JStr "Email is required")]);
                           ("age", JObj [("kind", JStr "min")])])] in
  ∃ r, (errorHandler (Some (JStr "production")) err w).1 = Return r
       ∧ status r = JNum 400
       ∧ ∃ messages,
           body r = error_body (JStr "Validation error") (JArr messages)
           ∧ length messages = 2%nat.
Proof.
  intros w err.
  destruct (errorHandler_validation (Some (JStr "production")) err w
              (Some (JObj [("email", JObj [("message", JStr "Email is required")]);
                           ("age", JObj [("kind", JStr "min")])])))
    as (Hanswer & _ & Hreturns).
  - reflexivity.
  - reflexivity.
  - destruct Hreturns as [r Hr].
    + repeat constructor.
    + exists r. split; [exact Hr|]. exact (Hanswer r Hr).
Defined.

(** ** [chat]: the options and the answer with status 200 *)

(** X19: [options.temperature || 0.7] and [options.max_tokens || 4096] take a
    falsy value for a missing one: a temperature of 0 cannot be asked
    for, the request carries 0.7, and [max_tokens: 0] becomes 4096.  A
    truthy value is sent as it is, of whatever type.  With [options]
    [null] a call that passed the checks of the model and of the API key
    is rejected with a [TypeError]. *)
Theorem chat_options_defaults (env : environment) (modelKey : value) (messages : json)
    (options : json) (request : chat_request) (t m : value) :
  chat_prepare env modelKey messages (Some options) = Return request →
  get (Some options) "temperature" = Return t →
  get (Some options) "max_tokens" = Return m →
  is_null options = false
  ∧ (truthy t = false → request_temperature request = default_temperature)
  ∧ (truthy m = false → request_max_tokens request = JNum 4096)
  ∧ (∀ x, t = Some x → truthy t = true →
       request_temperature request = given_temperature x)
  ∧ (∀ x, m = Some x → truthy m = true → request_max_tokens request = x).
Proof.
  unfold chat_prepare. intros Hreq Ht Hm.
  destruct (display modelKey) as [key| |]; cbn [and_then] in Hreq; [|done..].
  split; [by destruct options|].
  destruct (lookup_model key); [| |done];
    (destruct (negb (nonempty (NANO_API_KEY env))); [done|]);
    rewrite Ht, Hm in Hreq; cbn [and_then] in Hreq; injection Hreq as <-;
    cbn [request_temperature request_max_tokens]; unfold or_else;
    (split; [|split; [|split]]).
  all: try (intros Hf; destruct t, m; try done; by rewrite Hf).
  all: try (intros x -> Hx; by rewrite Hx).
Qed.

Lemma chat_options_defaults_witness :
  let env := mkEnv (Some "secret") None in
  let options := JObj [("temperature", JNum 0); ("max_tokens", JNum 0)] in
  ∃ request,
    chat_prepare env (Some (JStr "kimi-k2")) (JArr []) (Some options) = Return request
    ∧ request_temperature request = default_temperature
    ∧ request_max_tokens request = JNum 4096.
Proof.
  intros env options.
  assert (∃ request,
            chat_prepare env (Some (JStr "kimi-k2")) (JArr []) (Some options)
            = Return request) as [request Hreq] by (eexists; reflexivity).
  exists request. split; [exact Hreq|].
  destruct (chat_options_defaults env (Some (JStr "kimi-k2")) (JArr []) options request
              (Some (JNum 0)) (Some (JNum 0)) Hreq) as (_ & Ht & Hm & _).
  - reflexivity.
  - reflexivity.
  - split; [apply Ht|apply Hm]; reflexivity.
Defined.

Lemma indexed_head (x : json) (rest : list json) : indexed (x :: rest) "0" = Some x.
Proof.
  unfold indexed. cbn [length seq list_find].
  by rewrite decide_True by reflexivity.
Qed.

(** X20: With status 200, [chat] settles by the shape of the body.  A body
    that is not JSON is rejected with the parse failure.  An object whose
    [choices] is missing, [null] or an empty array, or whose first choice
    has no [message], is rejected with "Invalid API response format".  An
    object whose first choice carries a message object resolves with that
    message's [content] -- with [undefined] when it has none. *)
Theorem chat_settles_status_200 `{JsRuntime} (data : string) :
  (JSON_parse data = None →
   ∃ detail, on_end 200 data
             = Rejected (new_Error ("Failed to parse API response: " +:+ detail)))
  ∧ (∀ o, JSON_parse data = Some (JObj o) →
       assoc "choices" o = None ∨ assoc "choices" o = Some JNull
       ∨ assoc "choices" o = Some (JArr [])
       ∨ (∃ first rest, assoc "choices" o = Some (JArr (JObj first :: rest))
                        ∧ assoc "message" first = None) →
       on_end 200 data = Rejected (new_Error "Invalid API response format"))
  ∧ (∀ o first rest message,
       JSON_parse data = Some (JObj o) →
       assoc "choices" o = Some (JArr (JObj first :: rest)) →
       assoc "message" first = Some (JObj message) →
       on_end 200 data = Resolved (assoc "content" message)).
Proof.
  unfold on_end. change (200 =? 200) with true. cbn [negb].
  split; [|split].
  - intros ->. cbn [and_then]. eauto.
  - intros o -> Hchoices. cbn [and_then get].
    destruct Hchoices as [-> | [-> | [-> | (first & rest & -> & Hm)]]];
      cbn [and_then truthy]; try done.
    cbn [get]. rewrite decide_False by done. rewrite indexed_head.
    cbn [and_then truthy get]. rewrite Hm. done.
  - intros o first rest message -> Hchoices Hm. cbn [and_then get].
    rewrite Hchoices. cbn [and_then truthy get].
    rewrite decide_False by done. rewrite indexed_head.
    cbn [and_then truthy get]. rewrite Hm. done.
Qed.

Lemma chat_settles_status_200_witness :
  on_end 200 "<html>502 Bad Gateway</html>"
  = Rejected (new_Error "Failed to parse API response: Unexpected token in JSON")
  ∧ on_end 200 (Reference.stringify (JObj [("choices", JArr [])]))
    = Rejected (new_Error "Invalid API response format")
  ∧ on_end 200 (Sample.with_content "Hello") = Resolved (Some (JStr "Hello")).
Proof.
  destruct (chat_settles_status_200 "<html>502 Bad Gateway</html>") as ([detail Hd] & _).
  { vm_compute. reflexivity. }
  destruct (chat_settles_status_200 (Reference.stringify (JObj [("choices", JArr [])])))
    as (_ & Hformat & _).
  destruct (chat_settles_status_200 (Sample.with_content "Hello")) as (_ & _ & Hcontent).
  split; [|split].
  - rewrite Hd. vm_compute in Hd. injection Hd as <-. reflexivity.
  - eapply Hformat; [vm_compute; reflexivity|]. right. right. by left.
  - rewrite (Hcontent
               [("choices",
                 JArr [JObj [("index", JNum 0);
                             ("message", JObj [("role", JStr "assistant");
                                               ("content", JStr "Hello")])]])]
               [("index", JNum 0);
                ("message", JObj [("role", JStr "assistant"); ("content", JStr "Hello")])]
               [] [("role", JStr "assistant"); ("content", JStr "Hello")]);
      [reflexivity|vm_compute; reflexivity|reflexivity|reflexivity].
Defined.

(** ** The lookups agree *)

Lemma find_head_filter {A} (p : A → bool) (l : list A) :
  List.find p l = head (List.filter p l).
Proof. induction l as [|x l IH]; simpl; [done|]. by destruct (p x). Qed.

Lemma slice_sublist (l : list json) (start end_ : Z) :
  Array_slice l start end_ `sublist_of` l.
Proof.
  unfold Array_slice. etrans; [apply sublist_take|apply sublist_drop].
Qed.

(** X21: The three lookups see the same records.  When [findMany] returns
    [matches] for a predicate, [findOne] returns the first of them
    ([undefined] when there is none), and [paginate], unsorted, counts
    [total] as their number and answers, for every page and page size,
    some of them in their order. *)
Theorem lookups_agree `{JsRuntime} (filename : string) (predicate : json → bool)
    (w : world) (matches : list json) :
  (findMany filename predicate w).1 = Return matches →
  (findOne filename predicate w).1 = Return (head matches)
  ∧ ∀ page limit, ∃ result,
      (paginate filename predicate page limit None w).1 = Return result
      ∧ total result = Z.of_nat (length matches)
      ∧ items result `sublist_of` matches.
Proof.
  intros Hmany.
  destruct (read_returns filename (JArr []) w) as [data Hr].
  rewrite (findMany_after_read _ _ _ data Hr) in Hmany.
  rewrite (findOne_after_read _ _ _ data Hr).
  destruct data as [| | | |l|]; try done. simpl in Hmany. injection Hmany as <-.
  split; [cbn [fst Array_find as_array]; by rewrite find_head_filter|].
  intros page limit. eexists.
  split; [by apply (paginate_unfold _ _ _ _ _ _ l (List.filter predicate l))|].
  split; [done|]. apply slice_sublist.
Qed.

Lemma lookups_agree_witness :
  let w := Sample.world_with "lessons.json" (Sample.three ++ [Sample.lesson "b" 9]) in
  (findOne "lessons.json" (Sample.has_id "b") w).1 = Return (Some (Sample.lesson "b" 1))
  ∧ ∃ result,
      (paginate "lessons.json" (Sample.has_id "b") 1 10 None w).1 = Return result
      ∧ total result = 2.
Proof.
  intros w.
  destruct (lookups_agree "lessons.json" (Sample.has_id "b") w
              [Sample.lesson "b" 1; Sample.lesson "b" 9]) as (Hone & Hpage).
  - vm_compute. reflexivity.
  - split; [exact Hone|].
    destruct (Hpage 1 10) as (result & Hresult & Htotal & _).
    exists result. split; [exact Hresult|exact Htotal].
Defined.

(** ** [remove] deletes one record *)

Lemma filter_delete_first (p : json → bool) (l : list json) (i : nat) (r : json) :
  l !! i = Some r → p r = true →
  (∀ j x, (j < i)%nat → l !! j = Some x → p x = false) →
  List.filter p (delete i l) = tail (List.filter p l).
Proof.
  revert i. induction l as [|x l IH]; intros i Hi Hr Hfirst; [done|].
  destruct i as [|i]; simpl in *.
  - injection Hi as ->. by rewrite Hr.
  - rewrite (Hfirst 0%nat x) by (done || lia).
    apply (IH i); [done|done|].
    intros j y Hj Hy. apply (Hfirst (S j) y); [lia|done].
Qed.

Lemma filter_delete_other (q : json → bool) (l : list json) (i : nat) (r : json) :
  l !! i = Some r → q r = false → List.filter q (delete i l) = List.filter q l.
Proof.
  revert i. induction l as [|x l IH]; intros i Hi Hr; [done|].
  destruct i as [|i]; simpl in *.
  - injection Hi as ->. by rewrite Hr.
  - by rewrite (IH i).
Qed.

(** X22: One call of [remove] deletes one record, however many match.  After
    it, [findMany] with the same predicate returns the earlier matches
    without the first one, and with a predicate that selects no record
    the first one selects, it returns what it returned before. *)
Theorem remove_deletes_one `{JsRuntime} (filename : string) (predicate : json → bool)
    (w : world) (l : list json) (i : nat) (r : json) :
  faults w = no_faults →
  unlocked filename w →
  (read filename (JArr []) w).1 = Return (JArr l) →
  l !! i = Some r →
  predicate r = true →
  (∀ j x, (j < i)%nat → l !! j = Some x → predicate x = false) →
  round_trips (JArr (delete i l)) →
  let w' := (remove filename predicate w).2 in
  (findMany filename predicate w').1 = Return (tail (List.filter predicate l))
  ∧ ∀ other : json → bool,
      (∀ x, predicate x = true → other x = false) →
      (findMany filename other w').1 = Return (List.filter other l).
Proof.
  intros Hfaults Hlock Hread Hi Hr Hfirst Hrt w'. subst w'.
  rewrite (remove_ok filename predicate w l i r) by done. cbn [snd].
  pose proof (read_after_write filename w Hfaults (JArr (delete i l))
                (temp_path (path_join DATA_DIR filename)
                   (clock (read filename (JArr []) w).2)) Hrt) as Hafter.
  split.
  - rewrite (findMany_after_read _ _ _ _ Hafter). cbn [fst Array_filter as_array].
    by rewrite (filter_delete_first predicate l i r).
  - intros other Hother.
    rewrite (findMany_after_read _ _ _ _ Hafter). cbn [fst Array_filter as_array].
    rewrite (filter_delete_other other l i r); [done|done|]. by apply Hother.
Qed.

Lemma remove_deletes_one_witness :
  let l := Sample.three ++ [Sample.lesson "b" 9] in
  let w' := (remove "lessons.json" (Sample.has_id "b")
               (Sample.world_with "lessons.json" l)).2 in
  (findMany "lessons.json" (Sample.has_id "b") w').1 = Return [Sample.lesson "b" 9]
  ∧ (findMany "lessons.json" (Sample.has_id "c") w').1 = Return [Sample.lesson "c" 2].
Proof.
  intros l w'.
  destruct (remove_deletes_one "lessons.json" (Sample.has_id "b")
              (Sample.world_with "lessons.json" l) l 1 (Sample.lesson "b" 1))
    as (Hsame & Hother).
  - reflexivity.
  - reflexivity.
  - vm_compute. reflexivity.
  - reflexivity.
  - reflexivity.
  - intros j x Hj Hx. destruct j as [|j]; [|lia]. injection Hx as <-. reflexivity.
  - vm_compute. reflexivity.
  - split; [exact Hsame|].
    apply (Hother (Sample.has_id "c")).
    intros x. unfold Sample.has_id. destruct (get (Some x) "id") as [v| |]; [|done..].
    unfold same_string. destruct v as [[]|]; try done.
    repeat case_bool_decide; congruence.
Defined.

(** ** [write] and then [read] *)

Section WriteRead.
Context `{JsRuntime}.

Lemma write_then_read_once filename data w :
  faults w = no_faults →
  unlocked filename w →
  let w' := (write filename data w).2 in
  (write filename data w).1 = Return tt
  ∧ faults w' = no_faults
  ∧ unlocked filename w'
  ∧ (round_trips data →
     ∀ defaultValue, (read filename defaultValue w').1 = Return data).
Proof.
  intros Hfaults Hlock w'. subst w'.
  rewrite write_ok by (done || by rewrite Hfaults).
  cbn [fst snd]. split; [done|]. split; [done|]. split.
  - unfold unlocked. simpl. by rewrite lookup_delete_eq.
  - intros Hrt defaultValue. apply read_written; [|done]. simpl. by rewrite Hfaults.
Qed.

End WriteRead.

(** X23: [write] and [read] round-trip, for every JSON-compatible value, an
    array or not: with no failing call and no write in flight, [write]
    returns and a [read] after it returns the value written, never the
    default; and of two writes made in turn the second one is read. *)
Theorem write_then_read `{JsRuntime} (filename : string) (first second : json)
    (w : world) :
  faults w = no_faults →
  unlocked filename w →
  round_trips first →
  round_trips second →
  let w1 := (write filename first w).2 in
  let w2 := (write filename second w1).2 in
  (write filename first w).1 = Return tt
  ∧ (∀ defaultValue, (read filename defaultValue w1).1 = Return first)
  ∧ (write filename second w1).1 = Return tt
  ∧ (∀ defaultValue, (read filename defaultValue w2).1 = Return second).
Proof.
  intros Hfaults Hlock Hrt1 Hrt2 w1 w2.
  destruct (write_then_read_once filename first w Hfaults Hlock)
    as (Hr1 & Hf1 & Hl1 & Hread1).
  destruct (write_then_read_once filename second w1 Hf1 Hl1)
    as (Hr2 & _ & _ & Hread2).
  split; [done|]. split; [by apply Hread1|]. split; [done|]. by apply Hread2.
Qed.

Lemma write_then_read_witness :
  let settings := JObj [("theme", JStr "dark")] in
  let w1 := (write "settings.json" JNull Sample.empty_world).2 in
  let w2 := (write "settings.json" settings w1).2 in
  (read "settings.json" (JArr []) w1).1 = Return JNull
  ∧ (read "settings.json" (JArr []) w2).1 = Return settings.
Proof.
  intros settings w1 w2.
  destruct (write_then_read "settings.json" JNull settings Sample.empty_world)
    as (_ & Hfirst & _ & Hsecond).
  - reflexivity.
  - reflexivity.
  - vm_compute. reflexivity.
  - vm_compute. reflexivity.
  - split; [apply Hfirst|apply Hsecond].
Defined.

(** ** A page size of 0 *)

Lemma slice_empty (l : list json) (start : Z) : Array_slice l start start = [].
Proof.
  unfold Array_slice. by rewrite Z.sub_diag.
Qed.

(** X24: With a page size of 0 [paginate] does not fail: every page is empty,
    [total] still counts the selected records, and [totalPages] is
    [Infinity] -- [NaN] when nothing is selected --, neither of which is a
    number of pages (nor survives [JSON.stringify], which writes
    [null]). *)
Theorem paginate_limit_zero `{JsRuntime} (filename : string) (predicate : json → bool)
    (page : Z) (sort : option sort_options) (w : world) (l d : list json) :
  (read filename (JArr []) w).1 = Return (JArr l) →
  sort_if sort (List.filter predicate l) = Return d →
  (paginate filename predicate page 0 sort w).1
  = Return (mkPage [] page 0 (Z.of_nat (length d))
              (if decide (d = []) then NaN else Infinity)).
Proof.
  intros Hread Hsort.
  rewrite (paginate_unfold _ _ _ _ _ _ l d) by done.
  rewrite Z.add_0_r, slice_empty. do 2 f_equal.
  unfold ceil_div. change (0 =? 0) with true. cbv iota.
  destruct d as [|x d]; [done|].
  rewrite decide_False by done. simpl length.
  replace (Z.of_nat (S (length d)) =? 0) with false
    by (symmetry; apply Z.eqb_neq; lia). done.
Qed.

Lemma paginate_limit_zero_witness :
  (paginate "lessons.json" Sample.everything 1 0 None
     (Sample.world_with "lessons.json" Sample.three)).1
  = Return (mkPage [] 1 0 3 Infinity).
Proof.
  apply (paginate_limit_zero "lessons.json" Sample.everything 1 None
           (Sample.world_with "lessons.json" Sample.three) Sample.three Sample.three).
  - vm_compute. reflexivity.
  - reflexivity.
Defined.
